(** * mpv-menu-plugin: the menu model of [src/menu.c]

    A shallow embedding of the configuration parser, the menu tree builder,
    the dynamic menu registry and the state-to-menu projectors of
    [src/menu.c], together with the properties of the specification that
    concern them.

    Layout: byte strings ([Bstr]), the host menu toolkit ([Win32]), the
    player state ([mp_state]), then the functions of [menu.c] in the order
    of the source, and finally the theorems. *)

From Stdlib Require Import ZArith String Ascii Floats DecimalString.
From stdpp Require Import base list relations.

Local Open Scope string_scope.
Local Open Scope Z_scope.

(* ===================================================================== *)
(** * Byte strings: the [bstr] helpers of [misc/bstr.h] *)
(* ===================================================================== *)

(** Modelled from the spec: [misc/bstr.h], which [menu.c] includes, is not
    among the sources, and the specification only names its operations
    (split at a separator, trim, strip a prefix).  The helpers below follow
    mpv's [misc/bstr.c], the library [menu.c] is written against; what
    [menu.c] itself relies on fixes the two points that matter here:
    [bstr_split] leaves the separator at the head of [rest] (the comment
    that [parse_menu] splits off at ['#'] is tested for the prefix [#@]),
    and it skips the separators its argument starts with (the recursion of
    [parse_menu] on [rest], which starts with ['>'], finds the next name).

    A [bstr] is a pointer with a length into immutable text: it is
    embedded as the [string] it denotes, [bstr_cut] being the suffix and
    [bstr_splice] the infix. *)
Module Bstr.

Abbreviation bstr := string (only parsing).

Global Instance string_eq_dec : EqDecision string := String.string_dec.

Definition len (s : bstr) : nat := String.length s.

(** [bstr0 (NULL)] is the empty string. *)
Definition bstr0 (s : option string) : bstr :=
  match s with Some s => s | None => "" end.

(** [bstr_cut (str, n)] for [0 <= n]: the suffix from offset [n], clamped
    at the end of the string. *)
Fixpoint bstr_cut (s : bstr) (n : nat) : bstr :=
  match n, s with
  | O, _ => s
  | S _, EmptyString => EmptyString
  | S n', String _ s' => bstr_cut s' n'
  end.

(** [bstr_splice (str, 0, n)]: the prefix of length [n], clamped. *)
Fixpoint bstr_splice0 (s : bstr) (n : nat) : bstr :=
  match n, s with
  | O, _ => EmptyString
  | S _, EmptyString => EmptyString
  | S n', String c s' => String c (bstr_splice0 s' n')
  end.

Definition NUL : ascii := Ascii.zero.

(** C's [strchr (set, c) != NULL]: [c] occurs in [set], or [c] is the
    terminating NUL of [set]. *)
Fixpoint mem (c : ascii) (set : string) : bool :=
  match set with
  | EmptyString => false
  | String d set' => Ascii.eqb c d || mem c set'
  end.

Definition strchr (set : string) (c : ascii) : bool :=
  Ascii.eqb c NUL || mem c set.

(** [mp_isspace] of [misc/ctype.h]. *)
Definition WHITESPACE : string :=
  String " " (String "012" (String "010" (String "013"
    (String "009" (String "011" EmptyString))))).

Definition mp_isspace (c : ascii) : bool := mem c WHITESPACE.

(** [bstrcspn (str, reject)]: the length of the longest prefix free of the
    characters of [reject]. *)
Fixpoint bstrcspn (s : bstr) (reject : string) : nat :=
  match s with
  | EmptyString => O
  | String c s' => if strchr reject c then O else S (bstrcspn s' reject)
  end.

(** The first loop of [bstr_split]: drop the leading separators. *)
Fixpoint skip_seps (s : bstr) (sep : string) : bstr :=
  match s with
  | EmptyString => EmptyString
  | String c s' => if strchr sep c then skip_seps s' sep else s
  end.

(** [bstr_split (str, sep, &rest)]: skips the separators [str] starts
    with, returns the text up to the next separator, and leaves in [rest]
    what follows, the separator that ended the token included. *)
Definition bstr_split (s : bstr) (sep : string) : bstr * bstr :=
  let s := skip_seps s sep in
  let e := bstrcspn s sep in
  (bstr_splice0 s e, bstr_cut s e).

Fixpoint bstr_startswith (s prefix : bstr) : bool :=
  match prefix, s with
  | EmptyString, _ => true
  | String _ _, EmptyString => false
  | String p prefix', String c s' => Ascii.eqb c p && bstr_startswith s' prefix'
  end.

Definition bstr_startswith0 := bstr_startswith.

Definition bstr_equals0 (s t : bstr) : bool := String.eqb s t.

(** [bstr_eatstart0 (&s, prefix)]: [Some] of the remainder when [s] starts
    with [prefix] (the C function then returns true and advances [s]). *)
Definition bstr_eatstart0 (s prefix : bstr) : option bstr :=
  if bstr_startswith s prefix then Some (bstr_cut s (len prefix)) else None.

Fixpoint bstr_lstrip (s : bstr) : bstr :=
  match s with
  | EmptyString => EmptyString
  | String c s' => if mp_isspace c then bstr_lstrip s' else s
  end.

(** [bstr_rstrip]: drop the white space the string ends with. *)
Fixpoint bstr_rstrip (s : bstr) : bstr :=
  match s with
  | EmptyString => EmptyString
  | String c s' =>
      match bstr_rstrip s' with
      | EmptyString => if mp_isspace c then EmptyString else String c EmptyString
      | r => String c r
      end
  end.

Definition bstr_strip (s : bstr) : bstr := bstr_rstrip (bstr_lstrip s).

(** [bstr_find (haystack, needle)]: the first offset at which [needle]
    occurs, [None] for the C function's -1. *)
Fixpoint bstr_find (haystack needle : bstr) : option nat :=
  match haystack with
  | EmptyString => None
  | String _ h' =>
      if bstr_startswith haystack needle then Some O
      else option_map S (bstr_find h' needle)
  end.

(** [bstr_split_tok (str, tok, &left, &right)]: split at the first
    occurrence of [tok]; when there is none, [left] is the whole string,
    [right] is empty and the result is false. *)
Definition bstr_split_tok (s tok : bstr) : bool * bstr * bstr :=
  match bstr_find s tok with
  | Some pos => (true, bstr_splice0 s pos, bstr_cut s (pos + len tok))
  | None => (false, s, EmptyString)
  end.

(** [bstrchr (str, '\n')]. *)
Fixpoint bstrchr (s : bstr) (c : ascii) : option nat :=
  match s with
  | EmptyString => None
  | String d s' => if Ascii.eqb d c then Some O else option_map S (bstrchr s' c)
  end.

Definition LF : ascii := "010"%char.
Definition CR : ascii := "013"%char.
Definition TAB : ascii := "009"%char.

(** [bstr_getline (str, &rest)]: the first line, its line feed included. *)
Definition bstr_getline (s : bstr) : bstr * bstr :=
  let pos := match bstrchr s LF with Some p => p | None => len s end in
  (bstr_splice0 s (pos + 1), bstr_cut s (pos + 1)).

Fixpoint bstr_endswith (s suffix : bstr) : bool :=
  match s with
  | EmptyString => String.eqb suffix EmptyString
  | String _ s' => String.eqb s suffix || bstr_endswith s' suffix
  end.

Definition bstr_strip_linebreaks (s : bstr) : bstr :=
  if bstr_endswith s (String CR (String LF EmptyString)) then
    bstr_splice0 s (len s - 2)
  else if bstr_endswith s (String LF EmptyString) then
    bstr_splice0 s (len s - 1)
  else s.

End Bstr.
Import Bstr.

(* ===================================================================== *)
(** * Formatted output: the conversions of [talloc_asprintf] used here *)
(* ===================================================================== *)

Module Printf.

(** [%d]. *)
Definition fmt_d (n : Z) : string := NilZero.string_of_int (Z.to_int n).

(** [%02d]: at least two characters, padded with zeros on the left. *)
Definition fmt_02d (n : Z) : string :=
  if (0 <=? n) && (n <? 10) then "0" ++ fmt_d n else fmt_d n.

(** [(int) x] for a double [x]: the integral part, towards zero.  The
    conversion is undefined in C for a NaN, an infinity or a value outside
    the range of [int]; the model gives 0 for the first two and does not
    truncate the third. *)
Definition int_of_double (x : float) : Z :=
  match Prim2SF x with
  | S754_finite s m e =>
      let a := if 0 <=? e then Z.pos m * 2 ^ e else Z.pos m / 2 ^ (- e) in
      if s then - a else a
  | _ => 0
  end.

(** Round the non-negative rational [n / d] to the nearest integer, ties
    to even (the default rounding of the C library's conversions). *)
Definition round_half_even (n d : Z) : Z :=
  let q := n / d in
  let r := n mod d in
  if 2 * r <? d then q
  else if d <? 2 * r then q + 1
  else if Z.even q then q else q + 1.

(** The six digits after the point: [n] printed in a field of width 6. *)
Definition fmt_frac6 (n : Z) : string :=
  let s := fmt_d n in
  String.concat "" (repeat "0" (6 - String.length s)%nat) ++ s.

(** [%f] for a double: sign, integral part, point, six digits. *)
Definition fmt_f (x : float) : string :=
  match Prim2SF x with
  | S754_zero s => (if s then "-" else "") ++ "0.000000"
  | S754_infinity s => (if s then "-" else "") ++ "inf"
  | S754_nan => "nan"
  | S754_finite s m e =>
      let micro :=
        if 0 <=? e then Z.pos m * 2 ^ e * 1000000
        else round_half_even (Z.pos m * 1000000) (2 ^ (- e)) in
      (if s then "-" else "") ++ fmt_d (micro / 1000000) ++ "."
        ++ fmt_frac6 (micro mod 1000000)
  end.

End Printf.
Import Printf.

(* ===================================================================== *)
(** * The host menu toolkit *)
(* ===================================================================== *)

(** The menus of the toolkit live in a store indexed by their handles; a
    submenu is referred to by its handle from the item that opens it, so
    two holders of one handle see the same rows. *)
Module Win32.

(** A menu handle is an index into the store of menus. *)
Abbreviation HMENU := nat (only parsing).

Definition MIIM_STATE : Z := 0x1.
Definition MIIM_ID : Z := 0x2.
Definition MIIM_SUBMENU : Z := 0x4.
Definition MIIM_DATA : Z := 0x20.
Definition MIIM_STRING : Z := 0x40.
Definition MIIM_FTYPE : Z := 0x100.

Definition MFT_RADIOCHECK : Z := 0x200.
Definition MFT_SEPARATOR : Z := 0x800.

Definition MFS_ENABLED : Z := 0x0.
Definition MFS_UNCHECKED : Z := 0x0.
Definition MFS_DISABLED : Z := 0x3.
Definition MFS_CHECKED : Z := 0x8.

Definition MF_BYCOMMAND : Z := 0x0.
Definition MF_ENABLED : Z := 0x0.
Definition MF_GRAYED : Z := 0x1.
Definition MF_DISABLED : Z := 0x2.
Definition MF_BYPOSITION : Z := 0x400.

Definition WM_USER : Z := 0x400.

(** A 32-bit [UINT], and its reading as an [int]. *)
Definition UINT_MOD : Z := 2 ^ 32.
Definition to_uint (n : Z) : Z := n mod UINT_MOD.
Definition to_int (n : Z) : Z :=
  let u := to_uint n in if u <? 2 ^ 31 then u else u - UINT_MOD.

(** [flags & bit] read as a C condition. *)
Definition has (flags bit : Z) : bool := negb (Z.land flags bit =? 0).

(** One row of a menu, as the toolkit keeps it. *)
Record MENUITEM := {
  item_id : Z;                    (* wID *)
  item_type : Z;                  (* fType *)
  item_state : Z;                 (* fState *)
  item_text : option string;      (* dwTypeData *)
  item_submenu : option HMENU;    (* hSubMenu *)
  item_data : option string       (* dwItemData: the bound command *)
}.

(** The argument of [InsertMenuItemW]. *)
Record MENUITEMINFOW := {
  fMask : Z;
  fType : Z;
  fState : Z;
  wID : Z;
  hSubMenu : option HMENU;
  dwTypeData : option string;
  dwItemData : option string
}.

Abbreviation store := (list (list MENUITEM)) (only parsing).

(** [CreatePopupMenu]: a fresh empty menu. *)
Definition CreatePopupMenu (ms : store) : HMENU * store :=
  (length ms, (ms ++ [[]])%list).

(** The row [InsertMenuItemW] builds: the members selected by [fMask]. *)
Definition item_of (mii : MENUITEMINFOW) : MENUITEM :=
  {| item_id := if has (fMask mii) MIIM_ID then wID mii else 0;
     item_type := if has (fMask mii) MIIM_FTYPE then fType mii else 0;
     item_state := if has (fMask mii) MIIM_STATE then fState mii else 0;
     item_text := if has (fMask mii) MIIM_STRING then dwTypeData mii else None;
     item_submenu := if has (fMask mii) MIIM_SUBMENU then hSubMenu mii else None;
     item_data := if has (fMask mii) MIIM_DATA then dwItemData mii else None |}.

(** [InsertMenuItemW (hmenu, -1, TRUE, &mii)]: append a row; fails on a
    handle that is no menu. *)
Definition InsertMenuItemW (ms : store) (h : HMENU) (mii : MENUITEMINFOW)
  : bool * store :=
  match ms !! h with
  | Some items => (true, <[h := (items ++ [item_of mii])%list]> ms)
  | None => (false, ms)
  end.

(** [GetMenuItemCount]: -1 on a handle that is no menu. *)
Definition GetMenuItemCount (ms : store) (h : HMENU) : Z :=
  match ms !! h with
  | Some items => Z.of_nat (length items)
  | None => -1
  end.

(** [RemoveMenu (hmenu, pos, MF_BYPOSITION)]: the row is dropped, a
    submenu it opened stays alive under its handle. *)
Definition RemoveMenu (ms : store) (h : HMENU) (pos : nat) : store :=
  match ms !! h with
  | Some items => <[h := delete pos items]> ms
  | None => ms
  end.

(** The toolkit's search of a row by command identifier: the rows of the
    menu in order, descending into each submenu; a row that opens a
    submenu and carries the identifier itself is taken only when no row
    below any submenu does.  [scan_items] is the loop over the rows from
    position [pos] on, [search] the descent into a submenu. *)
Fixpoint scan_items (search : HMENU → option (HMENU * nat)) (h : HMENU)
    (id : Z) (items : list MENUITEM) (pos : nat)
    (fallback : option (HMENU * nat)) : option (HMENU * nat) :=
  match items with
  | [] => fallback
  | it :: items' =>
      match item_submenu it with
      | Some sub =>
          match search sub with
          | Some loc => Some loc
          | None =>
              scan_items search h id items' (S pos)
                (if item_id it =? id then Some (h, pos) else fallback)
          end
      | None =>
          if item_id it =? id then Some (h, pos)
          else scan_items search h id items' (S pos) fallback
      end
  end.

(** [fuel] bounds the depth of the descent. *)
Fixpoint find_item (fuel : nat) (ms : store) (h : HMENU) (id : Z)
  : option (HMENU * nat) :=
  match fuel with
  | O => None
  | S fuel' =>
      scan_items (λ sub, find_item fuel' ms sub id) h id
        (default [] (ms !! h)) O None
  end.

(** Menus nest no deeper than there are menus (in the menus [load_menu]
    builds: [find_by_command_fuel] below). *)
Definition find_by_command (ms : store) (h : HMENU) (id : Z)
  : option (HMENU * nat) :=
  find_item (length ms) ms h id.

Definition item_at (ms : store) (loc : HMENU * nat) : option MENUITEM :=
  ms !! loc.1 ≫= λ items, items !! loc.2.

(** [GetMenuItemInfoW (hmenu, id, FALSE, &mii)]. *)
Definition GetMenuItemInfo_by_command (ms : store) (h : HMENU) (id : Z)
  : option MENUITEM :=
  find_by_command ms h id ≫= item_at ms.

Definition set_state (f : Z → Z) (it : MENUITEM) : MENUITEM :=
  {| item_id := item_id it; item_type := item_type it;
     item_state := f (item_state it); item_text := item_text it;
     item_submenu := item_submenu it; item_data := item_data it |}.

Definition set_type_state (t f : Z → Z) (it : MENUITEM) : MENUITEM :=
  {| item_id := item_id it; item_type := t (item_type it);
     item_state := f (item_state it); item_text := item_text it;
     item_submenu := item_submenu it; item_data := item_data it |}.

(** [EnableMenuItem (hmenu, id, MF_BYCOMMAND | flags)]: the grayed and
    disabled bits of the row found become those of [flags]; nothing
    happens when no row carries the identifier. *)
Definition enable_bits (flags old : Z) : Z :=
  Z.lor (Z.land old (Z.lnot MFS_DISABLED)) (Z.land flags MFS_DISABLED).

Definition EnableMenuItem (ms : store) (h : HMENU) (id : Z) (flags : Z)
  : store :=
  match find_by_command ms h id with
  | Some (m, pos) => alter (alter (set_state (enable_bits flags)) pos) m ms
  | None => ms
  end.

(** [CheckMenuRadioItem (hmenu, first, last, check, MF_BYPOSITION)]: of
    the rows at the positions [first .. last] that exist and are no
    separators, the one at [check] gets the radio type and the check
    mark, the others lose the check mark. *)
Definition radio_row (first last check : Z) (pos : nat) (it : MENUITEM)
  : MENUITEM :=
  let i := Z.of_nat pos in
  if (first <=? i) && (i <=? last) && negb (item_type it =? MFT_SEPARATOR) then
    if i =? check then
      set_type_state (λ t, Z.lor t MFT_RADIOCHECK) (λ s, Z.lor s MFS_CHECKED) it
    else set_state (λ s, Z.land s (Z.lnot MFS_CHECKED)) it
  else it.

Definition CheckMenuRadioItem (ms : store) (h : HMENU) (first last check : Z)
  : store :=
  alter (imap (radio_row first last check)) h ms.

Definition is_checked (it : MENUITEM) : bool := has (item_state it) MFS_CHECKED.
Definition is_enabled (it : MENUITEM) : bool :=
  negb (has (item_state it) MFS_DISABLED).
Definition is_radio (it : MENUITEM) : bool := has (item_type it) MFT_RADIOCHECK.

End Win32.
Import Win32.

(* ===================================================================== *)
(** * The player state *)
(* ===================================================================== *)

(** Modelled from the spec: [menu.h], which declares [mp_state] and the
    snapshot lists, is not among the sources; the records below have the
    members [menu.c] reads, with the contents the specification gives them
    (tracks: kind, id, title, language, selected flag; chapters: title and
    time; editions: id and title; audio devices: name and description).  A
    [char *] that [menu.c] tests for NULL or wraps in [bstr0] is an
    [option string]; a list pointer that it tests for NULL is an [option]. *)
Record mp_track_item := {
  track_id : Z;
  track_title : option string;
  track_lang : option string;
  track_type : string;
  track_selected : bool
}.

Record mp_chapter_item := {
  chapter_title : option string;
  chapter_time : float
}.

Record mp_edition_item := {
  edition_id : Z;
  edition_title : option string
}.

Record mp_audio_device := {
  device_name : string;
  device_desc : option string
}.

Record mp_state := {
  vid : Z;
  aid : Z;
  sid : Z;
  sid2 : Z;
  track_list : option (list mp_track_item);
  chapter : Z;
  chapter_list : option (list mp_chapter_item);
  edition : Z;
  edition_list : option (list mp_edition_item);
  audio_device : string;
  audio_device_list : option (list mp_audio_device)
}.

(* ===================================================================== *)
(** * The program state of [menu.c] *)
(* ===================================================================== *)

(** The [update] member of a [dyn_entry] points to one of seven functions. *)
Inductive updater :=
  | video_track
  | audio_track
  | sub_track
  | sub_track2
  | chapters
  | editions
  | audio_devices.

Global Instance updater_eq_dec : EqDecision updater.
Proof. solve_decision. Defined.

(** [dyn_entry]: submenu handle, menu command id, updater.  The talloc
    context only owns the strings of the rows and is left out. *)
Record dyn_entry := {
  dyn_hmenu : HMENU;
  dyn_id : Z;
  dyn_update : updater
}.

(** What [menu.c] mutates: the menus of the toolkit, the [static UINT id]
    of [append_menu], and the list [dyn_menus] (a NULL [dyn_menus] and an
    empty one are not told apart: [dyn_menu_update] does nothing on
    either). *)
Record world := {
  menus : store;
  next_id : Z;
  dyn_menus : list dyn_entry
}.

(** The members of [plugin_ctx] that [menu.c] reads: [ctx->hmenu],
    [ctx->state] and [ctx->conf->uosc] (the last two are declared by a
    later [plugin.h] than the one at hand). *)
Record plugin_ctx := {
  ctx_hmenu : HMENU;
  ctx_state : mp_state;
  ctx_uosc : bool
}.

(** A state monad over [world] for the functions that mutate it. *)
Definition M (A : Type) : Type := world → A * world.

Global Instance M_ret : MRet M := λ A x w, (x, w).
Global Instance M_bind : MBind M :=
  λ A B f m w, let '(a, w') := m w in f a w'.

Definition run {A} (m : M A) (w : world) : world := (m w).2.

Definition get_menus : M store := λ w, (menus w, w).
Definition put_menus (ms : store) : M unit :=
  λ w, (tt, {| menus := ms; next_id := next_id w; dyn_menus := dyn_menus w |}).
Definition modify_menus (f : store → store) : M unit :=
  ms ← get_menus; put_menus (f ms).

(* ===================================================================== *)
(** * [menu.c] *)
(* ===================================================================== *)

Definition MENU_PREFIX : string := "#menu:".
Definition MENU_PREFIX_UOSC : string := "#!".
Definition MENU_PREFIX_DYN : string := "#@".

(** [dyn_providers]. *)
Definition dyn_providers : list (string * updater) :=
  [ ("tracks/video", video_track);
    ("tracks/audio", audio_track);
    ("tracks/sub", sub_track);
    ("tracks/sub-secondary", sub_track2);
    ("chapters", chapters);
    ("editions", editions);
    ("audio-devices", audio_devices) ].

(** [add_dyn_menu]: the loop over [dyn_providers], as a recursion over the
    part of the table still to visit. *)
Fixpoint add_dyn_menu_from (providers : list (string * updater))
    (hmenu : HMENU) (id : Z) (keyword : bstr) : M bool :=
  match providers with
  | [] => mret false
  | provider :: providers' =>
      if negb (bstr_equals0 keyword provider.1) then
        add_dyn_menu_from providers' hmenu id keyword
      else
        λ w, (true,
              {| menus := menus w; next_id := next_id w;
                 dyn_menus := (dyn_menus w ++
                   [{| dyn_hmenu := hmenu; dyn_id := to_uint id;
                       dyn_update := provider.2 |}])%list |})
  end.

Definition add_dyn_menu := add_dyn_menu_from dyn_providers.

(** [find_submenu]: the first row with a non-empty text that opens a
    submenu and whose text is [name]; the result is the submenu and the
    identifier of the row. *)
Fixpoint find_submenu_in (items : list MENUITEM) (name : string)
  : option (HMENU * Z) :=
  match items with
  | [] => None
  | mii :: items' =>
      match item_text mii, item_submenu mii with
      | Some text, Some sub =>
          if negb (String.length text =? 0)%nat && String.eqb text name
          then Some (sub, item_id mii)
          else find_submenu_in items' name
      | _, _ => find_submenu_in items' name
      end
  end.

Definition find_submenu (hmenu : HMENU) (name : string)
  : M (option (HMENU * Z)) :=
  ms ← get_menus; mret (find_submenu_in (default [] (ms !! hmenu)) name).

(** The loop of [escape_title]; [fuel] bounds its iterations. *)
Fixpoint escape_loop (fuel : nat) (escaped left_ rest : bstr) : bstr :=
  match fuel with
  | O => (escaped ++ left_)%string
  | S fuel' =>
      if (0 <? len rest)%nat then
        let escaped := (escaped ++ left_ ++ "&&")%string in
        let '(left_, rest) := bstr_split rest "&" in
        escape_loop fuel' escaped left_ rest
      else (escaped ++ left_)%string
  end.

(** [escape_title]: "escape & to && for menu title".  The conversion of
    the result to wide characters is left out. *)
Definition escape_title (title : bstr) : string :=
  let '(left_, rest) := bstr_split title "&" in
  escape_loop (len title) "" left_ rest.

(** [format_title]: "format title as name\tkey". *)
Definition format_title (name key : bstr) : string :=
  let title := name in
  let title :=
    if (0 <? len key)%nat && negb (bstr_equals0 key "_")
    then (title ++ String TAB "" ++ key)%string else title in
  escape_title title.

(** The [MENUITEMINFOW] that [append_menu] fills in for the identifier
    [id]. *)
Definition menu_item_info (id mask type state : Z) (title : option string)
    (submenu : option HMENU) (data : option string) : MENUITEMINFOW :=
  {| fMask := Z.lor MIIM_ID mask;
     wID := id;
     fType := if has mask MIIM_FTYPE then type else 0;
     fState := if has mask MIIM_STATE then state else 0;
     dwTypeData := if has mask MIIM_STRING then title else None;
     hSubMenu := if has mask MIIM_SUBMENU then submenu else None;
     dwItemData := if has mask MIIM_DATA then data else None |}.

(** [append_menu]: the row takes the current value of the static counter,
    which advances whether or not the insertion succeeds. *)
Definition append_menu (hmenu : HMENU) (mask type state : Z)
    (title : option string) (submenu : option HMENU) (data : option string)
  : M Z :=
  λ w,
    let id := next_id w in
    let mii := menu_item_info id mask type state title submenu data in
    let '(ok, ms) := InsertMenuItemW (menus w) hmenu mii in
    (if ok then to_int id else -1,
     {| menus := ms; next_id := to_uint (id + 1); dyn_menus := dyn_menus w |}).

Definition append_seprator (hmenu : HMENU) : M Z :=
  append_menu hmenu MIIM_FTYPE MFT_SEPARATOR 0 None None None.

(** [append_submenu (hmenu, title, &id)]: the submenu and what the call
    leaves in [id]. *)
Definition append_submenu (hmenu : HMENU) (title : string) : M (HMENU * Z) :=
  found ← find_submenu hmenu title;
  match found with
  | Some (menu, id) => mret (menu, to_int id)
  | None =>
      menu ← (λ w, let '(h, ms) := CreatePopupMenu (menus w) in
                   (h, {| menus := ms; next_id := next_id w;
                          dyn_menus := dyn_menus w |}));
      wid ← append_menu hmenu (Z.lor MIIM_STRING MIIM_SUBMENU) 0 0
              (Some title) (Some menu) None;
      mret (menu, wid)
  end.

Definition get_count (hmenu : HMENU) : M Z :=
  ms ← get_menus; mret (GetMenuItemCount ms hmenu).

Definition ROW : Z := Z.lor MIIM_STRING MIIM_DATA.

(** The loop of [update_track_menu] over the entries of the list. *)
Fixpoint track_loop (item : dyn_entry) (type prop : string) (pos : Z)
    (entries : list mp_track_item) : M unit :=
  match entries with
  | [] => mret tt
  | entry :: entries' =>
      (if negb (String.eqb (track_type entry) type) then mret tt
       else
         let fState := if track_selected entry then MFS_CHECKED else MFS_UNCHECKED in
         let fState :=
           if String.eqb type "sub" && track_selected entry
              && negb (pos =? track_id entry)
           then Z.lor fState MFS_DISABLED else fState in
         _ ← append_menu (dyn_hmenu item) (Z.lor ROW MIIM_STATE) 0 fState
               (Some (format_title (bstr0 (track_title entry))
                                   (bstr0 (track_lang entry))))
               None
               (Some ("set " ++ prop ++ " " ++ fmt_d (track_id entry))%string);
         mret tt);;
      track_loop item type prop pos entries'
  end.

Definition update_track_menu (state : mp_state) (item : dyn_entry)
    (type prop : string) (pos : Z) : M unit :=
  match track_list state with
  | None | Some [] => mret tt
  | Some entries =>
      count ← get_count (dyn_hmenu item);
      track_loop item type prop pos entries;;
      count' ← get_count (dyn_hmenu item);
      if count <? count' then
        _ ← append_menu (dyn_hmenu item) (Z.lor ROW MIIM_STATE) 0
              (if pos <? 0 then MFS_CHECKED else MFS_UNCHECKED)
              (Some (escape_title "Off")) None
              (Some ("set " ++ prop ++ " no")%string);
        mret tt
      else mret tt
  end.

Definition update_video_track_menu (state : mp_state) (item : dyn_entry) :=
  update_track_menu state item "video" "vid" (vid state).

Definition update_audio_track_menu (state : mp_state) (item : dyn_entry) :=
  update_track_menu state item "audio" "aid" (aid state).

Definition update_sub_track_menu (state : mp_state) (item : dyn_entry) :=
  update_track_menu state item "sub" "sid" (sid state).

Definition update_sub_track_menu2 (state : mp_state) (item : dyn_entry) :=
  update_track_menu state item "sub" "secondary-sid" (sid2 state).

(** The time stamp of a chapter row: ["[%02d:%02d:%02d]"] of
    [(int) time / 3600], [(int) time / 60 % 60] and [(int) time % 60],
    with C's division and remainder. *)
Definition chapter_stamp (time : float) : string :=
  let t := int_of_double time in
  ("[" ++ fmt_02d (Z.quot t 3600) ++ ":" ++ fmt_02d (Z.rem (Z.quot t 60) 60)
       ++ ":" ++ fmt_02d (Z.rem t 60) ++ "]")%string.

Fixpoint chapter_loop (item : dyn_entry) (entries : list mp_chapter_item)
  : M unit :=
  match entries with
  | [] => mret tt
  | entry :: entries' =>
      _ ← append_menu (dyn_hmenu item) ROW 0 0
            (Some (format_title (bstr0 (chapter_title entry))
                                (chapter_stamp (chapter_time entry))))
            None
            (Some ("seek " ++ fmt_f (chapter_time entry) ++ " absolute")%string);
      chapter_loop item entries'
  end.

Definition update_chapter_menu (state : mp_state) (item : dyn_entry) : M unit :=
  match chapter_list state with
  | None | Some [] => mret tt
  | Some entries =>
      chapter_loop item entries;;
      if 0 <=? chapter state then
        modify_menus (λ ms, CheckMenuRadioItem ms (dyn_hmenu item) 0
                              (Z.of_nat (length entries)) (chapter state))
      else mret tt
  end.

(** The loop of [update_edition_menu]; [i] is the index of the entry at
    the head of [entries], the result is the final value of [pos]. *)
Fixpoint edition_loop (state : mp_state) (item : dyn_entry) (i pos : Z)
    (entries : list mp_edition_item) : M Z :=
  match entries with
  | [] => mret pos
  | entry :: entries' =>
      let pos := if edition_id entry =? edition state then i else pos in
      _ ← append_menu (dyn_hmenu item) ROW 0 0
            (Some (escape_title (bstr0 (edition_title entry)))) None
            (Some ("set edition " ++ fmt_d (edition_id entry))%string);
      edition_loop state item (i + 1) pos entries'
  end.

Definition update_edition_menu (state : mp_state) (item : dyn_entry) : M unit :=
  match edition_list state with
  | None | Some [] => mret tt
  | Some entries =>
      pos ← edition_loop state item 0 (-1) entries;
      if 0 <=? pos then
        modify_menus (λ ms, CheckMenuRadioItem ms (dyn_hmenu item) 0
                              (Z.of_nat (length entries)) pos)
      else mret tt
  end.

Fixpoint audio_device_loop (state : mp_state) (item : dyn_entry) (i pos : Z)
    (entries : list mp_audio_device) : M Z :=
  match entries with
  | [] => mret pos
  | entry :: entries' =>
      let pos := if String.eqb (device_name entry) (audio_device state)
                 then i else pos in
      let title :=
        match device_desc entry with
        | Some desc => if (String.length desc =? 0)%nat then device_name entry
                       else desc
        | None => device_name entry
        end in
      _ ← append_menu (dyn_hmenu item) ROW 0 0
            (Some (escape_title title)) None
            (Some ("set audio-device " ++ device_name entry)%string);
      audio_device_loop state item (i + 1) pos entries'
  end.

Definition update_audio_device_menu (state : mp_state) (item : dyn_entry)
  : M unit :=
  match audio_device_list state with
  | None | Some [] => mret tt
  | Some entries =>
      pos ← audio_device_loop state item 0 (-1) entries;
      if 0 <=? pos then
        modify_menus (λ ms, CheckMenuRadioItem ms (dyn_hmenu item) 0
                              (Z.of_nat (length entries)) pos)
      else mret tt
  end.

(** The call [item->update (ctx->state, item)]. *)
Definition call_update (state : mp_state) (item : dyn_entry) : M unit :=
  match dyn_update item with
  | video_track => update_video_track_menu state item
  | audio_track => update_audio_track_menu state item
  | sub_track => update_sub_track_menu state item
  | sub_track2 => update_sub_track_menu2 state item
  | chapters => update_chapter_menu state item
  | editions => update_edition_menu state item
  | audio_devices => update_audio_device_menu state item
  end.

(** "clear menu": remove the first row while there is one. *)
Fixpoint clear_loop (fuel : nat) (hmenu : HMENU) : M unit :=
  match fuel with
  | O => mret tt
  | S fuel' =>
      count ← get_count hmenu;
      if 0 <? count then
        modify_menus (λ ms, RemoveMenu ms hmenu 0);;
        clear_loop fuel' hmenu
      else mret tt
  end.

Definition clear_menu (hmenu : HMENU) : M unit :=
  count ← get_count hmenu; clear_loop (Z.to_nat count) hmenu.

(** The body of the loop of [dyn_menu_update] for one entry. *)
Definition dyn_entry_update (ctx : plugin_ctx) (item : dyn_entry) : M unit :=
  clear_menu (dyn_hmenu item);;
  call_update (ctx_state ctx) item;;
  count ← get_count (dyn_hmenu item);
  let enable := if 0 <? count then MF_ENABLED else MF_GRAYED in
  modify_menus (λ ms, EnableMenuItem ms (ctx_hmenu ctx) (dyn_id item)
                        (Z.lor MF_BYCOMMAND enable)).

Fixpoint dyn_menu_loop (ctx : plugin_ctx) (entries : list dyn_entry) : M unit :=
  match entries with
  | [] => mret tt
  | item :: entries' =>
      dyn_entry_update ctx item;; dyn_menu_loop ctx entries'
  end.

Definition dyn_menu_update (ctx : plugin_ctx) : M unit :=
  λ w, dyn_menu_loop ctx (dyn_menus w) w.

Definition is_seprarator (text : bstr) (uosc : bool) : bool :=
  bstr_equals0 text "-" || (uosc && bstr_startswith0 text "---").

(** [parse_menu]; [fuel] bounds the depth of the recursion. *)
Fixpoint parse_menu (fuel : nat) (hmenu : HMENU) (key cmd text : bstr)
    (uosc : bool) : M unit :=
  let '(name, rest) := bstr_split text ">" in
  let '(name, comment) := bstr_split name "#" in
  let name := bstr_strip name in
  if (len name =? 0)%nat then mret tt
  else if (len rest =? 0)%nat then
    if is_seprarator name uosc then
      _ ← append_seprator hmenu; mret tt
    else
      match bstr_eatstart0 comment MENU_PREFIX_DYN with
      | Some comment =>
          '(submenu, id) ← append_submenu hmenu (escape_title name);
          if (0 <? id) && (0 <? len comment)%nat then
            let keyword := (bstr_split comment "#").1 in
            let keyword := bstr_rstrip keyword in
            _ ← add_dyn_menu submenu id keyword; mret tt
          else mret tt
      | None =>
          id ← append_menu hmenu ROW 0 0 (Some (format_title name key)) None
                 (Some cmd);
          if (0 <? id) && ((len cmd =? 0)%nat || bstr_startswith0 cmd "#") then
            modify_menus (λ ms, EnableMenuItem ms hmenu id
                                  (Z.lor MF_BYCOMMAND MF_GRAYED))
          else mret tt
      end
  else
    '(submenu, _) ← append_submenu hmenu (escape_title name);
    if (len comment =? 0)%nat then
      match fuel with
      | O => mret tt
      | S fuel' => parse_menu fuel' submenu key cmd rest uosc
      end
    else mret tt.

(** [split_menu]: [Some (left, right)] when the function returns true. *)
Definition split_menu (line : bstr) (uosc : bool) : option (bstr * bstr) :=
  if (len line =? 0)%nat then None
  else
    let '(found, left_, right_) := bstr_split_tok line MENU_PREFIX in
    let '(found, left_, right_) :=
      if found then (found, left_, right_)
      else if uosc then bstr_split_tok line MENU_PREFIX_UOSC
      else (false, left_, right_) in
    if found then
      let left_ := bstr_strip left_ in
      let right_ := bstr_strip right_ in
      if (0 <? len right_)%nat then Some (left_, right_) else None
    else None.

(** The key and the command of a line [bstr_getline] gave: [None] when
    the loop of [load_menu] skips the line (an empty line, or a line that
    starts with ['#'] outside the compatibility mode). *)
Definition line_fields (uosc : bool) (line : bstr) : option (bstr * bstr) :=
  let line := bstr_strip_linebreaks line in
  let line := bstr_lstrip line in
  if (len line =? 0)%nat then None
  else
    match bstr_eatstart0 line "#" with
    | Some line => if uosc then Some (bstr0 None, bstr_strip line) else None
    | None =>
        let '(key, cmd) := bstr_split line WHITESPACE in
        Some (key, bstr_strip cmd)
    end.

(** The body of the loop of [load_menu] for the line [bstr_getline] gave. *)
Definition load_line (hmenu : HMENU) (uosc : bool) (line : bstr) : M unit :=
  match line_fields uosc line with
  | None => mret tt
  | Some (key, cmd) =>
      match split_menu cmd uosc with
      | Some (_, right_) => parse_menu (len right_) hmenu key cmd right_ uosc
      | None => mret tt
      end
  end.

Fixpoint load_loop (fuel : nat) (hmenu : HMENU) (uosc : bool) (data : bstr)
  : M unit :=
  match fuel with
  | O => mret tt
  | S fuel' =>
      if (0 <? len data)%nat then
        let '(line, data) := bstr_getline data in
        load_line hmenu uosc line;;
        load_loop fuel' hmenu uosc data
      else mret tt
  end.

(** [load_menu]; [file] is what [mp_read_file] returned for the
    configuration file, [None] when it could not be read. *)
Definition load_menu (uosc : bool) (file : option string) : M HMENU :=
  (λ w, (tt, {| menus := menus w; next_id := next_id w; dyn_menus := [] |}));;
  hmenu ← (λ w, let '(h, ms) := CreatePopupMenu (menus w) in
                (h, {| menus := ms; next_id := next_id w;
                       dyn_menus := dyn_menus w |}));
  let data := bstr0 file in
  load_loop (len data) hmenu uosc data;;
  mret hmenu.

(** [show_menu] once the point is known to lie in the window: the rebuild
    that precedes the display. *)
Definition show_menu (ctx : plugin_ctx) : M unit := dyn_menu_update ctx.

(** [handle_menu]: the command passed to [mp_command_async], if any. *)
Definition handle_menu (ctx : plugin_ctx) (id : Z) (w : world) : option string :=
  GetMenuItemInfo_by_command (menus w) (ctx_hmenu ctx) id ≫= item_data.

(** The program state before [load_menu]: no menu, the counter at its
    initial value. *)
Definition world0 : world :=
  {| menus := []; next_id := WM_USER + 100; dyn_menus := [] |}.

(* ===================================================================== *)
(** * Byte strings: lengths and splits *)
(* ===================================================================== *)

Arguments bstr_split : simpl never.
Arguments bstr_strip : simpl never.

Section BstrFacts.
Local Open Scope nat_scope.

Lemma len_cut_le s n : len (bstr_cut s n) ≤ len s.
Proof.
  revert s; induction n as [|n IH]; intros [|c s]; simpl; try lia.
  specialize (IH s). unfold len in *. simpl. lia.
Qed.

Lemma len_skip_seps_le s sep : len (skip_seps s sep) ≤ len s.
Proof.
  induction s as [|c s IH]; simpl; [lia|].
  destruct (strchr sep c); simpl; unfold len in *; simpl; lia.
Qed.

(** What [bstr_split] leaves in [rest] is shorter than a non-empty
    argument: each loop that consumes [rest] terminates. *)
Lemma bstr_split_rest_lt s sep :
  0 < len s → len (bstr_split s sep).2 < len s.
Proof.
  destruct s as [|c s]; [unfold len; simpl; lia|]. intros _.
  unfold bstr_split. simpl. destruct (strchr sep c) eqn:Hc.
  - pose proof (len_cut_le (skip_seps s sep) (bstrcspn (skip_seps s sep) sep)).
    pose proof (len_skip_seps_le s sep). unfold len in *. simpl in *. lia.
  - simpl. rewrite Hc. simpl.
    pose proof (len_cut_le s (bstrcspn s sep)). unfold len in *. simpl. lia.
Qed.

Lemma bstr_split_rest_le s sep : len (bstr_split s sep).2 ≤ len s.
Proof.
  destruct s as [|c s]; [reflexivity|].
  pose proof (bstr_split_rest_lt (String c s) sep). unfold len in *.
  simpl in *. lia.
Qed.

Lemma len_0_empty s : (len s =? 0) = true → s = "".
Proof. destruct s; simpl; [done|discriminate]. Qed.

End BstrFacts.

(* ===================================================================== *)
(** * [escape_title] *)
(* ===================================================================== *)



(** The escaping the comment announces: every ['&'] doubled. *)
Fixpoint double_ampersands (s : string) : string :=
  match s with
  | EmptyString => EmptyString
  | String c s' =>
      if Ascii.eqb c "&" then String "&" (String "&" (double_ampersands s'))
      else String c (double_ampersands s')
  end.

(** No NUL, and no ['&'] that is followed by another one. *)
Fixpoint isolated (s : string) : bool :=
  match s with
  | EmptyString => true
  | String c s' =>
      negb (Ascii.eqb c NUL)
      && negb (Ascii.eqb c "&" && bstr_startswith s' "&")
      && isolated s'
  end.

Lemma append_assoc3 (a b c : string) : ((a ++ b) ++ c = a ++ b ++ c)%string.
Proof. induction a as [|x a IH]; cbn; [done|by rewrite IH]. Qed.

Lemma append_empty_r (a : string) : (a ++ "" = a)%string.
Proof. induction a as [|x a IH]; cbn; [done|by rewrite IH]. Qed.

Lemma startswith_ampersand c t :
  bstr_startswith (String c t) "&" = Ascii.eqb c "&".
Proof. cbn [bstr_startswith]. destruct t; apply andb_true_r. Qed.

(** The token [bstr_split] cuts off an isolated text, and what it leaves. *)
Lemma split_isolated t :
  isolated t = true →
  let l := bstr_splice0 t (bstrcspn t "&") in
  let r := bstr_cut t (bstrcspn t "&") in
  double_ampersands t = (l ++ double_ampersands r)%string
  ∧ isolated r = true
  ∧ bstr_startswith r "&" = negb (len r =? 0)%nat
  ∧ (len r ≤ len t)%nat.
Proof.
  induction t as [|c t IH]; [done|]. cbn [isolated].
  intros [[Hnul Hamp]%andb_prop Hiso]%andb_prop.
  cbn [bstrcspn]. unfold strchr. cbn [mem]. rewrite orb_false_r.
  apply negb_true_iff in Hnul. rewrite Hnul. cbn [orb].
  destruct (Ascii.eqb c "&") eqn:Hc.
  - cbn [bstr_splice0 bstr_cut]. split; [done|]. split.
    + cbn [isolated]. by rewrite Hnul, Hc, Hamp, Hiso.
    + split; [|done]. by rewrite startswith_ampersand, Hc.
  - cbn [bstr_splice0 bstr_cut double_ampersands]. rewrite Hc.
    destruct (IH Hiso) as (Hd & Hi & Hs & Hl).
    split; [cbn; by rewrite Hd|]. split; [done|]. split; [done|].
    unfold len in *. cbn. lia.
Qed.

Lemma escape_loop_isolated fuel escaped left_ rest :
  (len rest ≤ fuel)%nat → isolated rest = true →
  bstr_startswith rest "&" = negb (len rest =? 0)%nat →
  escape_loop fuel escaped left_ rest
  = (escaped ++ left_ ++ double_ampersands rest)%string.
Proof.
  revert escaped left_ rest.
  induction fuel as [|fuel IH]; intros escaped left_ rest Hf Hiso Hst.
  - destruct rest; [|cbn in Hf; lia]. cbn. by rewrite append_empty_r.
  - cbn [escape_loop]. destruct rest as [|c t]; [cbn; by rewrite append_empty_r|].
    rewrite startswith_ampersand in Hst. apply Ascii.eqb_eq in Hst as ->.
    change (0 <? len (String "&" t))%nat with true. cbv iota.
    cbn [isolated] in Hiso.
    apply andb_prop in Hiso as [[_ Hamp]%andb_prop Hiso].
    cbn in Hamp. apply negb_true_iff in Hamp.
    assert (Hskip : skip_seps t "&" = t).
    { destruct t as [|d t]; [done|]. cbn [skip_seps isolated] in *.
      apply andb_prop in Hiso as [[Hnul _]%andb_prop _].
      apply negb_true_iff in Hnul. unfold strchr. cbn [mem].
      rewrite startswith_ampersand in Hamp. by rewrite Hnul, Hamp. }
    unfold bstr_split. change (skip_seps (String "&" t) "&")
      with (skip_seps t "&"). rewrite Hskip.
    destruct (split_isolated t Hiso) as (Hd & Hi & Hs & Hl).
    rewrite IH; [|unfold len in *; cbn in Hf; lia|done|done].
    cbn [double_ampersands]. rewrite Hd, !append_assoc3. cbn.
    reflexivity.
Qed.

Lemma escape_title_doubles title :
  bstr_startswith title "&" = false → isolated title = true →
  escape_title title = double_ampersands title.
Proof.
  intros Hst Hiso. unfold escape_title, bstr_split.
  assert (Hskip : skip_seps title "&" = title).
  { destruct title as [|d t]; [done|]. cbn [skip_seps isolated] in *.
    apply andb_prop in Hiso as [[Hnul _]%andb_prop _].
    apply negb_true_iff in Hnul. unfold strchr. cbn [mem].
    rewrite startswith_ampersand in Hst. by rewrite Hnul, Hst. }
  rewrite Hskip.
  destruct (split_isolated title Hiso) as (Hd & Hi & Hs & Hl).
  rewrite escape_loop_isolated by done. by rewrite Hd.
Qed.

(** X1.  Where [escape_title] does what its comment says: on a title without
    NUL in which no ['&'] comes first or follows another one. *)
Theorem escape_title_isolated title :
  bstr_startswith title "&" = false → isolated title = true →
  escape_title title = double_ampersands title.
Proof. apply escape_title_doubles. Qed.

(** C7, at the failing inputs.  [escape_title] is meant to "escape & to &&
    for menu title", but the '&' a title starts with is dropped, and of
    several '&' in a row only one is doubled: [bstr_split] skips the
    separators its argument starts with.  Each result is set against the
    title with every '&' doubled. *)
Theorem escape_title_loses_ampersands :
  (escape_title "&a" = "a" ∧ double_ampersands "&a" = "&&a") ∧
  (escape_title "a&&b" = "a&&b" ∧ double_ampersands "a&&b" = "a&&&&b") ∧
  (escape_title "&" = "" ∧ double_ampersands "&" = "&&") ∧
  escape_title "a&b" = double_ampersands "a&b".
Proof. repeat split; reflexivity. Qed.

(* ===================================================================== *)
(** * The tree builder *)
(* ===================================================================== *)

Ltac munfold :=
  unfold run, modify_menus, get_count, get_menus, put_menus in *;
  unfold mbind, M_bind, mret, M_ret in *.

(** The row [append_menu] appends for the identifier [id]. *)
Definition new_item (id mask type state : Z) (title : option string)
    (submenu : option HMENU) (data : option string) : MENUITEM :=
  item_of (menu_item_info id mask type state title submenu data).

Definition separator_item (id : Z) : MENUITEM :=
  {| item_id := id; item_type := MFT_SEPARATOR; item_state := 0;
     item_text := None; item_submenu := None; item_data := None |}.

(** A row with a text and a bound command. *)
Definition command_item (id state : Z) (title data : string) : MENUITEM :=
  {| item_id := id; item_type := 0; item_state := state;
     item_text := Some title; item_submenu := None; item_data := Some data |}.

Definition submenu_item (id : Z) (title : string) (sub : HMENU) : MENUITEM :=
  {| item_id := id; item_type := 0; item_state := 0;
     item_text := Some title; item_submenu := Some sub; item_data := None |}.

Lemma new_item_separator id title sub data :
  new_item id MIIM_FTYPE MFT_SEPARATOR 0 title sub data = separator_item id.
Proof. reflexivity. Qed.

Lemma new_item_row id type state title sub data :
  new_item id ROW type state (Some title) sub (Some data)
  = command_item id 0 title data.
Proof. reflexivity. Qed.

Lemma new_item_state_row id type state title sub data :
  new_item id (Z.lor ROW MIIM_STATE) type state (Some title) sub (Some data)
  = command_item id state title data.
Proof. reflexivity. Qed.

Lemma new_item_submenu id type state title sub data :
  new_item id (Z.lor MIIM_STRING MIIM_SUBMENU) type state (Some title)
    (Some sub) data
  = submenu_item id title sub.
Proof. reflexivity. Qed.

Definition set_menus (ms : store) (w : world) : world :=
  {| menus := ms; next_id := next_id w; dyn_menus := dyn_menus w |}.

(** The world after one row was appended to [hmenu]. *)
Definition appended (hmenu : HMENU) (items : list MENUITEM) (it : MENUITEM)
    (w : world) : world :=
  {| menus := <[hmenu := (items ++ [it])%list]> (menus w);
     next_id := to_uint (next_id w + 1);
     dyn_menus := dyn_menus w |}.

Lemma append_menu_spec hmenu mask type state title sub data w items :
  menus w !! hmenu = Some items →
  append_menu hmenu mask type state title sub data w
  = (to_int (next_id w),
     appended hmenu items
       (new_item (next_id w) mask type state title sub data) w).
Proof.
  intros H. unfold append_menu, InsertMenuItemW. rewrite H. reflexivity.
Qed.

Lemma append_menu_invalid hmenu mask type state title sub data w :
  menus w !! hmenu = None →
  append_menu hmenu mask type state title sub data w
  = (-1, {| menus := menus w; next_id := to_uint (next_id w + 1);
            dyn_menus := dyn_menus w |}).
Proof.
  intros H. unfold append_menu, InsertMenuItemW. rewrite H. reflexivity.
Qed.

(* ===================================================================== *)
(** * [parse_menu]: the three parts of an annotation text *)
(* ===================================================================== *)

(** The values of [name], [comment] and [rest] after the first three
    statements of [parse_menu]. *)
Definition entry_name (text : bstr) : bstr :=
  bstr_strip (bstr_split (bstr_split text ">").1 "#").1.
Definition entry_comment (text : bstr) : bstr :=
  (bstr_split (bstr_split text ">").1 "#").2.
Definition entry_rest (text : bstr) : bstr := (bstr_split text ">").2.

Lemma is_seprarator_nonempty name uosc :
  is_seprarator name uosc = true → (len name =? 0)%nat = false.
Proof.
  destruct name as [|c name]; [destruct uosc; discriminate|reflexivity].
Qed.

(** A leaf entry whose name is a separator marker: one call of
    [append_seprator]. *)
Lemma parse_menu_separator fuel hmenu key cmd text uosc :
  (len (entry_rest text) =? 0)%nat = true →
  is_seprarator (entry_name text) uosc = true →
  parse_menu fuel hmenu key cmd text uosc
  = (_ ← append_seprator hmenu; mret tt).
Proof.
  unfold entry_rest, entry_name. intros Hrest Hsep.
  pose proof (is_seprarator_nonempty _ _ Hsep) as Hname.
  revert Hrest Hsep Hname.
  destruct fuel; cbn [parse_menu];
    destruct (bstr_split text ">") as [name rest]; cbn [fst snd];
    destruct (bstr_split name "#") as [name' comment]; cbn [fst snd];
    intros Hrest Hsep Hname; rewrite Hname, Hrest, Hsep; reflexivity.
Qed.



(** The world after [parse_menu] read a separator line. *)
Lemma parse_menu_separator_world fuel hmenu key cmd text uosc w items :
  (len (entry_rest text) =? 0)%nat = true →
  is_seprarator (entry_name text) uosc = true →
  menus w !! hmenu = Some items →
  run (parse_menu fuel hmenu key cmd text uosc) w
  = appended hmenu items (separator_item (next_id w)) w.
Proof.
  intros Hrest Hsep Hm.
  rewrite (parse_menu_separator _ _ _ _ _ _ Hrest Hsep).
  munfold. unfold append_seprator.
  rewrite (append_menu_spec _ _ _ _ _ _ _ _ _ Hm). reflexivity.
Qed.



(* ===================================================================== *)
(** * [append_submenu] *)
(* ===================================================================== *)

(** The world after a fresh submenu titled [title] was created under
    [hmenu]: a new empty menu at the end of the store, and one row that
    opens it. *)
Definition with_submenu (hmenu : HMENU) (items : list MENUITEM)
    (title : string) (w : world) : world :=
  {| menus := <[hmenu := (items ++
                  [submenu_item (next_id w) title (length (menus w))])%list]>
                (menus w ++ [[]])%list;
     next_id := to_uint (next_id w + 1);
     dyn_menus := dyn_menus w |}.

Lemma append_submenu_found hmenu title w items sub id :
  menus w !! hmenu = Some items →
  find_submenu_in items title = Some (sub, id) →
  append_submenu hmenu title w = ((sub, to_int id), w).
Proof.
  intros Hm Hf. unfold append_submenu, find_submenu. munfold.
  rewrite Hm. change (default [] (Some items)) with items. rewrite Hf. destruct w; reflexivity.
Qed.

Lemma append_submenu_new hmenu title w items :
  menus w !! hmenu = Some items →
  find_submenu_in items title = None →
  append_submenu hmenu title w
  = ((length (menus w), to_int (next_id w)), with_submenu hmenu items title w).
Proof.
  intros Hm Hf. unfold append_submenu, find_submenu. munfold.
  rewrite Hm. change (default [] (Some items)) with items. rewrite Hf. unfold CreatePopupMenu.
  destruct w as [ms id dyn]. cbn [menus next_id dyn_menus] in *.
  assert (Hm' : (ms ++ [[]])%list !! hmenu = Some items).
  { rewrite lookup_app_l; [exact Hm|by eapply lookup_lt_Some]. }
  erewrite append_menu_spec by exact Hm'. reflexivity.
Qed.

(** A branch entry (there is a [rest]) whose name carries a comment: one
    call of [append_submenu], no descent. *)
Lemma parse_menu_branch_comment fuel hmenu key cmd text uosc :
  (len (entry_name text) =? 0)%nat = false →
  (len (entry_rest text) =? 0)%nat = false →
  (len (entry_comment text) =? 0)%nat = false →
  parse_menu fuel hmenu key cmd text uosc
  = ('(submenu, _) ← append_submenu hmenu (escape_title (entry_name text));
     mret tt).
Proof.
  unfold entry_rest, entry_name, entry_comment.
  destruct fuel; cbn [parse_menu];
    destruct (bstr_split text ">") as [name rest]; cbn [fst snd];
    destruct (bstr_split name "#") as [name' comment]; cbn [fst snd];
    intros Hname Hrest Hcomment; rewrite Hname, Hrest, Hcomment; reflexivity.
Qed.

(** C9.  When the annotation text has a non-empty [rest] after the first
    ['>'] and the name before it carries a non-empty ['#'] comment,
    [parse_menu] does what [append_submenu] does for the name and nothing
    else, whatever [rest], the key and the command are: the registry is
    unchanged; a submenu of that title found under the menu leaves the
    world as it was; otherwise one empty menu is created and one row that
    opens it is appended. *)
Theorem branch_comment_stops fuel hmenu key cmd text uosc w items :
  (len (entry_name text) =? 0)%nat = false →
  (len (entry_rest text) =? 0)%nat = false →
  (len (entry_comment text) =? 0)%nat = false →
  menus w !! hmenu = Some items →
  let title := escape_title (entry_name text) in
  let w' := run (parse_menu fuel hmenu key cmd text uosc) w in
  w' = run (append_submenu hmenu title) w
  ∧ dyn_menus w' = dyn_menus w
  ∧ (∀ sub id, find_submenu_in items title = Some (sub, id) → w' = w)
  ∧ (find_submenu_in items title = None →
     w' = with_submenu hmenu items title w ∧
     menus w' !! length (menus w) = Some []).
Proof.
  intros Hname Hrest Hcomment Hm title w'. subst w'.
  rewrite (parse_menu_branch_comment _ _ _ _ _ _ Hname Hrest Hcomment).
  fold title. munfold.
  destruct (find_submenu_in items title) as [[sub id]|] eqn:Hf.
  - rewrite (append_submenu_found _ _ _ _ _ _ Hm Hf). cbn.
    repeat split; [done|discriminate].
  - rewrite (append_submenu_new _ _ _ _ Hm Hf). cbn [fst snd].
    repeat split; [discriminate|].
    unfold with_submenu. cbn [menus].
    rewrite list_lookup_insert_ne
      by (apply lookup_lt_Some in Hm; lia).
    rewrite lookup_app_r by lia. by rewrite Nat.sub_diag.
Qed.

Lemma branch_comment_stops_witness :
  let w := run (load_menu false None) world0 in
  let w' := run (parse_menu 9 0%nat "x" "cmd #menu: A #c > B" "A #c > B" false) w in
  w' = run (append_submenu 0%nat "A") w
  ∧ dyn_menus w' = dyn_menus w
  ∧ (∀ sub id, find_submenu_in [] "A" = Some (sub, id) → w' = w)
  ∧ (find_submenu_in [] "A" = None →
     w' = with_submenu 0%nat [] "A" w ∧ menus w' !! length (menus w) = Some []).
Proof.
  apply (branch_comment_stops 9 0%nat "x" "cmd #menu: A #c > B" "A #c > B"
           false (run (load_menu false None) world0) []); reflexivity.
Defined.

(* ===================================================================== *)
(** * The registry: [add_dyn_menu] *)
(* ===================================================================== *)

(** The world after [add_dyn_menu] registered the updater [u]. *)
Definition registered (hmenu : HMENU) (id : Z) (u : updater) (w : world)
  : world :=
  {| menus := menus w; next_id := next_id w;
     dyn_menus := (dyn_menus w ++
       [{| dyn_hmenu := hmenu; dyn_id := to_uint id; dyn_update := u |}])%list |}.

Lemma add_dyn_menu_from_unknown providers hmenu id keyword w :
  keyword ∉ providers.*1 →
  add_dyn_menu_from providers hmenu id keyword w = (false, w).
Proof.
  induction providers as [|[k u] providers IH]; intros Hk; [reflexivity|].
  cbn [add_dyn_menu_from fst]. rewrite fmap_cons, not_elem_of_cons in Hk.
  destruct Hk as [Hne Hk]. unfold bstr_equals0.
  destruct (String.eqb_spec keyword k) as [->|_]; [done|]. cbn [negb]. auto.
Qed.

Lemma add_dyn_menu_known hmenu id keyword u w :
  (keyword, u) ∈ dyn_providers →
  add_dyn_menu hmenu id keyword w = (true, registered hmenu id u w).
Proof.
  unfold dyn_providers. rewrite !elem_of_cons, elem_of_nil.
  intros H. repeat destruct H as [H|H]; try done; simplify_eq; reflexivity.
Qed.

(* ===================================================================== *)
(** * The provider keyword of a dynamic submenu *)
(* ===================================================================== *)

(** The keyword [parse_menu] passes to [add_dyn_menu] for the text [c]
    that follows the marker [#@]: cut at the next ['#'], white space
    dropped on the right. *)
Definition dyn_keyword (c : bstr) : bstr := bstr_rstrip (bstr_split c "#").1.

Fixpoint all_space (s : string) : bool :=
  match s with
  | EmptyString => true
  | String c s' => mp_isspace c && all_space s'
  end.

(** No character of [s] is a separator of [sep]. *)
Fixpoint free_of (sep : string) (s : string) : bool :=
  match s with
  | EmptyString => true
  | String c s' => negb (strchr sep c) && free_of sep s'
  end.

Lemma mp_isspace_cases c :
  mp_isspace c = true →
  c = " "%char ∨ c = "012"%char ∨ c = "010"%char ∨ c = "013"%char
  ∨ c = "009"%char ∨ c = "011"%char.
Proof.
  unfold mp_isspace, WHITESPACE, mem. rewrite !orb_true_iff, !Ascii.eqb_eq.
  intuition discriminate.
Qed.

Lemma space_not_hash c : mp_isspace c = true → strchr "#" c = false.
Proof.
  intros H. apply mp_isspace_cases in H.
  repeat destruct H as [H|H]; subst; reflexivity.
Qed.

Lemma all_space_free_of_hash ws : all_space ws = true → free_of "#" ws = true.
Proof.
  induction ws as [|c ws IH]; [done|]. cbn. rewrite !andb_true_iff.
  intros [Hc Hws]. by rewrite (space_not_hash _ Hc), IH.
Qed.

Lemma free_of_app sep a b :
  free_of sep (a ++ b) = free_of sep a && free_of sep b.
Proof.
  induction a as [|c a IH]; [done|]. cbn. by rewrite IH, andb_assoc.
Qed.

(** A text that ends before a separator (or at the end of the string) is
    the token [bstr_split] returns, when it is not empty. *)
Definition at_separator (sep tail : string) : Prop :=
  tail = "" ∨ ∃ c t, tail = String c t ∧ strchr sep c = true.

Lemma splice_cspn sep a tail :
  free_of sep a = true → at_separator sep tail →
  bstr_splice0 (a ++ tail) (bstrcspn (a ++ tail) sep) = a ∧
  bstr_cut (a ++ tail) (bstrcspn (a ++ tail) sep) = tail.
Proof.
  intros Ha Ht. induction a as [|c a IH].
  - cbn. destruct Ht as [->|(c & t & -> & Hc)]; [done|].
    cbn. by rewrite Hc.
  - cbn in Ha. apply andb_true_iff in Ha as [Hc Ha].
    apply negb_true_iff in Hc. cbn. rewrite Hc. cbn.
    destruct (IH Ha) as [-> ->]. done.
Qed.

Lemma bstr_split_token sep c a tail :
  free_of sep (String c a) = true → at_separator sep tail →
  bstr_split (String c a ++ tail) sep = (String c a, tail).
Proof.
  intros Ha Ht. unfold bstr_split.
  assert (Hs : skip_seps (String c a ++ tail) sep = (String c a ++ tail)%string).
  { cbn in Ha. apply andb_true_iff in Ha as [Hc _].
    apply negb_true_iff in Hc. cbn. by rewrite Hc. }
  rewrite Hs. by destruct (splice_cspn sep (String c a) tail Ha Ht) as [-> ->].
Qed.

Lemma rstrip_all_space ws : all_space ws = true → bstr_rstrip ws = "".
Proof.
  induction ws as [|c ws IH]; [done|]. cbn. intros H.
  apply andb_true_iff in H as [Hc Hws]. by rewrite (IH Hws), Hc.
Qed.

Lemma rstrip_app_space a ws :
  all_space ws = true → bstr_rstrip (a ++ ws) = bstr_rstrip a.
Proof.
  intros Hws. induction a as [|c a IH]; cbn.
  - by apply rstrip_all_space.
  - by rewrite IH.
Qed.

Lemma append_assoc (a b c : string) : ((a ++ b) ++ c = a ++ b ++ c)%string.
Proof. induction a as [|x a IH]; cbn; [done|by rewrite IH]. Qed.

(** Every keyword of the table survives the trimming: white space after
    it and a further ['#'] comment do not change it. *)
Lemma dyn_keyword_provider kw u ws tail :
  (kw, u) ∈ dyn_providers → all_space ws = true → at_separator "#" tail →
  dyn_keyword (kw ++ ws ++ tail) = kw.
Proof.
  intros Hkw Hws Ht. unfold dyn_keyword.
  assert (Hfree : free_of "#" (kw ++ ws) = true ∧ bstr_rstrip kw = kw
                  ∧ ∃ c a, kw = String c a).
  { rewrite free_of_app, (all_space_free_of_hash _ Hws).
    revert Hkw. unfold dyn_providers. rewrite !elem_of_cons, elem_of_nil.
    intros H. repeat destruct H as [H|H]; try done; simplify_eq;
      (split; [reflexivity|split; [reflexivity|eauto]]). }
  destruct Hfree as (Hfree & Hr & c & a & ->).
  rewrite <- append_assoc.
  change (String c a ++ ws)%string with (String c (a ++ ws)) in *.
  rewrite (bstr_split_token "#" c (a ++ ws) tail Hfree Ht). cbn [fst].
  change (String c (a ++ ws)) with (String c a ++ ws)%string.
  by rewrite (rstrip_app_space _ _ Hws).
Qed.

(** White space right after the marker stays in the keyword, which then
    is none of the table. *)
Lemma dyn_keyword_leading_space sp c' :
  mp_isspace sp = true →
  dyn_keyword (String sp c') ∉ dyn_providers.*1.
Proof.
  intros Hsp. unfold dyn_keyword, bstr_split.
  pose proof (space_not_hash _ Hsp) as Hh.
  cbn [skip_seps]. rewrite Hh. cbn [bstrcspn]. rewrite Hh.
  cbn [bstr_splice0 fst].
  set (t := bstr_splice0 c' (bstrcspn c' "#")).
  assert (Hr : bstr_rstrip (String sp t) = "" ∨
               ∃ r, bstr_rstrip (String sp t) = String sp r).
  { cbn [bstr_rstrip]. destruct (bstr_rstrip t); [rewrite Hsp|]; eauto. }
  apply mp_isspace_cases in Hsp.
  destruct Hr as [->|[r ->]]; cbn; rewrite !not_elem_of_cons;
    repeat destruct Hsp as [Hsp|Hsp]; subst;
    repeat split; try discriminate; apply not_elem_of_nil.
Qed.

(** A leaf entry whose comment starts with the dynamic marker. *)
Lemma parse_menu_dyn fuel hmenu key cmd text uosc c :
  (len (entry_name text) =? 0)%nat = false →
  (len (entry_rest text) =? 0)%nat = true →
  is_seprarator (entry_name text) uosc = false →
  bstr_eatstart0 (entry_comment text) MENU_PREFIX_DYN = Some c →
  parse_menu fuel hmenu key cmd text uosc
  = ('(submenu, id) ← append_submenu hmenu (escape_title (entry_name text));
     if (0 <? id) && (0 <? len c)%nat then
       _ ← add_dyn_menu submenu id (dyn_keyword c); mret tt
     else mret tt).
Proof.
  unfold entry_rest, entry_name, entry_comment, dyn_keyword.
  destruct fuel; cbn [parse_menu];
    destruct (bstr_split text ">") as [name rest]; cbn [fst snd];
    destruct (bstr_split name "#") as [name' comment]; cbn [fst snd];
    intros Hname Hrest Hsep Hc; rewrite Hname, Hrest, Hsep, Hc; reflexivity.
Qed.

(** The snapshot of the example: one subtitle track, selected, and a
    single chapter. *)
Definition example_state : mp_state :=
  {| vid := -1; aid := -1; sid := 5; sid2 := -1;
     track_list := Some [ {| track_id := 5; track_title := Some "English";
                             track_lang := None; track_type := "sub";
                             track_selected := true |} ];
     chapter := 0;
     chapter_list := Some [ {| chapter_title := Some "Intro";
                               chapter_time := 65.0%float |} ];
     edition := -1; edition_list := None;
     audio_device := "auto"; audio_device_list := None |}.

Definition example_ctx (uosc : bool) : plugin_ctx :=
  {| ctx_hmenu := 0%nat; ctx_state := example_state; ctx_uosc := uosc |}.

(** C1 as the specification states it fails: with a space between [#@]
    and the keyword nothing is registered, and the submenu stays empty
    when the menu opens. *)
Lemma dyn_keyword_space_counterexample :
  let w := run (load_menu true (Some "b #menu: Subtitles #@ tracks/sub")) world0 in
  dyn_menus w = [] ∧
  menus (run (dyn_menu_update (example_ctx true)) w)
  = [[submenu_item (WM_USER + 100) "Subtitles" 1]; []].
Proof. split; reflexivity. Qed.

(* ===================================================================== *)
(** * The rows of a dynamic submenu *)
(* ===================================================================== *)

(** The rows an updater produces are described apart from the identifiers
    they take: [rows_of u s] is the list of rows for the snapshot [s], every
    identifier 0, and [number] hands out the identifiers of the counter. *)

Definition set_id (id : Z) (it : MENUITEM) : MENUITEM :=
  {| item_id := id; item_type := item_type it; item_state := item_state it;
     item_text := item_text it; item_submenu := item_submenu it;
     item_data := item_data it |}.

Fixpoint number (id : Z) (rows : list MENUITEM) : list MENUITEM :=
  match rows with
  | [] => []
  | r :: rows' => set_id id r :: number (to_uint (id + 1)) rows'
  end.

(** The counter after [n] calls of [append_menu]. *)
Fixpoint advance (id : Z) (n : nat) : Z :=
  match n with
  | O => id
  | S n' => advance (to_uint (id + 1)) n'
  end.

(** The world after the rows [rows] were appended to [hmenu], one call of
    [append_menu] each (on a handle that is no menu only the counter
    moves). *)
Definition append_rows (hmenu : HMENU) (rows : list MENUITEM) (w : world)
  : world :=
  {| menus := alter (λ items, (items ++ number (next_id w) rows)%list) hmenu
                (menus w);
     next_id := advance (next_id w) (length rows);
     dyn_menus := dyn_menus w |}.

Definition track_item_row (type prop : string) (pos : Z)
    (entry : mp_track_item) : MENUITEM :=
  let fState := if track_selected entry then MFS_CHECKED else MFS_UNCHECKED in
  let fState :=
    if String.eqb type "sub" && track_selected entry
       && negb (pos =? track_id entry)
    then Z.lor fState MFS_DISABLED else fState in
  command_item 0 fState
    (format_title (bstr0 (track_title entry)) (bstr0 (track_lang entry)))
    ("set " ++ prop ++ " " ++ fmt_d (track_id entry)).

Definition off_row (prop : string) (pos : Z) : MENUITEM :=
  command_item 0 (if pos <? 0 then MFS_CHECKED else MFS_UNCHECKED)
    (escape_title "Off") ("set " ++ prop ++ " no").

(** The rows of the entries of kind [type], in the order of the list. *)
Fixpoint track_item_rows (type prop : string) (pos : Z)
    (entries : list mp_track_item) : list MENUITEM :=
  match entries with
  | [] => []
  | entry :: entries' =>
      if String.eqb (track_type entry) type
      then track_item_row type prop pos entry
             :: track_item_rows type prop pos entries'
      else track_item_rows type prop pos entries'
  end.

Definition track_rows (type prop : string) (pos : Z)
    (entries : list mp_track_item) : list MENUITEM :=
  match track_item_rows type prop pos entries with
  | [] => []
  | rows => (rows ++ [off_row prop pos])%list
  end.

Definition chapter_row (entry : mp_chapter_item) : MENUITEM :=
  command_item 0 0
    (format_title (bstr0 (chapter_title entry))
                  (chapter_stamp (chapter_time entry)))
    ("seek " ++ fmt_f (chapter_time entry) ++ " absolute").

Definition edition_row (entry : mp_edition_item) : MENUITEM :=
  command_item 0 0 (escape_title (bstr0 (edition_title entry)))
    ("set edition " ++ fmt_d (edition_id entry)).

Definition audio_device_title (entry : mp_audio_device) : string :=
  match device_desc entry with
  | Some desc => if (String.length desc =? 0)%nat then device_name entry
                 else desc
  | None => device_name entry
  end.

Definition audio_device_row (entry : mp_audio_device) : MENUITEM :=
  command_item 0 0 (escape_title (audio_device_title entry))
    ("set audio-device " ++ device_name entry).

(** The value of [pos] after a loop that sets it to the index of every
    entry that matches: the index of the last match, or the initial
    value. *)
Fixpoint last_match {A} (matches : A → bool) (i pos : Z) (entries : list A)
  : Z :=
  match entries with
  | [] => pos
  | entry :: entries' =>
      last_match matches (i + 1) (if matches entry then i else pos) entries'
  end.

(** The rows after [CheckMenuRadioItem (hmenu, 0, n, check, MF_BYPOSITION)],
    called when [0 <= check]. *)
Definition radio_rows (n check : Z) (rows : list MENUITEM) : list MENUITEM :=
  if 0 <=? check then imap (radio_row 0 n check) rows else rows.

Definition rows_of (u : updater) (s : mp_state) : list MENUITEM :=
  match u with
  | video_track => track_rows "video" "vid" (vid s) (default [] (track_list s))
  | audio_track => track_rows "audio" "aid" (aid s) (default [] (track_list s))
  | sub_track => track_rows "sub" "sid" (sid s) (default [] (track_list s))
  | sub_track2 =>
      track_rows "sub" "secondary-sid" (sid2 s) (default [] (track_list s))
  | chapters =>
      let entries := default [] (chapter_list s) in
      radio_rows (Z.of_nat (length entries)) (chapter s)
        (chapter_row <$> entries)
  | editions =>
      let entries := default [] (edition_list s) in
      radio_rows (Z.of_nat (length entries))
        (last_match (λ e, edition_id e =? edition s) 0 (-1) entries)
        (edition_row <$> entries)
  | audio_devices =>
      let entries := default [] (audio_device_list s) in
      radio_rows (Z.of_nat (length entries))
        (last_match (λ e, String.eqb (device_name e) (audio_device s)) 0 (-1)
           entries)
        (audio_device_row <$> entries)
  end.

Section Rows.

Lemma has_id_bit mask : has (Z.lor MIIM_ID mask) MIIM_ID = true.
Proof.
  unfold has. apply negb_true_iff, Z.eqb_neq. intros H.
  apply (f_equal (λ z, Z.testbit z 1)) in H.
  rewrite Z.land_spec, Z.lor_spec in H. discriminate.
Qed.

Lemma has_other_bit mask bit :
  Z.land MIIM_ID bit = 0 → has (Z.lor MIIM_ID mask) bit = has mask bit.
Proof.
  intros H. unfold has. by rewrite Z.land_lor_distr_l, H, Z.lor_0_l.
Qed.

Lemma new_item_set_id id mask type state title sub data :
  new_item id mask type state title sub data
  = set_id id (new_item 0 mask type state title sub data).
Proof.
  unfold new_item, item_of, menu_item_info, set_id.
  cbn [fMask wID item_id item_type item_state item_text item_submenu item_data].
  by rewrite has_id_bit.
Qed.

Lemma InsertMenuItemW_alter ms h mii :
  (InsertMenuItemW ms h mii).2
  = alter (λ items, (items ++ [item_of mii])%list) h ms.
Proof.
  unfold InsertMenuItemW. destruct (ms !! h) as [items|] eqn:Hm; cbn [snd].
  - apply list_eq. intros i. destruct (decide (i = h)) as [->|Hne].
    + rewrite list_lookup_insert_eq by (by eapply lookup_lt_Some).
      by rewrite list_lookup_alter_eq, Hm.
    + by rewrite list_lookup_insert_ne, list_lookup_alter_ne.
  - symmetry. apply list_eq. intros i.
    destruct (decide (i = h)) as [->|Hne].
    + by rewrite list_lookup_alter_eq, Hm.
    + by rewrite list_lookup_alter_ne.
Qed.

(** One call of [append_menu] appends one row. *)
Lemma append_menu_rows hmenu mask type state title sub data w :
  (append_menu hmenu mask type state title sub data w).2
  = append_rows hmenu [new_item 0 mask type state title sub data] w.
Proof.
  unfold append_menu, append_rows.
  pose proof (InsertMenuItemW_alter (menus w) hmenu
    (menu_item_info (next_id w) mask type state title sub data)) as H.
  destruct (InsertMenuItemW _ _ _) as [ok ms]. cbn [snd] in *. subst ms.
  cbn [number length advance]. f_equal.
  fold (new_item (next_id w) mask type state title sub data).
  by rewrite new_item_set_id.
Qed.

Lemma number_app id rows1 rows2 :
  number id (rows1 ++ rows2)
  = (number id rows1 ++ number (advance id (length rows1)) rows2)%list.
Proof.
  revert id. induction rows1 as [|r rows1 IH]; intros id; [done|].
  cbn. by rewrite IH.
Qed.

Lemma advance_add id n m : advance id (n + m) = advance (advance id n) m.
Proof. revert id. induction n as [|n IH]; intros id; cbn; [done|apply IH]. Qed.

Lemma length_number id rows : length (number id rows) = length rows.
Proof. revert id. induction rows as [|r rows IH]; intros id; cbn; auto. Qed.

Lemma append_rows_nil hmenu w : append_rows hmenu [] w = w.
Proof.
  unfold append_rows. destruct w as [ms id dyn]. cbn. f_equal.
  apply list_alter_id. intros items. apply app_nil_r.
Qed.

Lemma append_rows_app hmenu rows1 rows2 w :
  append_rows hmenu rows2 (append_rows hmenu rows1 w)
  = append_rows hmenu (rows1 ++ rows2) w.
Proof.
  unfold append_rows. cbn [menus next_id dyn_menus]. f_equal.
  - rewrite list_alter_alter_eq. apply list_alter_ext; [|done].
    intros items _. cbn. by rewrite number_app, app_assoc.
  - by rewrite length_app, advance_add.
Qed.

Lemma append_rows_cons hmenu r rows w :
  append_rows hmenu rows (append_rows hmenu [r] w)
  = append_rows hmenu (r :: rows) w.
Proof. by rewrite append_rows_app. Qed.

End Rows.

(* ===================================================================== *)
(** * The updaters append the rows of [rows_of] *)
(* ===================================================================== *)

Section Updaters.

Ltac step_append :=
  match goal with
  | |- context [append_menu ?h ?m ?t ?s ?title ?sub ?data ?w] =>
      let r := fresh "r" in let w' := fresh "w'" in let E := fresh "E" in
      destruct (append_menu h m t s title sub data w) as [r w'] eqn:E;
      apply (f_equal snd) in E; cbn [snd] in E;
      rewrite append_menu_rows in E; subst w'
  end.

Lemma track_loop_rows item type prop pos entries w :
  track_loop item type prop pos entries w
  = (tt, append_rows (dyn_hmenu item) (track_item_rows type prop pos entries) w).
Proof.
  revert w. induction entries as [|entry entries IH]; intros w.
  - cbn. by rewrite append_rows_nil.
  - cbn [track_loop track_item_rows]. munfold.
    destruct (String.eqb (track_type entry) type); cbn [negb].
    + step_append. rewrite IH, new_item_state_row.
      by rewrite append_rows_cons.
    + apply IH.
Qed.

Lemma chapter_loop_rows item entries w :
  chapter_loop item entries w
  = (tt, append_rows (dyn_hmenu item) (chapter_row <$> entries) w).
Proof.
  revert w. induction entries as [|entry entries IH]; intros w.
  - cbn. by rewrite append_rows_nil.
  - cbn [chapter_loop fmap list_fmap]. munfold. step_append.
    rewrite IH, new_item_row. by rewrite append_rows_cons.
Qed.

Lemma edition_loop_rows state item i pos entries w :
  edition_loop state item i pos entries w
  = (last_match (λ e, edition_id e =? edition state) i pos entries,
     append_rows (dyn_hmenu item) (edition_row <$> entries) w).
Proof.
  revert i pos w. induction entries as [|entry entries IH]; intros i pos w.
  - cbn. by rewrite append_rows_nil.
  - cbn [edition_loop fmap list_fmap last_match]. munfold. step_append.
    rewrite IH, new_item_row. by rewrite append_rows_cons.
Qed.

Lemma audio_device_loop_rows state item i pos entries w :
  audio_device_loop state item i pos entries w
  = (last_match (λ e, String.eqb (device_name e) (audio_device state)) i pos
       entries,
     append_rows (dyn_hmenu item) (audio_device_row <$> entries) w).
Proof.
  revert i pos w. induction entries as [|entry entries IH]; intros i pos w.
  - cbn. by rewrite append_rows_nil.
  - cbn [audio_device_loop fmap list_fmap last_match]. munfold. step_append.
    rewrite IH. fold (audio_device_title entry). rewrite new_item_row.
    by rewrite append_rows_cons.
Qed.

Lemma set_id_radio_row first last check pos id it :
  radio_row first last check pos (set_id id it)
  = set_id id (radio_row first last check pos it).
Proof.
  unfold radio_row. cbn [set_id item_type].
  repeat match goal with |- context [if ?b then _ else _] => destruct b end;
    reflexivity.
Qed.

Lemma imap_number (g : nat → MENUITEM → MENUITEM) id rows :
  (∀ p id it, g p (set_id id it) = set_id id (g p it)) →
  imap g (number id rows) = number id (imap g rows).
Proof.
  revert g id. induction rows as [|r rows IH]; intros g id Hg; [done|].
  cbn. rewrite Hg. f_equal. apply IH. intros p id' it. apply Hg.
Qed.

(** [CheckMenuRadioItem] on a menu that holds exactly the rows just
    appended. *)
Lemma radio_after_append hmenu n check rows w :
  menus w !! hmenu = Some [] →
  set_menus (CheckMenuRadioItem (menus (append_rows hmenu rows w)) hmenu 0 n
               check) (append_rows hmenu rows w)
  = append_rows hmenu (imap (radio_row 0 n check) rows) w.
Proof.
  intros Hm. unfold set_menus, CheckMenuRadioItem, append_rows.
  cbn [menus next_id dyn_menus]. f_equal.
  - rewrite list_alter_alter_eq. apply list_alter_ext; [|done].
    intros items Hi. rewrite Hm in Hi. injection Hi as <-. cbn.
    apply imap_number. intros. apply set_id_radio_row.
  - by rewrite length_imap.
Qed.

Lemma radio_update hmenu n check rows w :
  menus w !! hmenu = Some [] →
  (if 0 <=? check then
     modify_menus (λ ms, CheckMenuRadioItem ms hmenu 0 n check)
   else mret tt) (append_rows hmenu rows w)
  = (tt, append_rows hmenu (radio_rows n check rows) w).
Proof.
  intros Hm. unfold radio_rows. destruct (0 <=? check); [|done].
  munfold. f_equal. by apply radio_after_append.
Qed.

Lemma count_after_append hmenu rows w items :
  menus w !! hmenu = Some items →
  GetMenuItemCount (menus (append_rows hmenu rows w)) hmenu
  = Z.of_nat (length items + length rows).
Proof.
  intros Hm. unfold GetMenuItemCount, append_rows. cbn [menus].
  rewrite list_lookup_alter_eq, Hm. cbn.
  by rewrite length_app, length_number.
Qed.

Lemma update_track_menu_rows state item type prop pos w items :
  menus w !! dyn_hmenu item = Some items →
  update_track_menu state item type prop pos w
  = (tt, append_rows (dyn_hmenu item)
           (track_rows type prop pos (default [] (track_list state))) w).
Proof.
  intros Hm. unfold update_track_menu.
  destruct (track_list state) as [[|entry entries]|];
    try (cbn; by rewrite append_rows_nil).
  change (default [] (Some (entry :: entries))) with (entry :: entries).
  munfold. rewrite track_loop_rows.
  rewrite (count_after_append _ _ _ _ Hm).
  unfold GetMenuItemCount. rewrite Hm. unfold track_rows.
  destruct (track_item_rows type prop pos (entry :: entries)) as [|r rows].
  - replace (_ <? _) with false by (symmetry; apply Z.ltb_ge; cbn; lia).
    done.
  - replace (_ <? _) with true by (symmetry; apply Z.ltb_lt; cbn; lia).
    step_append. rewrite new_item_state_row. by rewrite append_rows_app.
Qed.

Lemma radio_rows_nil n check : radio_rows n check [] = [].
Proof. unfold radio_rows. by destruct (0 <=? check). Qed.

(** The call of the updater of an entry whose submenu is empty. *)
Lemma call_update_rows state item w :
  menus w !! dyn_hmenu item = Some [] →
  call_update state item w
  = (tt, append_rows (dyn_hmenu item) (rows_of (dyn_update item) state) w).
Proof.
  intros Hm. unfold call_update, rows_of.
  destruct (dyn_update item);
    try (by eapply update_track_menu_rows).
  - unfold update_chapter_menu.
    destruct (chapter_list state) as [[|entry entries]|];
      try (cbn [default from_option id fmap list_fmap];
           by rewrite radio_rows_nil, append_rows_nil).
    munfold. rewrite chapter_loop_rows.
    apply (radio_update _ _ _ _ _ Hm).
  - unfold update_edition_menu.
    destruct (edition_list state) as [[|entry entries]|];
      try (cbn [default from_option id fmap list_fmap];
           by rewrite radio_rows_nil, append_rows_nil).
    munfold. rewrite edition_loop_rows.
    apply (radio_update _ _ _ _ _ Hm).
  - unfold update_audio_device_menu.
    destruct (audio_device_list state) as [[|entry entries]|];
      try (cbn [default from_option id fmap list_fmap];
           by rewrite radio_rows_nil, append_rows_nil).
    munfold. rewrite audio_device_loop_rows.
    apply (radio_update _ _ _ _ _ Hm).
Qed.

End Updaters.

(* ===================================================================== *)
(** * The toolkit: search and state changes *)
(* ===================================================================== *)

Section Toolkit.

Lemma item_at_lookup ms h p :
  item_at ms (h, p) = default [] (ms !! h) !! p.
Proof. unfold item_at. cbn. by destruct (ms !! h). Qed.

(** What [scan_items] finds carries the identifier, provided what the
    descent finds does. *)
Lemma scan_items_sound search ms h id items pos fallback pre loc :
  (∀ sub loc, search sub = Some loc →
     ∃ it, item_at ms loc = Some it ∧ item_id it = id) →
  default [] (ms !! h) = (pre ++ items)%list → pos = length pre →
  (∀ loc, fallback = Some loc →
     ∃ it, item_at ms loc = Some it ∧ item_id it = id) →
  scan_items search h id items pos fallback = Some loc →
  ∃ it, item_at ms loc = Some it ∧ item_id it = id.
Proof.
  intros Hsearch. revert pos fallback pre.
  induction items as [|it items IH]; intros pos fallback pre Hh -> Hfb; cbn.
  - apply Hfb.
  - assert (Hit : item_at ms (h, length pre) = Some it).
    { rewrite item_at_lookup, Hh. by apply list_lookup_middle. }
    assert (Hnext : default [] (ms !! h) = ((pre ++ [it]) ++ items)%list)
      by (by rewrite <- app_assoc).
    assert (Hlen : S (length pre) = length (pre ++ [it]))
      by (rewrite length_app; cbn; lia).
    destruct (item_submenu it) as [sub|].
    + destruct (search sub) as [loc'|] eqn:Hs.
      * intros [= <-]. eauto.
      * apply (IH _ _ _ Hnext Hlen).
        destruct (Z.eqb_spec (item_id it) id) as [Hid|]; [|done].
        intros loc' [= <-]. eauto.
    + destruct (Z.eqb_spec (item_id it) id) as [Hid|].
      * intros [= <-]. eauto.
      * by apply (IH _ _ _ Hnext Hlen).
Qed.

Lemma find_item_sound fuel ms h id loc :
  find_item fuel ms h id = Some loc →
  ∃ it, item_at ms loc = Some it ∧ item_id it = id.
Proof.
  revert h loc. induction fuel as [|fuel IH]; intros h loc; [done|].
  cbn [find_item].
  apply (scan_items_sound _ ms h id _ 0%nat None []);
    [intros sub loc'; apply IH|done..].
Qed.

(** The search looks at identifiers and submenus only. *)
Definition same_links (a b : MENUITEM) : Prop :=
  item_id a = item_id b ∧ item_submenu a = item_submenu b.

Lemma scan_items_links search1 search2 h id items1 items2 pos fallback :
  (∀ sub, search1 sub = search2 sub) →
  Forall2 same_links items1 items2 →
  scan_items search1 h id items1 pos fallback
  = scan_items search2 h id items2 pos fallback.
Proof.
  intros Hs Hi. revert pos fallback.
  induction Hi as [|a b items1 items2 [Hid Hsub] _ IH]; intros pos fallback;
    [done|].
  cbn. rewrite <- Hid, <- Hsub.
  destruct (item_submenu a) as [sub|];
    [rewrite Hs; destruct (search2 sub)|]; try done;
    destruct (item_id a =? id); auto.
Qed.

Definition same_links_store (ms1 ms2 : store) : Prop :=
  ∀ h, Forall2 same_links (default [] (ms1 !! h)) (default [] (ms2 !! h)).

Lemma find_item_links fuel ms1 ms2 h id :
  same_links_store ms1 ms2 →
  find_item fuel ms1 h id = find_item fuel ms2 h id.
Proof.
  intros Hms. revert h. induction fuel as [|fuel IH]; intros h; [done|].
  cbn [find_item]. apply scan_items_links; [intros sub; apply IH|apply Hms].
Qed.

(** Bits: [EnableMenuItem] touches the two lowest bits of the state. *)
Lemma enable_bits_checked flags old :
  Z.land (enable_bits flags old) MFS_CHECKED = Z.land old MFS_CHECKED.
Proof.
  unfold enable_bits, MFS_CHECKED, MFS_DISABLED.
  apply Z.bits_inj'. intros n Hn.
  rewrite !Z.land_spec, Z.lor_spec, !Z.land_spec, Z.lnot_spec by done.
  change 8 with (2 ^ 3). rewrite Z.pow2_bits_eqb by lia.
  destruct (Z.eqb_spec 3 n) as [<-|]; [|by rewrite !andb_false_r].
  cbn. by rewrite !andb_true_r, andb_false_r, orb_false_r.
Qed.

Lemma enable_bits_disabled flags old :
  Z.land (enable_bits flags old) MFS_DISABLED = Z.land flags MFS_DISABLED.
Proof.
  unfold enable_bits, MFS_DISABLED.
  apply Z.bits_inj'. intros n Hn.
  rewrite !Z.land_spec, Z.lor_spec, !Z.land_spec, Z.lnot_spec by done.
  destruct (Z.testbit 3 n); cbn;
    rewrite ?andb_false_r, ?andb_true_r, ?orb_false_r; [|done].
  by destruct (Z.testbit flags n).
Qed.

Lemma is_checked_enable flags it :
  is_checked (set_state (enable_bits flags) it) = is_checked it.
Proof.
  unfold is_checked, has. cbn [set_state item_state].
  by rewrite enable_bits_checked.
Qed.

Lemma is_enabled_enable flags it :
  is_enabled (set_state (enable_bits flags) it)
  = (Z.land flags MFS_DISABLED =? 0).
Proof.
  unfold is_enabled, has. cbn [set_state item_state].
  by rewrite enable_bits_disabled, negb_involutive.
Qed.

(** [EnableMenuItem], row by row. *)
Lemma EnableMenuItem_item_at ms root id flags loc :
  item_at (EnableMenuItem ms root id flags) loc
  = (if decide (find_by_command ms root id = Some loc)
     then set_state (enable_bits flags) else λ it, it) <$> item_at ms loc.
Proof.
  unfold EnableMenuItem. destruct loc as [h p].
  destruct (find_by_command ms root id) as [[m pos]|] eqn:Hf.
  - rewrite !item_at_lookup.
    destruct (decide (m = h)) as [->|Hm].
    + rewrite list_lookup_alter_eq.
      destruct (ms !! h) as [items|] eqn:Hh; cbn [fmap option_fmap option_map from_option]; unfold Datatypes.id.
      * destruct (decide (pos = p)) as [->|Hp].
        -- rewrite list_lookup_alter_eq. by rewrite decide_True.
        -- rewrite list_lookup_alter_ne by done.
           rewrite decide_False by congruence.
           by destruct (items !! p).
      * rewrite lookup_nil. by destruct (decide _).
    + rewrite list_lookup_alter_ne by done.
      rewrite decide_False by congruence.
      by destruct (default [] (ms !! h) !! p).
  - rewrite decide_False by done. by destruct (item_at ms (h, p)).
Qed.

Lemma EnableMenuItem_length ms root id flags :
  length (EnableMenuItem ms root id flags) = length ms.
Proof.
  unfold EnableMenuItem. destruct (find_by_command ms root id) as [[m pos]|];
    [apply length_alter|done].
Qed.

Lemma EnableMenuItem_count ms root id flags h :
  length <$> EnableMenuItem ms root id flags !! h = length <$> ms !! h.
Proof.
  unfold EnableMenuItem. destruct (find_by_command ms root id) as [[m pos]|];
    [|done].
  destruct (decide (m = h)) as [->|Hm].
  - rewrite list_lookup_alter_eq. destruct (ms !! h); cbn; [|done].
    by rewrite length_alter.
  - by rewrite list_lookup_alter_ne.
Qed.

Lemma EnableMenuItem_links ms root id flags :
  same_links_store (EnableMenuItem ms root id flags) ms.
Proof.
  intros h. apply Forall2_same_length_lookup. split.
  - pose proof (EnableMenuItem_count ms root id flags h) as H.
    destruct (EnableMenuItem _ _ _ _ !! h), (ms !! h); cbn in *; congruence.
  - intros p a b Ha Hb. rewrite <- item_at_lookup in Ha, Hb.
    rewrite EnableMenuItem_item_at, Hb in Ha. cbn in Ha.
    destruct (decide _); injection Ha as <-; done.
Qed.

End Toolkit.

(* ===================================================================== *)
(** * One rebuild: the body of the loop of [dyn_menu_update] *)
(* ===================================================================== *)

Section Rebuild.

(** The world after the rows of [hmenu] were removed. *)
Definition cleared (hmenu : HMENU) (w : world) : world :=
  set_menus (<[hmenu := []]> (menus w)) w.

Lemma set_menus_id w : set_menus (menus w) w = w.
Proof. by destruct w. Qed.

(** The loop that clears a menu ends with the menu empty: its fuel, the
    number of rows, is enough. *)
Lemma clear_loop_spec hmenu items w :
  menus w !! hmenu = Some items →
  clear_loop (length items) hmenu w = (tt, cleared hmenu w).
Proof.
  revert w. induction items as [|it items IH]; intros w Hm.
  - cbn. unfold cleared. by rewrite list_insert_id, set_menus_id.
  - cbn [length clear_loop]. munfold. unfold GetMenuItemCount. rewrite Hm.
    replace (0 <? _) with true by (symmetry; apply Z.ltb_lt; cbn; lia).
    unfold RemoveMenu. rewrite Hm. cbn [delete list_delete].
    rewrite IH.
    + unfold cleared, set_menus. cbn [menus next_id dyn_menus].
      by rewrite list_insert_insert_eq.
    + cbn [menus]. apply list_lookup_insert_eq. by eapply lookup_lt_Some.
Qed.

Lemma clear_menu_spec hmenu items w :
  menus w !! hmenu = Some items →
  clear_menu hmenu w = (tt, cleared hmenu w).
Proof.
  intros Hm. unfold clear_menu. munfold. unfold GetMenuItemCount.
  rewrite Hm, Nat2Z.id. by apply clear_loop_spec.
Qed.

Lemma cleared_lookup hmenu items w :
  menus w !! hmenu = Some items → menus (cleared hmenu w) !! hmenu = Some [].
Proof.
  intros Hm. cbn. apply list_lookup_insert_eq. by eapply lookup_lt_Some.
Qed.

(** The flag [dyn_menu_update] passes to [EnableMenuItem]. *)
Definition enable_flag (rows : list MENUITEM) : Z :=
  match rows with [] => MF_GRAYED | _ => MF_ENABLED end.

(** The world after the rebuild of one entry: its submenu cleared, the
    rows of its updater appended, its parent row enabled or grayed. *)
Definition rebuilt (ctx : plugin_ctx) (item : dyn_entry) (w : world) : world :=
  let rows := rows_of (dyn_update item) (ctx_state ctx) in
  let w1 := append_rows (dyn_hmenu item) rows (cleared (dyn_hmenu item) w) in
  set_menus (EnableMenuItem (menus w1) (ctx_hmenu ctx) (dyn_id item)
               (enable_flag rows)) w1.

Lemma dyn_entry_update_spec ctx item w items :
  menus w !! dyn_hmenu item = Some items →
  dyn_entry_update ctx item w = (tt, rebuilt ctx item w).
Proof.
  intros Hm. unfold dyn_entry_update. munfold.
  rewrite (clear_menu_spec _ _ _ Hm).
  pose proof (cleared_lookup _ _ _ Hm) as Hc.
  rewrite (call_update_rows _ _ _ Hc).
  rewrite (count_after_append _ _ _ _ Hc). unfold rebuilt, set_menus.
  do 3 f_equal.
  destruct (rows_of (dyn_update item) (ctx_state ctx)); reflexivity.
Qed.

(** The rows of the submenu right after the rebuild, up to the bits
    [EnableMenuItem] may have changed. *)
Lemma rebuilt_lookup ctx item w items :
  menus w !! dyn_hmenu item = Some items →
  ∃ rows,
    menus (rebuilt ctx item w) !! dyn_hmenu item = Some rows ∧
    Forall2 (λ a b, b = a ∨ b = set_state
                       (enable_bits (enable_flag
                          (rows_of (dyn_update item) (ctx_state ctx)))) a)
      (number (next_id w) (rows_of (dyn_update item) (ctx_state ctx))) rows.
Proof.
  intros Hm. unfold rebuilt.
  set (rs := rows_of (dyn_update item) (ctx_state ctx)).
  set (w1 := append_rows (dyn_hmenu item) rs (cleared (dyn_hmenu item) w)).
  assert (H1 : menus w1 !! dyn_hmenu item = Some (number (next_id w) rs)).
  { unfold w1, append_rows. cbn [menus cleared set_menus next_id].
    rewrite list_lookup_alter_eq, list_lookup_insert_eq
      by (by eapply lookup_lt_Some). done. }
  cbn [set_menus menus].
  pose proof (EnableMenuItem_count (menus w1) (ctx_hmenu ctx) (dyn_id item)
                (enable_flag rs) (dyn_hmenu item)) as Hc.
  rewrite H1 in Hc.
  destruct (EnableMenuItem _ _ _ _ !! dyn_hmenu item) as [rows|] eqn:Hr;
    [|done].
  exists rows. split; [done|].
  apply Forall2_same_length_lookup. split; [by injection Hc|].
  intros p a b Ha Hb.
  assert (Hb' : item_at (EnableMenuItem (menus w1) (ctx_hmenu ctx)
                  (dyn_id item) (enable_flag rs)) (dyn_hmenu item, p) = Some b)
    by (by rewrite item_at_lookup, Hr).
  rewrite EnableMenuItem_item_at, item_at_lookup, H1 in Hb'.
  cbn [default from_option] in Hb'. unfold Datatypes.id in Hb'.
  rewrite Ha in Hb'. cbn in Hb'.
  destruct (decide _); injection Hb' as <-; auto.
Qed.

End Rebuild.

(* ===================================================================== *)
(** * Chapters *)
(* ===================================================================== *)

(** For a time that is not negative, C's division and remainder are the
    floor and the modulus. *)
Lemma chapter_stamp_floor time :
  0 ≤ int_of_double time →
  let t := int_of_double time in
  chapter_stamp time
  = ("[" ++ fmt_02d (t / 3600) ++ ":" ++ fmt_02d ((t / 60) mod 60) ++ ":"
         ++ fmt_02d (t mod 60) ++ "]")%string.
Proof.
  intros Ht t. unfold chapter_stamp. fold t.
  rewrite !Z.quot_div_nonneg, !Z.rem_mod_nonneg by (try apply Z.div_pos; lia).
  done.
Qed.

(** C8.  With the chapter list [(title = "Intro", time = 65.0)] and the
    current chapter 0, the rebuild of a chapter submenu leaves exactly one
    row in it: titled "Intro", a tab and "[00:01:05]", with the radio type
    and the check mark, bound to "seek 65.000000 absolute".  The stamp is
    made of [t / 3600], [t / 60 mod 60] and [t mod 60] for the integral
    part [t] of the time. *)
Theorem chapter_row_example ctx item w items :
  dyn_update item = chapters →
  chapter_list (ctx_state ctx)
    = Some [{| chapter_title := Some "Intro"; chapter_time := 65.0%float |}] →
  chapter (ctx_state ctx) = 0 →
  menus w !! dyn_hmenu item = Some items →
  menus (run (dyn_entry_update ctx item) w) !! dyn_hmenu item
  = Some [{| item_id := next_id w;
             item_type := MFT_RADIOCHECK;
             item_state := MFS_CHECKED;
             item_text := Some ("Intro" ++ String TAB "[00:01:05]")%string;
             item_submenu := None;
             item_data := Some "seek 65.000000 absolute" |}]
  ∧ int_of_double 65.0%float = 65
  ∧ (∀ time, 0 ≤ int_of_double time →
       let t := int_of_double time in
       chapter_stamp time
       = ("[" ++ fmt_02d (t / 3600) ++ ":" ++ fmt_02d ((t / 60) mod 60)
              ++ ":" ++ fmt_02d (t mod 60) ++ "]")%string).
Proof.
  intros Hu Hl Hc Hm. split; [|split; [reflexivity|apply chapter_stamp_floor]].
  unfold run. rewrite (dyn_entry_update_spec _ _ _ _ Hm). cbn [snd].
  destruct (rebuilt_lookup ctx item w items Hm) as (rows & -> & Hrows).
  revert Hrows. rewrite Hu. unfold rows_of. rewrite Hl, Hc.
  intros Hrows. f_equal.
  apply Forall2_cons_inv_l in Hrows as (b & rows' & Hb & Hnil & ->).
  apply Forall2_nil_inv_l in Hnil as ->.
  destruct Hb as [->| ->]; reflexivity.
Qed.

Lemma chapter_row_example_witness :
  let w := run (load_menu false (Some "c #menu: Chapters #@chapters")) world0 in
  menus (run (dyn_entry_update (example_ctx false)
                {| dyn_hmenu := 1; dyn_id := WM_USER + 100;
                   dyn_update := chapters |}) w) !! 1%nat
  = Some [{| item_id := WM_USER + 101;
             item_type := MFT_RADIOCHECK;
             item_state := MFS_CHECKED;
             item_text := Some ("Intro" ++ String TAB "[00:01:05]")%string;
             item_submenu := None;
             item_data := Some "seek 65.000000 absolute" |}].
Proof.
  apply (chapter_row_example (example_ctx false)
           {| dyn_hmenu := 1; dyn_id := WM_USER + 100; dyn_update := chapters |}
           (run (load_menu false (Some "c #menu: Chapters #@chapters")) world0)
           []); reflexivity.
Defined.

(* ===================================================================== *)
(** * Radio marks *)
(* ===================================================================== *)

Section Radio.

(** The positions of the rows that carry the check mark. *)
Fixpoint checked_positions_from (i : nat) (rows : list MENUITEM) : list nat :=
  match rows with
  | [] => []
  | r :: rows' =>
      if is_checked r then i :: checked_positions_from (S i) rows'
      else checked_positions_from (S i) rows'
  end.

Definition checked_positions (rows : list MENUITEM) : list nat :=
  checked_positions_from 0 rows.

(** A row as the chapter, edition and audio device updaters append it:
    no separator, no check mark. *)
Definition plain_row (r : MENUITEM) : Prop :=
  item_type r = 0 ∧ is_checked r = false.

Lemma checked_positions_plain k rows :
  Forall plain_row rows → checked_positions_from k rows = [].
Proof.
  intros H. revert k. induction H as [|r rows [_ Hr] _ IH]; intros k; [done|].
  cbn. by rewrite Hr.
Qed.

Lemma checked_positions_same k rows1 rows2 :
  Forall2 (λ a b, is_checked a = is_checked b) rows1 rows2 →
  checked_positions_from k rows1 = checked_positions_from k rows2.
Proof.
  intros H. revert k. induction H as [|a b rows1 rows2 Hab _ IH]; intros k;
    [done|].
  cbn. by rewrite Hab, IH.
Qed.

Lemma is_checked_marked type_fn it :
  is_checked (set_type_state type_fn (λ s, Z.lor s MFS_CHECKED) it) = true.
Proof.
  unfold is_checked, has. cbn [set_type_state item_state].
  apply negb_true_iff, Z.eqb_neq. intros H.
  apply (f_equal (λ z, Z.testbit z 3)) in H.
  rewrite Z.land_spec, Z.lor_spec, orb_true_r in H. discriminate.
Qed.

Lemma is_checked_cleared it :
  is_checked (set_state (λ s, Z.land s (Z.lnot MFS_CHECKED)) it) = false.
Proof.
  unfold is_checked, has. cbn [set_state item_state].
  apply negb_false_iff, Z.eqb_eq. rewrite <- Z.land_assoc.
  replace (Z.land (Z.lnot MFS_CHECKED) MFS_CHECKED) with 0 by reflexivity.
  apply Z.land_0_r.
Qed.

(** [CheckMenuRadioItem] over rows that all lie in the range: the row at
    [check], if there is one, is the only one with the check mark. *)
Lemma checked_imap_radio n check k rows :
  Forall plain_row rows →
  Z.of_nat k + Z.of_nat (length rows) ≤ n + 1 →
  checked_positions_from k
    (imap (λ p, radio_row 0 n check (k + p)%nat) rows)
  = if (Z.of_nat k <=? check) && (check <? Z.of_nat k + Z.of_nat (length rows))
    then [Z.to_nat check] else [].
Proof.
  intros H. revert k. induction H as [|r rows [Ht Hr] _ IH]; intros k Hn.
  - cbn. destruct (Z.of_nat k <=? check) eqn:E1; [|done].
    cbn. replace (check <? _) with false; [done|].
    symmetry. apply Z.ltb_ge. apply Z.leb_le in E1. lia.
  - cbn [imap checked_positions_from length] in *.
    assert (Hext : imap ((λ p, radio_row 0 n check (k + p)%nat) ∘ S) rows
                   = imap (λ p, radio_row 0 n check (S k + p)%nat) rows).
    { apply imap_ext. intros i x _. cbn. f_equal. lia. }
    rewrite Hext, IH by lia. clear Hext IH.
    unfold radio_row at 1. rewrite Ht, Nat.add_0_r.
    replace ((0 <=? Z.of_nat k) && (Z.of_nat k <=? n)) with true
      by (symmetry; apply andb_true_iff; split; apply Z.leb_le; lia).
    cbn [andb negb Z.eqb MFT_SEPARATOR].
    change (negb (0 =? MFT_SEPARATOR)) with true. cbn [andb].
    destruct (Z.eqb_spec (Z.of_nat k) check) as [<-|Hne].
    + rewrite is_checked_marked, Nat2Z.id.
      replace (Z.of_nat (S k) <=? Z.of_nat k) with false
        by (symmetry; apply Z.leb_gt; lia).
      replace (Z.of_nat k <=? Z.of_nat k) with true
        by (symmetry; apply Z.leb_le; lia).
      cbn [andb].
      replace (Z.of_nat k <? Z.of_nat k + Z.of_nat (S (length rows)))
        with true by (symmetry; apply Z.ltb_lt; lia).
      done.
    + rewrite is_checked_cleared.
      replace (Z.of_nat (S k) <=? check) with (Z.of_nat k <=? check)
        by (apply eq_true_iff_eq; rewrite !Z.leb_le; lia).
      replace (check <? Z.of_nat (S k) + Z.of_nat (length rows))
        with (check <? Z.of_nat k + Z.of_nat (S (length rows)))
        by (apply eq_true_iff_eq; rewrite !Z.ltb_lt; lia).
      done.
Qed.

Lemma checked_radio_rows check rows :
  Forall plain_row rows →
  checked_positions (radio_rows (Z.of_nat (length rows)) check rows)
  = if (0 <=? check) && (check <? Z.of_nat (length rows))
    then [Z.to_nat check] else [].
Proof.
  intros H. unfold radio_rows, checked_positions.
  destruct (0 <=? check) eqn:E; [|by apply checked_positions_plain].
  pose proof (checked_imap_radio (Z.of_nat (length rows)) check 0 rows H) as Hi.
  change (Z.of_nat 0) with 0 in Hi. rewrite Z.add_0_l, E in Hi.
  apply Hi. lia.
Qed.

(** The result of a loop that records the index of each matching entry. *)
Lemma last_match_spec {A} (matches : A → bool) i pos entries :
  let r := last_match matches i pos entries in
  (r = pos ∧ Forall (λ e, matches e = false) entries)
  ∨ (∃ p e, entries !! p = Some e ∧ matches e = true ∧ r = i + Z.of_nat p).
Proof.
  revert i pos. induction entries as [|e entries IH]; intros i pos; cbn.
  - left. eauto.
  - destruct (IH (i + 1) (if matches e then i else pos))
      as [[Hr Hall]|(p & e' & Hp & He & Hr)].
    + destruct (matches e) eqn:Hm.
      * right. exists 0%nat, e. cbn. repeat split; [done|]. lia.
      * left. eauto.
    + right. exists (S p), e'. cbn. repeat split; [done..|]. lia.
Qed.

End Radio.

Section RadioSelection.

Lemma is_checked_set_id id it : is_checked (set_id id it) = is_checked it.
Proof. done. Qed.

Lemma number_checked id rows :
  Forall2 (λ a b, is_checked a = is_checked b) (number id rows) rows.
Proof.
  revert id. induction rows as [|r rows IH]; intros id; cbn; constructor; auto.
Qed.

Lemma length_radio_rows n check rows :
  length (radio_rows n check rows) = length rows.
Proof. unfold radio_rows. destruct (0 <=? check); [apply length_imap|done]. Qed.

(** After the rebuild the submenu has as many rows as [rows_of] gives,
    with the same check marks. *)
Lemma rebuilt_checked ctx item w items :
  menus w !! dyn_hmenu item = Some items →
  let rows0 := rows_of (dyn_update item) (ctx_state ctx) in
  let rows := default [] (menus (run (dyn_entry_update ctx item) w)
                            !! dyn_hmenu item) in
  length rows = length rows0 ∧ checked_positions rows = checked_positions rows0.
Proof.
  intros Hm rows0 rows. subst rows. unfold run.
  rewrite (dyn_entry_update_spec _ _ _ _ Hm). cbn [snd].
  destruct (rebuilt_lookup ctx item w items Hm) as (rows & -> & Hrows).
  fold rows0 in Hrows. cbn [default from_option]. unfold Datatypes.id. split.
  - apply Forall2_length in Hrows. by rewrite length_number in Hrows.
  - unfold checked_positions.
    rewrite <- (checked_positions_same 0 _ _ (number_checked (next_id w) rows0)).
    symmetry. apply checked_positions_same.
    eapply Forall2_impl; [exact Hrows|]. cbn.
    intros a b [->| ->]; [done|]. by rewrite is_checked_enable.
Qed.

(** The rows of a list of entries, radio-marked at the index the loop
    recorded. *)
Lemma radio_last_match {A} (matches : A → bool) (row : A → MENUITEM) entries :
  (∀ e, plain_row (row e)) →
  let rows := radio_rows (Z.of_nat (length entries))
                (last_match matches 0 (-1) entries) (row <$> entries) in
  ((∃ e, e ∈ entries ∧ matches e = true) →
     ∃ p e, entries !! p = Some e ∧ matches e = true
            ∧ checked_positions rows = [p])
  ∧ ((∀ e, e ∈ entries → matches e = false) → checked_positions rows = []).
Proof.
  intros Hrow rows. subst rows.
  assert (Hplain : Forall plain_row (row <$> entries)).
  { apply Forall_fmap, Forall_forall. intros e _. apply Hrow. }
  pose proof (checked_radio_rows (last_match matches 0 (-1) entries) _ Hplain)
    as Hc.
  rewrite length_fmap in Hc. rewrite Hc. clear Hc.
  destruct (last_match_spec matches 0 (-1) entries)
    as [[-> Hall]|(p & e & Hp & He & ->)].
  - split; [|done]. intros (e & He & Hm).
    rewrite Forall_forall in Hall. rewrite (Hall e He) in Hm. discriminate.
  - pose proof (lookup_lt_Some _ _ _ Hp) as Hlt.
    replace (0 <=? 0 + Z.of_nat p) with true
      by (symmetry; apply Z.leb_le; lia).
    replace (0 + Z.of_nat p <? Z.of_nat (length entries)) with true
      by (symmetry; apply Z.ltb_lt; lia).
    cbn [andb]. rewrite Z.add_0_l, Nat2Z.id. split.
    + intros _. eauto.
    + intros Hall. apply list_elem_of_lookup_2 in Hp.
      rewrite (Hall e Hp) in He. discriminate.
Qed.

(** C4.  After the rebuild of a chapter, edition or audio device submenu
    the rows correspond to the entries of the list, position by position.
    Chapters: the row at the current chapter index carries the only check
    mark when the index lies in [0, number of chapters), and no row is
    marked otherwise.  Editions and audio devices: when an entry has the
    current edition id (the current device name), exactly one row is
    marked, at the position of such an entry; when none has, no row is
    marked. *)
Theorem radio_selection ctx item w items :
  menus w !! dyn_hmenu item = Some items →
  let s := ctx_state ctx in
  let rows := default [] (menus (run (dyn_entry_update ctx item) w)
                            !! dyn_hmenu item) in
  (dyn_update item = chapters →
     let entries := default [] (chapter_list s) in
     length rows = length entries
     ∧ (0 ≤ chapter s < Z.of_nat (length entries) →
        checked_positions rows = [Z.to_nat (chapter s)])
     ∧ (¬ (0 ≤ chapter s < Z.of_nat (length entries)) →
        checked_positions rows = []))
  ∧ (dyn_update item = editions →
     let entries := default [] (edition_list s) in
     length rows = length entries
     ∧ ((∃ e, e ∈ entries ∧ edition_id e = edition s) →
        ∃ p e, entries !! p = Some e ∧ edition_id e = edition s
               ∧ checked_positions rows = [p])
     ∧ ((∀ e, e ∈ entries → edition_id e ≠ edition s) →
        checked_positions rows = []))
  ∧ (dyn_update item = audio_devices →
     let entries := default [] (audio_device_list s) in
     length rows = length entries
     ∧ ((∃ e, e ∈ entries ∧ device_name e = audio_device s) →
        ∃ p e, entries !! p = Some e ∧ device_name e = audio_device s
               ∧ checked_positions rows = [p])
     ∧ ((∀ e, e ∈ entries → device_name e ≠ audio_device s) →
        checked_positions rows = [])).
Proof.
  intros Hm s rows.
  destruct (rebuilt_checked ctx item w items Hm) as [Hlen Hchk].
  fold rows in Hlen, Hchk. fold s in Hlen, Hchk.
  split; [|split]; intros Hu entries; rewrite Hlen, Hchk, Hu; unfold rows_of;
    fold entries; rewrite length_radio_rows, length_fmap; (split; [done|]).
  - assert (Hplain : Forall plain_row (chapter_row <$> entries))
      by (apply Forall_fmap, Forall_forall; intros e _; by split).
    pose proof (checked_radio_rows (chapter s) _ Hplain) as Hc.
    rewrite length_fmap in Hc. rewrite Hc. split.
    + intros [H0 H1].
      replace (0 <=? chapter s) with true by (symmetry; by apply Z.leb_le).
      by replace (chapter s <? _) with true by (symmetry; by apply Z.ltb_lt).
    + intros Hn. destruct (Z.leb_spec 0 (chapter s)); [|done].
      destruct (Z.ltb_spec (chapter s) (Z.of_nat (length entries))); [|done].
      lia.
  - destruct (radio_last_match (λ e, edition_id e =? edition s) edition_row
                entries) as [H1 H2]; [by split|].
    split.
    + intros (e & He & Hid).
      destruct H1 as (p & e' & Hp & He' & Hc).
      { exists e. split; [done|]. by apply Z.eqb_eq. }
      exists p, e'. by rewrite Z.eqb_eq in He'.
    + intros Hall. apply H2. intros e He. apply Z.eqb_neq. auto.
  - destruct (radio_last_match
                (λ e, String.eqb (device_name e) (audio_device s))
                audio_device_row entries) as [H1 H2]; [by split|].
    split.
    + intros (e & He & Hid).
      destruct H1 as (p & e' & Hp & He' & Hc).
      { exists e. split; [done|]. by apply String.eqb_eq. }
      exists p, e'. by rewrite String.eqb_eq in He'.
    + intros Hall. apply H2. intros e He. apply String.eqb_neq. auto.
Qed.

Lemma radio_selection_witness :
  let w := run (load_menu false (Some "c #menu: Chapters #@chapters")) world0 in
  let item := {| dyn_hmenu := 1; dyn_id := WM_USER + 100;
                 dyn_update := chapters |} in
  let rows := default [] (menus (run (dyn_entry_update (example_ctx false) item) w)
                            !! 1%nat) in
  length rows = 1%nat ∧ checked_positions rows = [0%nat].
Proof.
  intros w item rows.
  destruct (radio_selection (example_ctx false) item w [] eq_refl)
    as [H _].
  destruct (H eq_refl) as (Hlen & Hc & _).
  split; [exact Hlen|]. apply Hc. cbn. lia.
Defined.

End RadioSelection.

(* ===================================================================== *)
(** * Leaf items and the command they dispatch *)
(* ===================================================================== *)

Section Leaf.

(** Two rows that differ in their state at most. *)
Definition same_but_state (a b : MENUITEM) : Prop :=
  item_id a = item_id b ∧ item_type a = item_type b
  ∧ item_text a = item_text b ∧ item_submenu a = item_submenu b
  ∧ item_data a = item_data b.

Definition state_changed (ms ms' : store) : Prop :=
  length ms' = length ms
  ∧ ∀ h, Forall2 same_but_state (default [] (ms !! h)) (default [] (ms' !! h)).

Lemma same_but_state_refl a : same_but_state a a.
Proof. by repeat split. Qed.

Lemma state_changed_refl ms : state_changed ms ms.
Proof.
  split; [done|]. intros h. apply Forall_Forall2_diag, Forall_forall.
  intros a _. apply same_but_state_refl.
Qed.

Lemma EnableMenuItem_state_changed ms root id flags :
  state_changed ms (EnableMenuItem ms root id flags).
Proof.
  split; [apply EnableMenuItem_length|]. intros h.
  apply Forall2_same_length_lookup. split.
  - pose proof (EnableMenuItem_count ms root id flags h) as H.
    destruct (EnableMenuItem _ _ _ _ !! h), (ms !! h); cbn in *; congruence.
  - intros p a b Ha Hb. rewrite <- item_at_lookup in Ha, Hb.
    rewrite EnableMenuItem_item_at, Ha in Hb. cbn in Hb.
    destruct (decide _); injection Hb as <-; by repeat split.
Qed.

Lemma state_changed_links ms ms' :
  state_changed ms ms' → same_links_store ms ms'.
Proof.
  intros [_ H] h. eapply Forall2_impl; [apply H|].
  intros a b (Hid & _ & _ & Hsub & _). by split.
Qed.

Lemma state_changed_find ms ms' root id :
  state_changed ms ms' →
  find_by_command ms' root id = find_by_command ms root id.
Proof.
  intros H. unfold find_by_command. rewrite (proj1 H).
  symmetry. by apply find_item_links, state_changed_links.
Qed.

(** A leaf row with the identifier, at the end of the menu that is
    searched, makes the search succeed. *)
Lemma scan_items_last search h id items it pos fallback :
  item_submenu it = None → item_id it = id →
  is_Some (scan_items search h id (items ++ [it]) pos fallback).
Proof.
  intros Hsub Hid. revert pos fallback.
  induction items as [|x items IH]; intros pos fallback; cbn.
  - rewrite Hsub, Hid, Z.eqb_refl. eauto.
  - destruct (item_submenu x); [destruct (search _)|]; eauto.
    destruct (item_id x =? id); eauto.
Qed.

(** No row of the world carries the identifier the counter holds. *)
Definition fresh_counter (w : world) : Prop :=
  ∀ loc it, item_at (menus w) loc = Some it → item_id it ≠ next_id w.

(** A leaf entry that is neither a separator nor a dynamic submenu. *)
Lemma parse_menu_leaf fuel hmenu key cmd text uosc :
  (len (entry_name text) =? 0)%nat = false →
  (len (entry_rest text) =? 0)%nat = true →
  is_seprarator (entry_name text) uosc = false →
  bstr_eatstart0 (entry_comment text) MENU_PREFIX_DYN = None →
  parse_menu fuel hmenu key cmd text uosc
  = (id ← append_menu hmenu ROW 0 0
            (Some (format_title (entry_name text) key)) None (Some cmd);
     if (0 <? id) && ((len cmd =? 0)%nat || bstr_startswith0 cmd "#") then
       modify_menus (λ ms, EnableMenuItem ms hmenu id
                             (Z.lor MF_BYCOMMAND MF_GRAYED))
     else mret tt).
Proof.
  unfold entry_rest, entry_name, entry_comment.
  destruct fuel; cbn [parse_menu];
    destruct (bstr_split text ">") as [name rest]; cbn [fst snd];
    destruct (bstr_split name "#") as [name' comment]; cbn [fst snd];
    intros Hname Hrest Hsep Hc; rewrite Hname, Hrest, Hsep, Hc; reflexivity.
Qed.

(** The world after [parse_menu] made a leaf item: one row appended, and
    then at most a change of state. *)
Lemma parse_menu_leaf_world fuel hmenu key cmd text uosc w items :
  (len (entry_name text) =? 0)%nat = false →
  (len (entry_rest text) =? 0)%nat = true →
  is_seprarator (entry_name text) uosc = false →
  bstr_eatstart0 (entry_comment text) MENU_PREFIX_DYN = None →
  menus w !! hmenu = Some items →
  let w1 := appended hmenu items
              (command_item (next_id w) 0
                 (format_title (entry_name text) key) cmd) w in
  let w' := run (parse_menu fuel hmenu key cmd text uosc) w in
  state_changed (menus w1) (menus w')
  ∧ next_id w' = next_id w1 ∧ dyn_menus w' = dyn_menus w.
Proof.
  intros Hname Hrest Hsep Hc Hm w1 w'. subst w'.
  rewrite (parse_menu_leaf _ _ _ _ _ _ Hname Hrest Hsep Hc).
  munfold. rewrite (append_menu_spec _ _ _ _ _ _ _ _ _ Hm).
  rewrite new_item_row. fold w1.
  destruct ((0 <? to_int (next_id w)) && _); cbn [snd].
  - cbn [menus next_id dyn_menus]. split; [|done].
    apply EnableMenuItem_state_changed.
  - split; [apply state_changed_refl|done].
Qed.

End Leaf.

Section Dispatch.

Lemma split_menu_marker cmd uosc left_ right_ :
  split_menu cmd uosc = Some (left_, right_) →
  is_Some (bstr_find cmd MENU_PREFIX) ∨ is_Some (bstr_find cmd MENU_PREFIX_UOSC).
Proof.
  unfold split_menu, bstr_split_tok.
  destruct (len cmd =? 0)%nat; [done|].
  destruct (bstr_find cmd MENU_PREFIX); [eauto|].
  destruct uosc; [|done].
  destruct (bstr_find cmd MENU_PREFIX_UOSC); [eauto|done].
Qed.

(** The search for the identifier of the row just appended ends at that
    row, when no other row carries the identifier. *)
Lemma find_appended ms hmenu items it id :
  ms !! hmenu = Some items →
  item_submenu it = None → item_id it = id →
  (∀ loc x, item_at ms loc = Some x → item_id x ≠ id) →
  find_by_command (<[hmenu := (items ++ [it])%list]> ms) hmenu id
  = Some (hmenu, length items).
Proof.
  intros Hm Hsub Hid Hfresh.
  set (ms1 := <[hmenu := (items ++ [it])%list]> ms).
  assert (Hlt : (hmenu < length ms)%nat) by (by eapply lookup_lt_Some).
  assert (H1 : ms1 !! hmenu = Some (items ++ [it])%list)
    by (by apply list_lookup_insert_eq).
  assert (Hsome : is_Some (find_by_command ms1 hmenu id)).
  { unfold find_by_command. destruct (length ms1) as [|fuel] eqn:Hl.
    - unfold ms1 in Hl. rewrite length_insert in Hl. lia.
    - cbn [find_item]. rewrite H1. by apply scan_items_last. }
  destruct Hsome as [[h p] Hf]. rewrite Hf. f_equal.
  destruct (find_item_sound _ _ _ _ _ Hf) as (x & Hx & Hxid).
  rewrite item_at_lookup in Hx.
  destruct (decide (h = hmenu)) as [->|Hne].
  - rewrite H1 in Hx. cbn in Hx.
    destruct (decide (p < length items)%nat) as [Hp|Hp].
    + rewrite lookup_app_l in Hx by done. exfalso.
      apply (Hfresh (hmenu, p) x); [|done].
      by rewrite item_at_lookup, Hm.
    + apply lookup_lt_Some in Hx as Hlen. rewrite length_app in Hlen.
      cbn in Hlen. f_equal. lia.
  - unfold ms1 in Hx. rewrite list_lookup_insert_ne in Hx by done.
    exfalso. apply (Hfresh (h, p) x); [|done]. by rewrite item_at_lookup.
Qed.

End Dispatch.

(* ===================================================================== *)
(** * The counter of identifiers *)
(* ===================================================================== *)

Section Counter.

Lemma to_uint_small x : 0 ≤ x < UINT_MOD → to_uint x = x.
Proof. intros H. unfold to_uint. by apply Z.mod_small. Qed.

Lemma to_uint_to_int x : 0 ≤ x < UINT_MOD → to_uint (to_int x) = x.
Proof.
  intros H. unfold to_int. rewrite (to_uint_small x H).
  destruct (x <? 2 ^ 31); [by apply to_uint_small|].
  unfold to_uint, UINT_MOD in *.
  rewrite <- (Z.mod_add _ 1) by lia. rewrite Z.mod_small; lia.
Qed.

(** While the counter does not wrap around, [n] calls of [append_menu]
    add [n] to it. *)
Lemma advance_nowrap id n :
  0 ≤ id → id + Z.of_nat n < UINT_MOD → advance id n = id + Z.of_nat n.
Proof.
  revert id. induction n as [|n IH]; intros id H0 H1; cbn [advance]; [lia|].
  rewrite to_uint_small by lia. rewrite IH; lia.
Qed.

Lemma number_lookup id rows p :
  0 ≤ id → id + Z.of_nat (length rows) ≤ UINT_MOD →
  number id rows !! p = set_id (id + Z.of_nat p) <$> rows !! p.
Proof.
  revert id p. induction rows as [|r rows IH]; intros id p H0 H1; [done|].
  cbn [number length] in *. destruct p as [|p]; cbn.
  - by rewrite Z.add_0_r.
  - destruct rows as [|r' rows]; [done|].
    cbn [length] in H1. rewrite to_uint_small by lia.
    rewrite IH by (cbn [length]; lia).
    do 2 f_equal. lia.
Qed.

End Counter.

(* ===================================================================== *)
(** * The rows of [rows_of] are leaves *)
(* ===================================================================== *)

Section RowsOf.

Definition leaf_row (r : MENUITEM) : Prop := item_submenu r = None.

Lemma radio_row_leaf first last check p r :
  leaf_row r → leaf_row (radio_row first last check p r).
Proof.
  unfold leaf_row, radio_row. intros H.
  repeat match goal with |- context [if ?b then _ else _] => destruct b end;
    done.
Qed.

Lemma radio_rows_leaf n check rows :
  Forall leaf_row rows → Forall leaf_row (radio_rows n check rows).
Proof.
  intros H. unfold radio_rows. destruct (0 <=? check); [|done].
  apply Forall_lookup. intros p r Hr.
  rewrite list_lookup_imap in Hr.
  destruct (rows !! p) as [r0|] eqn:Hp; [|done]. injection Hr as <-.
  apply radio_row_leaf. rewrite Forall_lookup in H. eauto.
Qed.

Lemma track_rows_leaf type prop pos entries :
  Forall leaf_row (track_rows type prop pos entries).
Proof.
  assert (H : Forall leaf_row (track_item_rows type prop pos entries)).
  { induction entries as [|e entries IH]; cbn; [done|].
    destruct (String.eqb _ _); [by constructor|done]. }
  unfold track_rows. destruct (track_item_rows _ _ _ _) as [|r rows]; [done|].
  apply Forall_app. split; [done|]. by repeat constructor.
Qed.

Lemma fmap_leaf {A} (row : A → MENUITEM) entries :
  (∀ e, leaf_row (row e)) → Forall leaf_row (row <$> entries).
Proof. intros H. apply Forall_fmap, Forall_forall. intros e _. apply H. Qed.

Lemma rows_of_leaf u s : Forall leaf_row (rows_of u s).
Proof.
  destruct u; cbn [rows_of]; try apply track_rows_leaf;
    by apply radio_rows_leaf, fmap_leaf.
Qed.

End RowsOf.

(* ===================================================================== *)
(** * Invariants of a rebuild pass *)
(* ===================================================================== *)

Section PassInvariants.

(** Every identifier in the store lies below the counter. *)
Definition ids_below (w : world) : Prop :=
  ∀ loc it, item_at (menus w) loc = Some it → 0 ≤ item_id it < next_id w.

(** No two rows of the store carry the same identifier. *)
Definition ids_unique (ms : store) : Prop :=
  ∀ loc1 loc2 it1 it2,
    item_at ms loc1 = Some it1 → item_at ms loc2 = Some it2 →
    item_id it1 = item_id it2 → loc1 = loc2.

(** A registry entry refers to a menu of the store and to an identifier
    that was handed out. *)
Definition entry_ok (w : world) (e : dyn_entry) : Prop :=
  (dyn_hmenu e < length (menus w))%nat ∧ 0 ≤ dyn_id e < next_id w.

(** Entries of the registry share their submenu exactly when they share
    their parent row. *)
Definition coherent (entries : list dyn_entry) : Prop :=
  ∀ e1 e2, e1 ∈ entries → e2 ∈ entries →
           (dyn_hmenu e1 = dyn_hmenu e2 ↔ dyn_id e1 = dyn_id e2).

Record pass_inv (w : world) : Prop := {
  inv_counter : 0 ≤ next_id w;
  inv_below : ids_below w;
  inv_unique : ids_unique (menus w);
  inv_entries : Forall (entry_ok w) (dyn_menus w);
  inv_coherent : coherent (dyn_menus w)
}.

(** The number of identifiers a pass over [entries] takes. *)
Fixpoint demand (s : mp_state) (entries : list dyn_entry) : Z :=
  match entries with
  | [] => 0
  | e :: entries' =>
      Z.of_nat (length (rows_of (dyn_update e) s)) + demand s entries'
  end.

Lemma demand_nonneg s entries : 0 ≤ demand s entries.
Proof. induction entries; cbn [demand]; lia. Qed.

Lemma demand_app s l1 l2 : demand s (l1 ++ l2) = demand s l1 + demand s l2.
Proof.
  induction l1 as [|e l1 IH]; [done|].
  cbn [app demand]. rewrite IH. lia.
Qed.

Lemma state_changed_item_at ms ms' loc it' :
  state_changed ms ms' → item_at ms' loc = Some it' →
  ∃ it, item_at ms loc = Some it ∧ same_but_state it it'.
Proof.
  intros [_ H] Hit. destruct loc as [h p]. rewrite item_at_lookup in Hit.
  specialize (H h). rewrite Forall2_lookup in H. specialize (H p).
  rewrite Hit in H. inversion H as [it ? Hs Heq|]; subst.
  exists it. by rewrite item_at_lookup.
Qed.

Lemma state_changed_item_at_rev ms ms' loc it :
  state_changed ms ms' → item_at ms loc = Some it →
  ∃ it', item_at ms' loc = Some it' ∧ same_but_state it it'.
Proof.
  intros [_ H] Hit. destruct loc as [h p]. rewrite item_at_lookup in Hit.
  specialize (H h). rewrite Forall2_lookup in H. specialize (H p).
  rewrite Hit in H. inversion H as [? it' Hs Heq1 Heq2|]; subst.
  exists it'. by rewrite item_at_lookup.
Qed.

Lemma state_changed_unique ms ms' :
  state_changed ms ms' → ids_unique ms → ids_unique ms'.
Proof.
  intros Hst Hu loc1 loc2 it1 it2 H1 H2 Hid.
  destruct (state_changed_item_at _ _ _ _ Hst H1) as (x1 & Hx1 & Hs1 & _).
  destruct (state_changed_item_at _ _ _ _ Hst H2) as (x2 & Hx2 & Hs2 & _).
  apply (Hu loc1 loc2 x1 x2 Hx1 Hx2). congruence.
Qed.

Lemma state_changed_count ms ms' h :
  state_changed ms ms' → GetMenuItemCount ms' h = GetMenuItemCount ms h.
Proof.
  intros [Hlen H]. unfold GetMenuItemCount. specialize (H h).
  apply Forall2_length in H.
  destruct (ms !! h) as [items|] eqn:E1, (ms' !! h) as [items'|] eqn:E2;
    cbn in H; try done.
  - by rewrite H.
  - apply lookup_lt_Some in E1. apply lookup_ge_None in E2. lia.
  - apply lookup_lt_Some in E2. apply lookup_ge_None in E1. lia.
Qed.

(** The rows of a store in which the menu [h] holds the fresh rows
    [number id0 rows]. *)
Lemma item_at_fresh_rows ms h id0 rows h' p :
  (h < length ms)%nat → 0 ≤ id0 → id0 + Z.of_nat (length rows) ≤ UINT_MOD →
  item_at (<[h := number id0 rows]> ms) (h', p)
  = if decide (h' = h) then set_id (id0 + Z.of_nat p) <$> rows !! p
    else item_at ms (h', p).
Proof.
  intros Hh H0 H1. rewrite !item_at_lookup.
  destruct (decide (h' = h)) as [->|Hne].
  - rewrite list_lookup_insert_eq by done. cbn. by apply number_lookup.
  - by rewrite list_lookup_insert_ne.
Qed.

Lemma fresh_rows_below ms h id0 rows next :
  (h < length ms)%nat → 0 ≤ id0 → id0 + Z.of_nat (length rows) ≤ UINT_MOD →
  (∀ loc it, item_at ms loc = Some it → 0 ≤ item_id it < id0) →
  id0 + Z.of_nat (length rows) ≤ next →
  ∀ loc it, item_at (<[h := number id0 rows]> ms) loc = Some it →
            0 ≤ item_id it < next.
Proof.
  intros Hh H0 H1 Hb Hn [h' p] it.
  rewrite (item_at_fresh_rows _ _ _ _ _ _ Hh H0 H1).
  destruct (decide (h' = h)) as [->|Hne].
  - destruct (rows !! p) as [r|] eqn:Hr; [|done]. intros [= <-]. cbn.
    apply lookup_lt_Some in Hr. lia.
  - intros Hit. specialize (Hb _ _ Hit). lia.
Qed.

Lemma fresh_rows_unique ms h id0 rows :
  (h < length ms)%nat → 0 ≤ id0 → id0 + Z.of_nat (length rows) ≤ UINT_MOD →
  (∀ loc it, item_at ms loc = Some it → 0 ≤ item_id it < id0) →
  ids_unique ms → ids_unique (<[h := number id0 rows]> ms).
Proof.
  intros Hh H0 H1 Hb Hu [h1 p1] [h2 p2] it1 it2.
  rewrite !(item_at_fresh_rows _ _ _ _ _ _ Hh H0 H1).
  destruct (decide (h1 = h)) as [->|Hne1], (decide (h2 = h)) as [->|Hne2].
  - destruct (rows !! p1) as [r1|]; [|done].
    destruct (rows !! p2) as [r2|]; [|done].
    intros [= <-] [= <-]. cbn. intros Hid. f_equal. lia.
  - destruct (rows !! p1) as [r1|]; [|done]. intros [= <-] H2. cbn.
    specialize (Hb _ _ H2). lia.
  - destruct (rows !! p2) as [r2|]; [|done]. intros H1' [= <-]. cbn.
    specialize (Hb _ _ H1'). lia.
  - apply Hu.
Qed.

(** The world after the rebuild of one entry, for an entry whose submenu
    exists. *)
Lemma rebuilt_eq ctx e w :
  (dyn_hmenu e < length (menus w))%nat →
  let rows := rows_of (dyn_update e) (ctx_state ctx) in
  rebuilt ctx e w
  = {| menus := EnableMenuItem (<[dyn_hmenu e := number (next_id w) rows]>
                                  (menus w))
                  (ctx_hmenu ctx) (dyn_id e) (enable_flag rows);
       next_id := advance (next_id w) (length rows);
       dyn_menus := dyn_menus w |}.
Proof.
  intros Hh rows. unfold rebuilt. fold rows.
  assert (Hm : menus (append_rows (dyn_hmenu e) rows (cleared (dyn_hmenu e) w))
               = <[dyn_hmenu e := number (next_id w) rows]> (menus w)).
  { unfold append_rows, cleared, set_menus. cbn [menus next_id].
    apply list_eq. intros h. destruct (decide (h = dyn_hmenu e)) as [->|Hne].
    - rewrite list_lookup_alter_eq, !list_lookup_insert_eq by done. done.
    - rewrite list_lookup_alter_ne, !list_lookup_insert_ne by done. done. }
  unfold set_menus. rewrite Hm. reflexivity.
Qed.

End PassInvariants.

Section PassSteps.

Lemma entry_ok_mono w w' e :
  length (menus w') = length (menus w) → next_id w ≤ next_id w' →
  entry_ok w e → entry_ok w' e.
Proof. intros Hl Hn [H1 H2]. split; [by rewrite Hl|lia]. Qed.

(** One rebuild keeps the identifiers below the counter and unique, and
    moves the counter by the number of rows. *)
Lemma rebuilt_step ctx e w :
  ids_below w → ids_unique (menus w) → entry_ok w e →
  let rows := rows_of (dyn_update e) (ctx_state ctx) in
  next_id w + Z.of_nat (length rows) < UINT_MOD →
  let w' := rebuilt ctx e w in
  ids_below w' ∧ ids_unique (menus w')
  ∧ next_id w' = next_id w + Z.of_nat (length rows)
  ∧ length (menus w') = length (menus w)
  ∧ dyn_menus w' = dyn_menus w.
Proof.
  intros Hb Hu [Hh Hid] rows Hw w'. subst w'.
  rewrite (rebuilt_eq ctx e w Hh). fold rows. cbn [menus next_id dyn_menus].
  set (ms1 := <[dyn_hmenu e := number (next_id w) rows]> (menus w)).
  pose proof (EnableMenuItem_state_changed ms1 (ctx_hmenu ctx) (dyn_id e)
                (enable_flag rows)) as Hst.
  rewrite advance_nowrap by lia.
  assert (Hb1 : ∀ loc it, item_at ms1 loc = Some it →
                  0 ≤ item_id it < next_id w + Z.of_nat (length rows)).
  { apply fresh_rows_below; try done; lia. }
  assert (Hu1 : ids_unique ms1).
  { apply fresh_rows_unique; try done; lia. }
  split; [|split; [|split; [|split]]]; try done.
  - intros loc it Hit.
    destruct (state_changed_item_at _ _ _ _ Hst Hit) as (x & Hx & Hs & _).
    rewrite <- Hs. by apply (Hb1 loc).
  - by apply (state_changed_unique ms1).
  - rewrite (proj1 Hst). unfold ms1. by rewrite length_insert.
Qed.

(** [EnableMenuItem] leaves a menu alone when none of its rows carries
    the identifier. *)
Lemma EnableMenuItem_untouched ms root id flags h items :
  ms !! h = Some items → Forall (λ x, item_id x ≠ id) items →
  EnableMenuItem ms root id flags !! h = Some items.
Proof.
  intros Hm Hall.
  pose proof (EnableMenuItem_count ms root id flags h) as Hc.
  rewrite Hm in Hc.
  destruct (EnableMenuItem ms root id flags !! h) as [items'|] eqn:E; [|done].
  f_equal. apply list_eq. intros p.
  assert (Hp : item_at (EnableMenuItem ms root id flags) (h, p) = items' !! p)
    by (by rewrite item_at_lookup, E).
  rewrite EnableMenuItem_item_at, item_at_lookup, Hm in Hp.
  cbn [default from_option] in Hp. unfold Datatypes.id in Hp.
  rewrite <- Hp. destruct (items !! p) as [x|] eqn:Hx; [|done]. cbn.
  destruct (decide _) as [Hf|]; [|done]. exfalso.
  destruct (find_item_sound _ _ _ _ _ Hf) as (y & Hy & Hyid).
  rewrite item_at_lookup, Hm in Hy. cbn in Hy. rewrite Hx in Hy.
  injection Hy as <-. rewrite Forall_lookup in Hall. by apply (Hall p x).
Qed.

(** The submenu of the entry right after its rebuild. *)
Lemma rebuilt_own_menu ctx e w :
  entry_ok w e →
  let rows := rows_of (dyn_update e) (ctx_state ctx) in
  next_id w + Z.of_nat (length rows) < UINT_MOD →
  menus (rebuilt ctx e w) !! dyn_hmenu e = Some (number (next_id w) rows).
Proof.
  intros [Hh Hid] rows Hw. rewrite (rebuilt_eq ctx e w Hh). fold rows.
  cbn [menus]. apply EnableMenuItem_untouched.
  - by apply list_lookup_insert_eq.
  - apply Forall_lookup. intros p r Hr.
    rewrite number_lookup in Hr by lia.
    destruct (rows !! p); [|done]. injection Hr as <-. cbn. lia.
Qed.

(** A menu whose rows carry other identifiers is not touched by the
    rebuild of an entry with another submenu. *)
Lemma rebuilt_other_menu ctx e w h items :
  (dyn_hmenu e < length (menus w))%nat → dyn_hmenu e ≠ h →
  menus w !! h = Some items → Forall (λ x, item_id x ≠ dyn_id e) items →
  menus (rebuilt ctx e w) !! h = Some items.
Proof.
  intros Hh Hne Hm Hall. rewrite (rebuilt_eq ctx e w Hh). cbn [menus].
  apply EnableMenuItem_untouched; [|done].
  by rewrite list_lookup_insert_ne.
Qed.

Lemma dyn_menu_loop_cons ctx e entries w :
  (dyn_hmenu e < length (menus w))%nat →
  run (dyn_menu_loop ctx (e :: entries)) w
  = run (dyn_menu_loop ctx entries) (rebuilt ctx e w).
Proof.
  intros Hh. destruct (lookup_lt_is_Some_2 _ _ Hh) as [items Hm].
  cbn [dyn_menu_loop]. munfold.
  by rewrite (dyn_entry_update_spec _ _ _ _ Hm).
Qed.

(** A whole loop over valid entries keeps the invariants and takes
    [demand] identifiers. *)
Lemma dyn_menu_loop_inv ctx entries w :
  ids_below w → ids_unique (menus w) → Forall (entry_ok w) entries →
  0 ≤ next_id w →
  next_id w + demand (ctx_state ctx) entries < UINT_MOD →
  let w' := run (dyn_menu_loop ctx entries) w in
  ids_below w' ∧ ids_unique (menus w')
  ∧ next_id w' = next_id w + demand (ctx_state ctx) entries
  ∧ length (menus w') = length (menus w)
  ∧ dyn_menus w' = dyn_menus w.
Proof.
  revert w. induction entries as [|e entries IH]; intros w Hb Hu He H0 Hw.
  - cbn. split; [done|]. split; [done|]. split; [lia|done].
  - apply Forall_cons in He as [He Hes]. cbn [demand] in Hw.
    pose proof (demand_nonneg (ctx_state ctx) entries) as Hd.
    rewrite (dyn_menu_loop_cons _ _ _ _ (proj1 He)).
    destruct (rebuilt_step ctx e w Hb Hu He) as (Hb' & Hu' & Hn' & Hl' & Hd');
      [lia|].
    destruct (IH (rebuilt ctx e w)) as (Hb2 & Hu2 & Hn2 & Hl2 & Hd2);
      try done; try lia.
    { eapply Forall_impl; [exact Hes|]. intros e'.
      apply entry_ok_mono; [done|lia]. }
    cbn zeta. split; [done|]. split; [done|]. split; [|split].
    + rewrite Hn2, Hn'. cbn [demand]. lia.
    + by rewrite Hl2.
    + by rewrite Hd2.
Qed.

(** Entries with other submenus and identifiers below [B] leave alone a
    menu whose rows carry identifiers from [B] on. *)
Lemma dyn_menu_loop_keeps ctx entries w h items B :
  ids_below w → ids_unique (menus w) → Forall (entry_ok w) entries →
  0 ≤ next_id w →
  next_id w + demand (ctx_state ctx) entries < UINT_MOD →
  Forall (λ e, dyn_hmenu e ≠ h ∧ dyn_id e < B) entries →
  menus w !! h = Some items → Forall (λ x, B ≤ item_id x) items →
  menus (run (dyn_menu_loop ctx entries) w) !! h = Some items.
Proof.
  revert w. induction entries as [|e entries IH];
    intros w Hb Hu He H0 Hw Hne Hm Hall; [done|].
  apply Forall_cons in He as [He Hes]. apply Forall_cons in Hne as [[Hn HB] Hnes].
  cbn [demand] in Hw.
  pose proof (demand_nonneg (ctx_state ctx) entries) as Hd.
  rewrite (dyn_menu_loop_cons _ _ _ _ (proj1 He)).
  destruct (rebuilt_step ctx e w Hb Hu He) as (Hb' & Hu' & Hn' & Hl' & Hd');
    [lia|].
  apply IH; try done; try lia.
  - eapply Forall_impl; [exact Hes|]. intros e'.
    apply entry_ok_mono; [done|lia].
  - apply rebuilt_other_menu; try done; [apply He|].
    eapply Forall_impl; [exact Hall|]. cbn. intros x Hx. lia.
Qed.

Lemma dyn_menu_loop_app ctx l1 l2 w :
  run (dyn_menu_loop ctx (l1 ++ l2)) w
  = run (dyn_menu_loop ctx l2) (run (dyn_menu_loop ctx l1) w).
Proof.
  revert w. induction l1 as [|e l1 IH]; intros w; [done|].
  cbn [app dyn_menu_loop]. munfold.
  destruct (dyn_entry_update ctx e w) as [[] w1]. apply IH.
Qed.

End PassSteps.

(* ===================================================================== *)
(** * No residue of an earlier rebuild *)
(* ===================================================================== *)

Section NoResidue.

Lemma dyn_menu_update_loop ctx w :
  run (dyn_menu_update ctx) w = run (dyn_menu_loop ctx (dyn_menus w)) w.
Proof. done. Qed.

(** A pass keeps the invariants. *)
Lemma pass_preserves_inv ctx w :
  pass_inv w →
  next_id w + demand (ctx_state ctx) (dyn_menus w) < UINT_MOD →
  let w' := run (dyn_menu_update ctx) w in
  pass_inv w'
  ∧ next_id w' = next_id w + demand (ctx_state ctx) (dyn_menus w)
  ∧ dyn_menus w' = dyn_menus w
  ∧ length (menus w') = length (menus w).
Proof.
  intros [H0 Hb Hu He Hc] Hw w'. subst w'. rewrite dyn_menu_update_loop.
  destruct (dyn_menu_loop_inv ctx (dyn_menus w) w Hb Hu He H0 Hw)
    as (Hb' & Hu' & Hn' & Hl' & Hd').
  pose proof (demand_nonneg (ctx_state ctx) (dyn_menus w)) as Hd.
  split; [|by repeat split].
  split; try done; rewrite ?Hd'; [lia| |done].
  eapply Forall_impl; [exact He|]. intros e. apply entry_ok_mono; [done|lia].
Qed.

(** After a pass, the submenu of the last entry registered for it holds
    the rows of that entry's updater, numbered from the value the counter
    had when the entry was reached. *)
Lemma pass_rows ctx w pre e post :
  pass_inv w →
  next_id w + demand (ctx_state ctx) (dyn_menus w) < UINT_MOD →
  dyn_menus w = (pre ++ e :: post)%list →
  Forall (λ e', dyn_hmenu e' ≠ dyn_hmenu e) post →
  menus (run (dyn_menu_update ctx) w) !! dyn_hmenu e
  = Some (number (next_id w + demand (ctx_state ctx) pre)
            (rows_of (dyn_update e) (ctx_state ctx))).
Proof.
  intros [H0 Hb Hu He Hc] Hw Hreg Hpost. rewrite dyn_menu_update_loop.
  rewrite Hreg in *. clear Hreg.
  rewrite demand_app in Hw. cbn [demand] in Hw.
  apply Forall_app in He as [Hpre He]. apply Forall_cons in He as [He Hpo].
  pose proof (demand_nonneg (ctx_state ctx) pre) as Hd1.
  pose proof (demand_nonneg (ctx_state ctx) post) as Hd2.
  rewrite dyn_menu_loop_app.
  destruct (dyn_menu_loop_inv ctx pre w Hb Hu Hpre H0)
    as (Hb1 & Hu1 & Hn1 & Hl1 & _); [lia|].
  set (w1 := run (dyn_menu_loop ctx pre) w) in *.
  assert (He1 : entry_ok w1 e) by (apply (entry_ok_mono w); [done|lia|done]).
  rewrite (dyn_menu_loop_cons _ _ _ _ (proj1 He1)).
  destruct (rebuilt_step ctx e w1 Hb1 Hu1 He1) as (Hb2 & Hu2 & Hn2 & Hl2 & _);
    [lia|].
  rewrite <- Hn1.
  apply (dyn_menu_loop_keeps _ _ _ _ _ (next_id w1)); try done; try lia.
  - eapply Forall_impl; [exact Hpo|]. intros e'.
    apply entry_ok_mono; [congruence|lia].
  - apply Forall_forall. intros e' He'. split.
    + rewrite Forall_forall in Hpost. auto.
    + rewrite Forall_forall in Hpo. destruct (Hpo e' He') as [_ ?]. lia.
  - apply rebuilt_own_menu; [done|lia].
  - apply Forall_lookup. intros p r Hr.
    rewrite number_lookup in Hr by lia.
    destruct (_ !! p); [|done]. injection Hr as <-. cbn. lia.
Qed.

Lemma set_id_same r : item_id r = 0 → set_id 0 r = r.
Proof. destruct r. cbn. by intros ->. Qed.

Lemma radio_rows_id0 n check rows :
  Forall (λ r, item_id r = 0) rows →
  Forall (λ r, item_id r = 0) (radio_rows n check rows).
Proof.
  intros H. unfold radio_rows. destruct (0 <=? check); [|done].
  apply Forall_lookup. intros p r Hr. rewrite list_lookup_imap in Hr.
  destruct (rows !! p) as [r0|] eqn:Hp; [|done]. injection Hr as <-.
  rewrite Forall_lookup in H. specialize (H p r0 Hp).
  unfold radio_row.
  repeat match goal with |- context [if ?b then _ else _] => destruct b end;
    done.
Qed.

Lemma rows_of_id0 u s : Forall (λ r, item_id r = 0) (rows_of u s).
Proof.
  assert (Ht : ∀ type prop pos entries,
             Forall (λ r, item_id r = 0) (track_rows type prop pos entries)).
  { intros type prop pos entries.
    assert (H : Forall (λ r, item_id r = 0)
                  (track_item_rows type prop pos entries)).
    { induction entries as [|e entries IH]; cbn; [done|].
      destruct (String.eqb _ _); [by constructor|done]. }
    unfold track_rows. destruct (track_item_rows _ _ _ _); [done|].
    apply Forall_app. split; [done|]. by repeat constructor. }
  destruct u; cbn [rows_of]; try apply Ht;
    apply radio_rows_id0, Forall_fmap, Forall_forall; by intros.
Qed.

Lemma forget_numbers id rows :
  Forall (λ r, item_id r = 0) rows → set_id 0 <$> number id rows = rows.
Proof.
  intros H. revert id. induction H as [|r rows Hr _ IH]; intros id; [done|].
  cbn. rewrite IH. f_equal. destruct r. cbn in *. by subst.
Qed.

(** A snapshot with a video and an audio track. *)
Definition two_track_state : mp_state :=
  {| vid := 1; aid := 2; sid := -1; sid2 := -1;
     track_list := Some [ {| track_id := 1; track_title := Some "Main";
                             track_lang := None; track_type := "video";
                             track_selected := true |};
                          {| track_id := 2; track_title := Some "English";
                             track_lang := None; track_type := "audio";
                             track_selected := true |} ];
     chapter := -1; chapter_list := None;
     edition := -1; edition_list := None;
     audio_device := "auto"; audio_device_list := None |}.

(** C2 as the specification states it fails for a slot that shares its
    submenu with a slot registered later: two lines that tag the submenu
    "Tracks" register two slots for one menu, and after any rebuild the
    menu holds the rows of the second slot only. *)
Lemma shared_submenu_counterexample :
  let w := run (load_menu false
                  (Some ("a #menu: Tracks #@tracks/video" ++ String LF
                         "b #menu: Tracks #@tracks/audio")%string)) world0 in
  let ctx := {| ctx_hmenu := 0%nat; ctx_state := two_track_state;
                ctx_uosc := false |} in
  let w2 := run (dyn_menu_update ctx) (run (dyn_menu_update ctx) w) in
  dyn_menus w = [ {| dyn_hmenu := 1; dyn_id := WM_USER + 100;
                     dyn_update := video_track |};
                  {| dyn_hmenu := 1; dyn_id := WM_USER + 100;
                     dyn_update := audio_track |} ]
  ∧ is_Some (menus w2 !! 1%nat)
  ∧ set_id 0 <$> default [] (menus w2 !! 1%nat)
    = rows_of audio_track two_track_state
  ∧ set_id 0 <$> default [] (menus w2 !! 1%nat)
    ≠ rows_of video_track two_track_state.
Proof.
  split; [vm_compute; reflexivity|].
  split; [vm_compute; eauto|].
  split; [vm_compute; reflexivity|]. vm_compute. discriminate.
Qed.

(** C2, amended.  While the counter of identifiers does not wrap around,
    after two successive rebuild passes with the snapshots of [ctx1] and
    then [ctx2], the submenu of every entry that is the last one
    registered for that submenu holds exactly the rows its updater
    produces from the second snapshot: they are numbered by the counter
    and, identifiers apart, equal to [rows_of] of the second snapshot,
    which does not mention the first. *)
Theorem rebuild_leaves_no_residue ctx1 ctx2 w pre e post :
  pass_inv w →
  next_id w + demand (ctx_state ctx1) (dyn_menus w)
            + demand (ctx_state ctx2) (dyn_menus w) < UINT_MOD →
  dyn_menus w = (pre ++ e :: post)%list →
  Forall (λ e', dyn_hmenu e' ≠ dyn_hmenu e) post →
  let w2 := run (dyn_menu_update ctx2) (run (dyn_menu_update ctx1) w) in
  let rows2 := rows_of (dyn_update e) (ctx_state ctx2) in
  menus w2 !! dyn_hmenu e
  = Some (number (next_id w + demand (ctx_state ctx1) (dyn_menus w)
                  + demand (ctx_state ctx2) pre) rows2)
  ∧ (∀ rows, menus w2 !! dyn_hmenu e = Some rows → set_id 0 <$> rows = rows2)
  ∧ pass_inv w2.
Proof.
  intros Hinv Hw Hreg Hpost w2 rows2.
  pose proof (demand_nonneg (ctx_state ctx1) (dyn_menus w)) as Hd1.
  pose proof (demand_nonneg (ctx_state ctx2) (dyn_menus w)) as Hd2.
  destruct (pass_preserves_inv ctx1 w Hinv) as (Hinv1 & Hn1 & Hr1 & _);
    [lia|].
  set (w1 := run (dyn_menu_update ctx1) w) in *.
  assert (Hrows : menus w2 !! dyn_hmenu e
                  = Some (number (next_id w
                            + demand (ctx_state ctx1) (dyn_menus w)
                            + demand (ctx_state ctx2) pre) rows2)).
  { subst w2. rewrite <- Hn1. apply (pass_rows ctx2 w1 pre e post); try done.
    - rewrite Hr1, Hn1. lia.
    - by rewrite Hr1. }
  split; [done|]. split.
  - intros rows Hrows'. rewrite Hrows in Hrows'. injection Hrows' as <-.
    apply forget_numbers, rows_of_id0.
  - apply (pass_preserves_inv ctx2 w1 Hinv1). rewrite Hr1, Hn1. lia.
Qed.

End NoResidue.

(* ===================================================================== *)
(** * The parent row of a dynamic submenu *)
(* ===================================================================== *)

Section ParentRow.

(** The parent row of the entry, when the search from [root] finds it, is
    enabled exactly when the submenu of the entry has a row. *)
Definition parent_state_ok (root : HMENU) (e : dyn_entry) (w : world) : Prop :=
  ∀ loc it,
    find_by_command (menus w) root (dyn_id e) = Some loc →
    item_at (menus w) loc = Some it →
    (is_enabled it = true ↔ 0 < GetMenuItemCount (menus w) (dyn_hmenu e)).

Lemma parent_state_ok_same root e1 e2 w :
  dyn_hmenu e1 = dyn_hmenu e2 → dyn_id e1 = dyn_id e2 →
  parent_state_ok root e1 w → parent_state_ok root e2 w.
Proof. unfold parent_state_ok. intros <- <-. done. Qed.

(** The search passes over leaves that carry other identifiers. *)
Lemma scan_items_leaves search h id rows pos fallback :
  Forall (λ r, item_submenu r = None ∧ item_id r ≠ id) rows →
  scan_items search h id rows pos fallback = fallback.
Proof.
  intros H. revert pos. induction H as [|r rows [Hs Hid] _ IH]; intros pos;
    [done|].
  cbn. rewrite Hs. apply Z.eqb_neq in Hid. rewrite Hid. apply IH.
Qed.

(** A search that succeeds still succeeds when the descents find more. *)
Lemma scan_items_mono search1 search2 h id items pos fallback :
  (∀ sub, is_Some (search1 sub) → is_Some (search2 sub)) →
  is_Some (scan_items search1 h id items pos fallback) →
  is_Some (scan_items search2 h id items pos fallback).
Proof.
  intros Hs. revert pos fallback.
  induction items as [|it items IH]; intros pos fallback; [done|].
  cbn. destruct (item_submenu it) as [sub|].
  - destruct (search1 sub) as [l1|] eqn:E1.
    + destruct (Hs sub) as [l2 ->]; [by rewrite E1|]. eauto.
    + destruct (search2 sub); [eauto|]. apply IH.
  - destruct (item_id it =? id); [done|]. apply IH.
Qed.

(** Replacing the rows of a menu by leaves that carry other identifiers
    cannot make a search succeed. *)
Lemma find_item_fresh_rows fuel ms h rows id root :
  Forall (λ r, item_submenu r = None ∧ item_id r ≠ id) rows →
  is_Some (find_item fuel (<[h := rows]> ms) root id) →
  is_Some (find_item fuel ms root id).
Proof.
  intros Hrows. revert root.
  induction fuel as [|fuel IH]; intros root; [done|].
  cbn [find_item]. destruct (decide (root = h)) as [->|Hne].
  - destruct (decide (h < length ms)%nat) as [Hh|Hh].
    + rewrite list_lookup_insert_eq by done. cbn.
      rewrite (scan_items_leaves _ _ _ _ _ _ Hrows). by intros [? ?].
    + rewrite list_insert_ge by lia.
      apply scan_items_mono. intros sub. rewrite list_insert_ge in IH by lia.
      done.
  - rewrite list_lookup_insert_ne by done. apply scan_items_mono.
    intros sub. apply IH.
Qed.

Lemma count_fresh_rows ms h rows :
  (h < length ms)%nat →
  GetMenuItemCount (<[h := rows]> ms) h = Z.of_nat (length rows).
Proof.
  intros Hh. unfold GetMenuItemCount. by rewrite list_lookup_insert_eq.
Qed.

(** The rebuild of an entry sets the state of its parent row. *)
Lemma rebuilt_establishes ctx e w :
  (dyn_hmenu e < length (menus w))%nat →
  parent_state_ok (ctx_hmenu ctx) e (rebuilt ctx e w).
Proof.
  intros Hh loc it. rewrite (rebuilt_eq ctx e w Hh). cbn [menus].
  set (rows := rows_of (dyn_update e) (ctx_state ctx)).
  set (ms1 := <[dyn_hmenu e := number (next_id w) rows]> (menus w)).
  pose proof (EnableMenuItem_state_changed ms1 (ctx_hmenu ctx) (dyn_id e)
                (enable_flag rows)) as Hst.
  rewrite (state_changed_find _ _ _ _ Hst), (state_changed_count _ _ _ Hst).
  intros Hf. rewrite EnableMenuItem_item_at, decide_True by done.
  destruct (item_at ms1 loc) as [x|]; [|done]. intros [= <-].
  rewrite is_enabled_enable. unfold ms1.
  rewrite count_fresh_rows, length_number by done.
  destruct rows; cbn; split; (done || lia).
Qed.

(** The rebuild of an entry with another submenu and another parent row
    leaves the parent row of [e0] as it was. *)
Lemma rebuilt_preserves ctx e e0 w :
  ids_below w → ids_unique (menus w) → entry_ok w e → entry_ok w e0 →
  dyn_hmenu e ≠ dyn_hmenu e0 → dyn_id e ≠ dyn_id e0 →
  next_id w + Z.of_nat (length (rows_of (dyn_update e) (ctx_state ctx)))
    < UINT_MOD →
  parent_state_ok (ctx_hmenu ctx) e0 w →
  parent_state_ok (ctx_hmenu ctx) e0 (rebuilt ctx e w).
Proof.
  intros Hb Hu [Hh He] [Hh0 He0] Hneh Hneid Hw Hok loc it.
  rewrite (rebuilt_eq ctx e w Hh). cbn [menus].
  set (rows := rows_of (dyn_update e) (ctx_state ctx)) in *.
  set (ms1 := <[dyn_hmenu e := number (next_id w) rows]> (menus w)).
  pose proof (EnableMenuItem_state_changed ms1 (ctx_hmenu ctx) (dyn_id e)
                (enable_flag rows)) as Hst.
  rewrite (state_changed_find _ _ _ _ Hst), (state_changed_count _ _ _ Hst).
  intros Hf Hit.
  (* the row found lies outside the rebuilt menu, and is a row of [w] *)
  destruct (find_item_sound _ _ _ _ _ Hf) as (x & Hx & Hxid).
  destruct loc as [h p]. unfold ms1 in Hx.
  rewrite item_at_fresh_rows in Hx by (done || lia).
  destruct (decide (h = dyn_hmenu e)) as [->|Hh'].
  { destruct (rows !! p); [|done]. injection Hx as <-. cbn in Hxid. lia. }
  (* it is not the row [EnableMenuItem] changed *)
  rewrite EnableMenuItem_item_at in Hit.
  assert (Hx1 : item_at ms1 (h, p) = Some x).
  { unfold ms1. rewrite item_at_fresh_rows by (done || lia).
    by rewrite decide_False. }
  rewrite Hx1 in Hit. cbn in Hit.
  destruct (decide (find_by_command ms1 (ctx_hmenu ctx) (dyn_id e)
                    = Some (h, p))) as [Hfe|_].
  { destruct (find_item_sound _ _ _ _ _ Hfe) as (y & Hy & Hyid).
    rewrite Hx1 in Hy. injection Hy as <-. congruence. }
  injection Hit as <-.
  (* the search in [w] finds the same row *)
  assert (Hfw : is_Some (find_by_command (menus w) (ctx_hmenu ctx) (dyn_id e0))).
  { unfold find_by_command in *. unfold ms1 in Hf.
    rewrite length_insert in Hf.
    apply (find_item_fresh_rows _ _ (dyn_hmenu e) (number (next_id w) rows));
      [|by rewrite Hf].
    apply Forall_lookup. intros q r Hr.
    rewrite number_lookup in Hr by lia.
    destruct (rows !! q) as [r0|] eqn:Hq; [|done]. injection Hr as <-.
    cbn. split; [|lia].
    pose proof (rows_of_leaf (dyn_update e) (ctx_state ctx)) as Hleaf.
    rewrite Forall_lookup in Hleaf. by apply (Hleaf q). }
  destruct Hfw as [loc2 Hf2].
  destruct (find_item_sound _ _ _ _ _ Hf2) as (y & Hy & Hyid).
  assert (loc2 = (h, p)) as ->.
  { apply (Hu loc2 (h, p) y x Hy Hx). congruence. }
  rewrite (Hok (h, p) x Hf2 Hx).
  unfold ms1, GetMenuItemCount. by rewrite list_lookup_insert_ne.
Qed.

(** The loop of a pass leaves the parent row of every entry it visits in
    the state that fits the rows of the entry's submenu. *)
Lemma dyn_menu_loop_parents ctx entries visited w :
  ids_below w → ids_unique (menus w) → 0 ≤ next_id w →
  Forall (entry_ok w) (visited ++ entries) →
  coherent (visited ++ entries) →
  next_id w + demand (ctx_state ctx) entries < UINT_MOD →
  Forall (λ e, parent_state_ok (ctx_hmenu ctx) e w) visited →
  Forall (λ e, parent_state_ok (ctx_hmenu ctx) e
                 (run (dyn_menu_loop ctx entries) w)) (visited ++ entries).
Proof.
  revert visited w. induction entries as [|e entries IH];
    intros visited w Hb Hu H0 He Hc Hw Hv.
  - by rewrite app_nil_r.
  - cbn [demand] in Hw.
    pose proof (demand_nonneg (ctx_state ctx) entries) as Hd.
    assert (Hee : entry_ok w e).
    { rewrite Forall_forall in He. apply He. rewrite elem_of_app, elem_of_cons.
      auto. }
    rewrite (dyn_menu_loop_cons _ _ _ _ (proj1 Hee)).
    destruct (rebuilt_step ctx e w Hb Hu Hee) as (Hb' & Hu' & Hn' & Hl' & _);
      [lia|].
    replace (visited ++ e :: entries)%list
      with ((visited ++ [e]) ++ entries)%list in *
      by (by rewrite <- app_assoc).
    apply IH; try done; try lia.
    + eapply Forall_impl; [exact He|]. intros e'.
      apply entry_ok_mono; [done|lia].
    + apply Forall_app. split;
        [|constructor; [apply rebuilt_establishes, Hee|constructor]].
      apply Forall_forall. intros e0 He0.
        assert (Hin0 : e0 ∈ ((visited ++ [e]) ++ entries)%list)
          by (rewrite !elem_of_app; auto).
        assert (Hin : e ∈ ((visited ++ [e]) ++ entries)%list)
          by (rewrite !elem_of_app, elem_of_cons; auto).
      destruct (decide (dyn_hmenu e = dyn_hmenu e0)) as [Hh|Hh].
      * apply (parent_state_ok_same _ e); [done|by apply (Hc e e0)|].
        apply rebuilt_establishes, Hee.
      * apply rebuilt_preserves; try done.
        -- rewrite Forall_forall in He. by apply He.
        -- intros Hid. apply Hh. by apply (Hc e e0).
        -- lia.
        -- rewrite Forall_forall in Hv. by apply Hv.
Qed.

End ParentRow.

Section ParentEnabled.

(** The list an updater reads is NULL or empty. *)
Definition snapshot_absent (u : updater) (s : mp_state) : Prop :=
  match u with
  | video_track | audio_track | sub_track | sub_track2 =>
      track_list s = None ∨ track_list s = Some []
  | chapters => chapter_list s = None ∨ chapter_list s = Some []
  | editions => edition_list s = None ∨ edition_list s = Some []
  | audio_devices =>
      audio_device_list s = None ∨ audio_device_list s = Some []
  end.

Lemma rows_of_absent u s : snapshot_absent u s → rows_of u s = [].
Proof.
  destruct u; cbn [snapshot_absent rows_of]; intros [-> | ->];
    cbn [default from_option fmap list_fmap length];
    rewrite ?radio_rows_nil; reflexivity.
Qed.

(** C3, amended.  After a rebuild pass over a world that satisfies the
    invariants of a loaded menu, while the counter of identifiers does
    not wrap around: for every entry of the registry, the parent row
    that the search by identifier finds is enabled if and only if the
    submenu of the entry has at least one row.  When the list the
    updater reads is NULL or empty, the updater appends no row; for an
    entry that is the last one registered for its submenu, the submenu
    is then empty and the parent row is not enabled.  The invariants
    hold again after the pass. *)
Theorem parent_enabled_iff_rows ctx w :
  pass_inv w →
  next_id w + demand (ctx_state ctx) (dyn_menus w) < UINT_MOD →
  let w' := run (dyn_menu_update ctx) w in
  (∀ e loc it,
     e ∈ dyn_menus w' →
     find_by_command (menus w') (ctx_hmenu ctx) (dyn_id e) = Some loc →
     item_at (menus w') loc = Some it →
     (is_enabled it = true ↔ 0 < GetMenuItemCount (menus w') (dyn_hmenu e)))
  ∧ (∀ pre e post loc it,
       dyn_menus w = (pre ++ e :: post)%list →
       Forall (λ e', dyn_hmenu e' ≠ dyn_hmenu e) post →
       snapshot_absent (dyn_update e) (ctx_state ctx) →
       rows_of (dyn_update e) (ctx_state ctx) = []
       ∧ menus w' !! dyn_hmenu e = Some []
       ∧ (find_by_command (menus w') (ctx_hmenu ctx) (dyn_id e) = Some loc →
          item_at (menus w') loc = Some it → is_enabled it = false))
  ∧ pass_inv w'.
Proof.
  intros Hinv Hw w'.
  destruct (pass_preserves_inv ctx w Hinv Hw) as (Hinv' & _ & Hreg & _).
  fold w' in Hinv', Hreg.
  assert (Hall : ∀ e, e ∈ dyn_menus w' → parent_state_ok (ctx_hmenu ctx) e w').
  { rewrite Hreg. intros e He. subst w'. rewrite dyn_menu_update_loop.
    destruct Hinv as [H0 Hb Hu Hes Hc].
    pose proof (dyn_menu_loop_parents ctx (dyn_menus w) [] w Hb Hu H0 Hes Hc Hw
                  (Forall_nil_2 _)) as Hp.
    cbn [app] in Hp. rewrite Forall_forall in Hp. by apply Hp. }
  split; [|split; [|done]].
  - intros e loc it He. by apply Hall.
  - intros pre e post loc it Hpre Hpost Habs.
    pose proof (rows_of_absent _ _ Habs) as Hrows.
    pose proof (pass_rows ctx w pre e post Hinv Hw Hpre Hpost) as Hm.
    fold w' in Hm. rewrite Hrows in Hm. cbn [number] in Hm.
    split; [done|]. split; [done|]. intros Hf Hit.
    assert (He : e ∈ dyn_menus w').
    { rewrite Hreg, Hpre, elem_of_app, elem_of_cons. auto. }
    pose proof (Hall e He loc it Hf Hit) as Hiff.
    unfold GetMenuItemCount in Hiff. rewrite Hm in Hiff. cbn in Hiff.
    destruct (is_enabled it); [|done]. destruct Hiff as [Hiff _].
    specialize (Hiff eq_refl). lia.
Qed.

End ParentEnabled.

(* ===================================================================== *)
(** * Lengths: what the parser reads is part of the line *)
(* ===================================================================== *)

Section Lengths.
Local Open Scope nat_scope.

Lemma len_splice0_le s n : len (bstr_splice0 s n) ≤ len s.
Proof.
  revert s; induction n as [|n IH]; intros [|c s]; cbn; try lia.
  specialize (IH s). unfold len in *. lia.
Qed.

Lemma len_splice0_cut s n : len (bstr_splice0 s n) + len (bstr_cut s n) = len s.
Proof.
  revert s; induction n as [|n IH]; intros [|c s]; cbn; try lia.
  specialize (IH s). unfold len in *. lia.
Qed.

Lemma len_lstrip_le s : len (bstr_lstrip s) ≤ len s.
Proof.
  induction s as [|c s IH]; cbn [bstr_lstrip]; [done|].
  destruct (mp_isspace c); unfold len in *; cbn [String.length] in *; lia.
Qed.

Lemma len_rstrip_le s : len (bstr_rstrip s) ≤ len s.
Proof.
  induction s as [|c s IH]; cbn [bstr_rstrip]; [done|].
  destruct (bstr_rstrip s); [destruct (mp_isspace c)|];
    unfold len in *; cbn [String.length] in *; lia.
Qed.

Lemma len_strip_le s : len (bstr_strip s) ≤ len s.
Proof.
  unfold bstr_strip. pose proof (len_rstrip_le (bstr_lstrip s)).
  pose proof (len_lstrip_le s). lia.
Qed.

Lemma len_split_fst_le s sep : len (bstr_split s sep).1 ≤ len s.
Proof.
  unfold bstr_split. cbn [fst].
  pose proof (len_splice0_le (skip_seps s sep) (bstrcspn (skip_seps s sep) sep)).
  pose proof (len_skip_seps_le s sep). lia.
Qed.

Lemma len_strip_linebreaks_le s : len (bstr_strip_linebreaks s) ≤ len s.
Proof.
  unfold bstr_strip_linebreaks.
  repeat match goal with |- context [if ?b then _ else _] => destruct b end;
    try apply len_splice0_le; lia.
Qed.

Lemma len_eatstart_le s prefix r :
  bstr_eatstart0 s prefix = Some r → len r ≤ len s.
Proof.
  unfold bstr_eatstart0. destruct (bstr_startswith s prefix); [|done].
  intros [= <-]. apply len_cut_le.
Qed.

Lemma len_split_tok_le s tok : len (bstr_split_tok s tok).2 ≤ len s.
Proof.
  unfold bstr_split_tok. destruct (bstr_find s tok); cbn [snd].
  - apply len_cut_le.
  - cbn. lia.
Qed.

Lemma len_entry_name_le text : len (entry_name text) ≤ len text.
Proof.
  unfold entry_name.
  pose proof (len_strip_le (bstr_split (bstr_split text ">").1 "#").1).
  pose proof (len_split_fst_le (bstr_split text ">").1 "#").
  pose proof (len_split_fst_le text ">"). lia.
Qed.

Lemma len_entry_rest_lt text :
  0 < len text → len (entry_rest text) < len text.
Proof. apply bstr_split_rest_lt. Qed.

Lemma len_split_menu_le cmd uosc left_ right_ :
  split_menu cmd uosc = Some (left_, right_) → len right_ ≤ len cmd.
Proof.
  unfold split_menu. destruct (len cmd =? 0); [done|].
  pose proof (len_split_tok_le cmd MENU_PREFIX) as H1.
  pose proof (len_split_tok_le cmd MENU_PREFIX_UOSC) as H2.
  destruct (bstr_split_tok cmd MENU_PREFIX) as [[f1 l1] r1].
  destruct (bstr_split_tok cmd MENU_PREFIX_UOSC) as [[f2 l2] r2].
  cbn [snd] in *.
  pose proof (len_strip_le r1). pose proof (len_strip_le r2).
  destruct f1; [|destruct uosc; [destruct f2|]]; try done;
    match goal with |- context [0 <? ?n] => destruct (0 <? n) end;
    try done; intros [= _ <-]; lia.
Qed.

Lemma len_line_fields_le uosc line key cmd :
  line_fields uosc line = Some (key, cmd) → len cmd ≤ len line.
Proof.
  unfold line_fields.
  set (l := bstr_lstrip (bstr_strip_linebreaks line)).
  assert (Hl : len l ≤ len line).
  { pose proof (len_lstrip_le (bstr_strip_linebreaks line)).
    pose proof (len_strip_linebreaks_le line). unfold l. lia. }
  destruct (len l =? 0); [done|].
  destruct (bstr_eatstart0 l "#") as [l'|] eqn:E.
  - destruct uosc; [|done]. intros [= _ <-].
    pose proof (len_eatstart_le _ _ _ E). pose proof (len_strip_le l'). lia.
  - pose proof (bstr_split_rest_le l WHITESPACE) as Hr.
    destruct (bstr_split l WHITESPACE) as [k c]. cbn [snd] in Hr.
    intros [= _ <-]. pose proof (len_strip_le c). lia.
Qed.

Lemma len_getline data :
  len (bstr_getline data).1 + len (bstr_getline data).2 = len data.
Proof. unfold bstr_getline. cbn [fst snd]. apply len_splice0_cut. Qed.


End Lengths.

(* ===================================================================== *)
(** * Invariants of the parser *)
(* ===================================================================== *)

Section ParseInvariants.

(** What [load_menu] maintains: identifiers are below the counter and
    unique, a submenu is opened by one row, exists and was made after the
    menu that holds this row, and every entry of the registry was made
    from a row that opens its submenu. *)
Record parse_inv (w : world) : Prop := {
  pinv_counter : 0 ≤ next_id w;
  pinv_below : ids_below w;
  pinv_unique : ids_unique (menus w);
  pinv_subs : ∀ loc it s,
    item_at (menus w) loc = Some it → item_submenu it = Some s →
    (loc.1 < s < length (menus w))%nat;
  pinv_subs_unique : ∀ loc1 loc2 it1 it2 s,
    item_at (menus w) loc1 = Some it1 → item_at (menus w) loc2 = Some it2 →
    item_submenu it1 = Some s → item_submenu it2 = Some s → loc1 = loc2;
  pinv_entries :
    Forall (λ e, ∃ loc it, item_at (menus w) loc = Some it
                           ∧ item_id it = dyn_id e
                           ∧ item_submenu it = Some (dyn_hmenu e))
      (dyn_menus w)
}.

Lemma parse_inv_pass_inv w : parse_inv w → pass_inv w.
Proof.
  intros [H0 Hb Hu Hs Hsu He]. split; try done.
  - eapply Forall_impl; [exact He|]. cbn.
    intros e (loc & it & Hit & Hid & Hsub). split.
    + by apply (Hs loc it).
    + rewrite <- Hid. by apply (Hb loc).
  - rewrite Forall_forall in He.
    intros e1 e2 He1 He2.
    destruct (He e1 He1) as (loc1 & it1 & Hit1 & Hid1 & Hsub1).
    destruct (He e2 He2) as (loc2 & it2 & Hit2 & Hid2 & Hsub2).
    split.
    + intros Hh. rewrite Hh in Hsub1.
      assert (loc1 = loc2) as ->
        by (by apply (Hsu loc1 loc2 it1 it2 (dyn_hmenu e2) Hit1 Hit2)).
      congruence.
    + intros Hid.
      assert (loc1 = loc2) as ->
        by (apply (Hu loc1 loc2 it1 it2 Hit1 Hit2); congruence).
      congruence.
Qed.

(** The store [ms'] is [ms] with the row [it] added at [loc0]. *)
Definition extends_by (ms ms' : store) (loc0 : nat * nat) (it : MENUITEM)
  : Prop :=
  (length ms ≤ length ms')%nat
  ∧ (∀ loc x, item_at ms loc = Some x → item_at ms' loc = Some x)
  ∧ (∀ loc x, item_at ms' loc = Some x →
              item_at ms loc = Some x ∨ (loc = loc0 ∧ x = it)).

Lemma extends_parse_inv w ms' loc0 it :
  parse_inv w → extends_by (menus w) ms' loc0 it →
  (loc0.1 < length (menus w))%nat →
  item_id it = next_id w →
  (∀ s, item_submenu it = Some s → (length (menus w) ≤ s < length ms')%nat) →
  next_id w + 1 < UINT_MOD →
  parse_inv {| menus := ms'; next_id := to_uint (next_id w + 1);
               dyn_menus := dyn_menus w |}.
Proof.
  intros [H0 Hb Hu Hs Hsu He] (Hlen & Hold & Hnew) Hloc Hid Hsub Hw.
  assert (Hn : to_uint (next_id w + 1) = next_id w + 1)
    by (apply to_uint_small; lia).
  split; unfold ids_below, ids_unique; cbn [menus next_id dyn_menus];
    rewrite ?Hn.
  - lia.
  - intros loc x Hx. destruct (Hnew _ _ Hx) as [Hx'|[_ ->]].
    + specialize (Hb _ _ Hx'). lia.
    + lia.
  - intros loc1 loc2 x1 x2 H1 H2 Heq.
    destruct (Hnew _ _ H1) as [H1'|[-> ->]], (Hnew _ _ H2) as [H2'|[-> ->]];
      try done.
    + by apply (Hu loc1 loc2 x1 x2).
    + specialize (Hb _ _ H1'). lia.
    + specialize (Hb _ _ H2'). lia.
  - intros loc x s Hx Hxs. destruct (Hnew _ _ Hx) as [Hx'|[-> ->]].
    + specialize (Hs _ _ _ Hx' Hxs). lia.
    + specialize (Hsub _ Hxs). lia.
  - intros loc1 loc2 x1 x2 s H1 H2 Hs1 Hs2.
    destruct (Hnew _ _ H1) as [H1'|[-> ->]], (Hnew _ _ H2) as [H2'|[-> ->]];
      try done.
    + by apply (Hsu loc1 loc2 x1 x2 s).
    + specialize (Hs _ _ _ H1' Hs1). specialize (Hsub _ Hs2). lia.
    + specialize (Hs _ _ _ H2' Hs2). specialize (Hsub _ Hs1). lia.
  - eapply Forall_impl; [exact He|]. cbn.
    intros e (loc & x & Hx & Hxid & Hxs). exists loc, x. auto.
Qed.

Lemma lookup_snoc_inv {A} (items : list A) it p x :
  (items ++ [it])%list !! p = Some x →
  items !! p = Some x ∨ (p = length items ∧ x = it).
Proof.
  intros H. destruct (decide (p < length items)%nat) as [Hp|Hp].
  - left. by rewrite lookup_app_l in H.
  - right. rewrite lookup_app_r in H by lia.
    destruct (p - length items)%nat as [|n] eqn:E; cbn in H; [|done].
    injection H as <-. split; [lia|done].
Qed.

Lemma appended_extends ms h items it :
  ms !! h = Some items →
  extends_by ms (<[h := (items ++ [it])%list]> ms) (h, length items) it.
Proof.
  intros Hm. assert (Hh : (h < length ms)%nat) by (by eapply lookup_lt_Some).
  split; [by rewrite length_insert|]. split.
  - intros [h' p] x. rewrite !item_at_lookup.
    destruct (decide (h' = h)) as [->|Hne].
    + rewrite Hm, list_lookup_insert_eq by done. cbn.
      apply lookup_app_l_Some.
    + by rewrite list_lookup_insert_ne.
  - intros [h' p] x. rewrite !item_at_lookup.
    destruct (decide (h' = h)) as [->|Hne].
    + rewrite Hm, list_lookup_insert_eq by done. cbn. intros Hx.
      destruct (lookup_snoc_inv _ _ _ _ Hx) as [?|[-> ->]]; auto.
    + rewrite list_lookup_insert_ne by done. auto.
Qed.

Lemma with_submenu_extends ms h items it :
  ms !! h = Some items →
  extends_by ms (<[h := (items ++ [it])%list]> (ms ++ [[]])%list)
    (h, length items) it.
Proof.
  intros Hm. assert (Hh : (h < length ms)%nat) by (by eapply lookup_lt_Some).
  split; [rewrite length_insert, length_app; lia|]. split.
  - intros [h' p] x. rewrite !item_at_lookup.
    destruct (decide (h' = h)) as [->|Hne].
    + rewrite Hm, list_lookup_insert_eq by (rewrite length_app; lia). cbn.
      apply lookup_app_l_Some.
    + rewrite list_lookup_insert_ne by done.
      destruct (ms !! h') as [l|] eqn:E; [|by cbn; rewrite lookup_nil].
      by rewrite (lookup_app_l_Some _ _ _ _ E).
  - intros [h' p] x. rewrite !item_at_lookup.
    destruct (decide (h' = h)) as [->|Hne].
    + rewrite Hm, list_lookup_insert_eq by (rewrite length_app; lia).
      cbn. intros Hx.
      destruct (lookup_snoc_inv _ _ _ _ Hx) as [?|[-> ->]]; auto.
    + rewrite list_lookup_insert_ne by done.
      destruct (decide (h' < length ms)%nat) as [Hlt|Hge].
      * rewrite lookup_app_l by done. auto.
      * rewrite lookup_app_r by lia.
        destruct (h' - length ms)%nat; cbn; rewrite ?lookup_nil; done.
Qed.

Lemma state_changed_parse_inv w ms' :
  parse_inv w → state_changed (menus w) ms' → parse_inv (set_menus ms' w).
Proof.
  intros [H0 Hb Hu Hs Hsu He] Hst.
  split; unfold ids_below, ids_unique;
    cbn [set_menus menus next_id dyn_menus]; try done.
  - intros loc x' Hx'.
    destruct (state_changed_item_at _ _ _ _ Hst Hx') as (x & Hx & Hid & _).
    rewrite <- Hid. by apply (Hb loc).
  - by apply (state_changed_unique (menus w)).
  - intros loc x' s Hx' Hxs.
    destruct (state_changed_item_at _ _ _ _ Hst Hx')
      as (x & Hx & _ & _ & _ & Hsub & _).
    rewrite (proj1 Hst). apply (Hs loc x); congruence.
  - intros loc1 loc2 x1' x2' s H1 H2 Hs1 Hs2.
    destruct (state_changed_item_at _ _ _ _ Hst H1)
      as (x1 & Hx1 & _ & _ & _ & Hsub1 & _).
    destruct (state_changed_item_at _ _ _ _ Hst H2)
      as (x2 & Hx2 & _ & _ & _ & Hsub2 & _).
    apply (Hsu loc1 loc2 x1 x2 s); congruence.
  - eapply Forall_impl; [exact He|]. cbn.
    intros e (loc & x & Hx & Hxid & Hxs).
    destruct (state_changed_item_at_rev _ _ _ _ Hst Hx)
      as (x' & Hx' & Hid & _ & _ & Hsub & _).
    exists loc, x'. repeat split; congruence.
Qed.

Lemma registered_parse_inv w sub id u :
  parse_inv w →
  (∃ loc it, item_at (menus w) loc = Some it ∧ item_id it = to_uint id
             ∧ item_submenu it = Some sub) →
  parse_inv (registered sub id u w).
Proof.
  intros [H0 Hb Hu Hs Hsu He] Hnew.
  split; unfold ids_below, ids_unique;
    cbn [registered menus next_id dyn_menus]; try done.
  apply Forall_app. split; [done|]. by repeat constructor.
Qed.

Lemma find_submenu_in_item items name sub id :
  find_submenu_in items name = Some (sub, id) →
  ∃ p it, items !! p = Some it ∧ item_submenu it = Some sub ∧ item_id it = id.
Proof.
  induction items as [|x items IH]; [done|]. cbn [find_submenu_in].
  assert (Hrec : find_submenu_in items name = Some (sub, id) →
                 ∃ p it, (x :: items) !! p = Some it
                         ∧ item_submenu it = Some sub ∧ item_id it = id).
  { intros H. destruct (IH H) as (p & it & Hp & Hit). by exists (S p), it. }
  destruct (item_text x) as [text|]; [|done].
  destruct (item_submenu x) as [s|] eqn:Hs; [|done].
  destruct (_ && _); [|done].
  intros [= <- <-]. by exists 0%nat, x.
Qed.

End ParseInvariants.

Section ParserKeepsInvariants.

Lemma parse_menu_empty fuel hmenu key cmd text uosc :
  (len (entry_name text) =? 0)%nat = true →
  parse_menu fuel hmenu key cmd text uosc = mret tt.
Proof.
  unfold entry_name.
  destruct fuel; cbn [parse_menu];
    destruct (bstr_split text ">") as [name rest]; cbn [fst snd];
    destruct (bstr_split name "#") as [name' comment]; cbn [fst snd];
    intros Hname; rewrite Hname; reflexivity.
Qed.

(** A branch entry without a comment: the submenu, then the rest. *)
Lemma parse_menu_descend fuel hmenu key cmd text uosc :
  (len (entry_name text) =? 0)%nat = false →
  (len (entry_rest text) =? 0)%nat = false →
  (len (entry_comment text) =? 0)%nat = true →
  parse_menu (S fuel) hmenu key cmd text uosc
  = ('(submenu, _) ← append_submenu hmenu (escape_title (entry_name text));
     parse_menu fuel submenu key cmd (entry_rest text) uosc).
Proof.
  unfold entry_rest, entry_name, entry_comment. cbn [parse_menu].
  destruct (bstr_split text ">") as [name rest]; cbn [fst snd].
  destruct (bstr_split name "#") as [name' comment]; cbn [fst snd].
  intros Hname Hrest Hcomment. rewrite Hname, Hrest, Hcomment. reflexivity.
Qed.

Lemma parse_menu_out_of_fuel hmenu key cmd text uosc :
  (len (entry_name text) =? 0)%nat = false →
  (len (entry_rest text) =? 0)%nat = false →
  (len (entry_comment text) =? 0)%nat = true →
  parse_menu 0 hmenu key cmd text uosc
  = ('(submenu, _) ← append_submenu hmenu (escape_title (entry_name text));
     mret tt).
Proof.
  unfold entry_rest, entry_name, entry_comment. cbn [parse_menu].
  destruct (bstr_split text ">") as [name rest]; cbn [fst snd].
  destruct (bstr_split name "#") as [name' comment]; cbn [fst snd].
  intros Hname Hrest Hcomment. rewrite Hname, Hrest, Hcomment. reflexivity.
Qed.

(** What [append_submenu] returns and leaves behind. *)
Lemma append_submenu_inv hmenu title w :
  parse_inv w → (hmenu < length (menus w))%nat → next_id w + 1 < UINT_MOD →
  let r := append_submenu hmenu title w in
  parse_inv r.2
  ∧ next_id w ≤ next_id r.2 ≤ next_id w + 1
  ∧ (length (menus w) ≤ length (menus r.2))%nat
  ∧ (r.1.1 < length (menus r.2))%nat
  ∧ dyn_menus r.2 = dyn_menus w
  ∧ ∃ loc it, item_at (menus r.2) loc = Some it
              ∧ item_id it = to_uint r.1.2
              ∧ item_submenu it = Some r.1.1.
Proof.
  intros Hinv Hh Hw r. subst r.
  destruct (lookup_lt_is_Some_2 _ _ Hh) as [items Hm].
  destruct (find_submenu_in items title) as [[sub id]|] eqn:Hf.
  - rewrite (append_submenu_found _ _ _ _ _ _ Hm Hf). cbn [fst snd].
    destruct (find_submenu_in_item _ _ _ _ Hf) as (p & it & Hp & Hsub & Hid).
    assert (Hit : item_at (menus w) (hmenu, p) = Some it)
      by (by rewrite item_at_lookup, Hm).
    pose proof (pinv_below _ Hinv _ _ Hit) as Hb.
    split; [done|]. split; [lia|]. split; [done|].
    split; [by apply (pinv_subs _ Hinv _ _ _ Hit)|]. split; [done|].
    exists (hmenu, p), it. split; [done|]. split; [|done].
    rewrite to_uint_to_int; lia.
  - rewrite (append_submenu_new _ _ _ _ Hm Hf). cbn [fst snd].
    pose proof (pinv_counter _ Hinv) as H0.
    unfold with_submenu. cbn [menus next_id dyn_menus].
    split; [|split; [|split; [|split; [|split]]]].
    + apply (extends_parse_inv w _ (hmenu, length items)
               (submenu_item (next_id w) title (length (menus w)))); try done.
      * by apply with_submenu_extends.
      * cbn. intros s [= <-]. rewrite length_insert, length_app. cbn. lia.
    + rewrite to_uint_small; lia.
    + rewrite length_insert, length_app. lia.
    + rewrite length_insert, length_app. cbn. lia.
    + done.
    + exists (hmenu, length items),
        (submenu_item (next_id w) title (length (menus w))).
      split; [|split; [|done]].
      * rewrite item_at_lookup, list_lookup_insert_eq
          by (rewrite length_app; lia).
        cbn. by apply list_lookup_middle.
      * cbn. rewrite to_uint_to_int; lia.
Qed.

Lemma add_dyn_menu_cases hmenu id keyword w :
  add_dyn_menu hmenu id keyword w = (false, w)
  ∨ ∃ u, add_dyn_menu hmenu id keyword w = (true, registered hmenu id u w).
Proof.
  destruct (decide (keyword ∈ dyn_providers.*1)) as [Hk|Hk].
  - right. apply list_elem_of_fmap in Hk as [[k u] [-> Hk]].
    exists u. by apply add_dyn_menu_known.
  - left. by apply add_dyn_menu_from_unknown.
Qed.

(** The conclusion of the lemmas below. *)
Definition parse_step_ok (w w' : world) (budget : nat) : Prop :=
  parse_inv w'
  ∧ next_id w ≤ next_id w' ≤ next_id w + Z.of_nat budget
  ∧ (length (menus w) ≤ length (menus w'))%nat.

Lemma parse_menu_inv_separator fuel hmenu key cmd text uosc w :
  parse_inv w → (hmenu < length (menus w))%nat → next_id w + 1 < UINT_MOD →
  (len (entry_rest text) =? 0)%nat = true →
  is_seprarator (entry_name text) uosc = true →
  parse_step_ok w (run (parse_menu fuel hmenu key cmd text uosc) w) 1.
Proof.
  intros Hinv Hh Hw1 Hrest Hsep.
  pose proof (pinv_counter _ Hinv) as H0.
  destruct (lookup_lt_is_Some_2 _ _ Hh) as [items Hm].
  rewrite (parse_menu_separator_world fuel hmenu key cmd text uosc w items
             Hrest Hsep Hm).
  split; [|split].
  - apply (extends_parse_inv w _ (hmenu, length items)
             (separator_item (next_id w))); try done.
    by apply appended_extends.
  - cbn. rewrite to_uint_small; lia.
  - cbn. by rewrite length_insert.
Qed.

Lemma parse_menu_inv_dyn fuel hmenu key cmd text uosc w c :
  parse_inv w → (hmenu < length (menus w))%nat → next_id w + 1 < UINT_MOD →
  (len (entry_name text) =? 0)%nat = false →
  (len (entry_rest text) =? 0)%nat = true →
  is_seprarator (entry_name text) uosc = false →
  bstr_eatstart0 (entry_comment text) MENU_PREFIX_DYN = Some c →
  parse_step_ok w (run (parse_menu fuel hmenu key cmd text uosc) w) 1.
Proof.
  intros Hinv Hh Hw1 Hname Hrest Hsep Hdyn.
  rewrite (parse_menu_dyn _ _ _ _ _ _ _ Hname Hrest Hsep Hdyn). munfold.
  destruct (append_submenu_inv hmenu (escape_title (entry_name text)) w
              Hinv Hh Hw1) as (Hi & Hn & Hl & _ & _ & Hwit).
  destruct (append_submenu hmenu (escape_title (entry_name text)) w)
    as [[sub id] w1]. cbn [fst snd] in *.
  destruct ((0 <? id) && (0 <? len c)%nat); [|by split].
  destruct (add_dyn_menu_cases sub id (dyn_keyword c) w1) as [->|[u ->]];
    cbn [snd]; [by split|].
  split; [by apply registered_parse_inv|]. by split.
Qed.

Lemma parse_menu_inv_leaf fuel hmenu key cmd text uosc w :
  parse_inv w → (hmenu < length (menus w))%nat → next_id w + 1 < UINT_MOD →
  (len (entry_name text) =? 0)%nat = false →
  (len (entry_rest text) =? 0)%nat = true →
  is_seprarator (entry_name text) uosc = false →
  bstr_eatstart0 (entry_comment text) MENU_PREFIX_DYN = None →
  parse_step_ok w (run (parse_menu fuel hmenu key cmd text uosc) w) 1.
Proof.
  intros Hinv Hh Hw1 Hname Hrest Hsep Hdyn.
  pose proof (pinv_counter _ Hinv) as H0.
  destruct (lookup_lt_is_Some_2 _ _ Hh) as [items Hm].
  destruct (parse_menu_leaf_world fuel hmenu key cmd text uosc w items
              Hname Hrest Hsep Hdyn Hm) as (Hst & Hn & Hd).
  set (w' := run (parse_menu fuel hmenu key cmd text uosc) w) in *.
  set (w1 := appended hmenu items
               (command_item (next_id w) 0
                  (format_title (entry_name text) key) cmd) w) in *.
  assert (Hw' : w' = set_menus (menus w') w1).
  { destruct w'. cbn in *. unfold set_menus. cbn. by subst. }
  split; [|split].
  - rewrite Hw'. apply state_changed_parse_inv; [|done].
    apply (extends_parse_inv w _ (hmenu, length items)
             (command_item (next_id w) 0
                (format_title (entry_name text) key) cmd)); try done.
    by apply appended_extends.
  - rewrite Hn. cbn. rewrite to_uint_small; lia.
  - rewrite (proj1 Hst). cbn. by rewrite length_insert.
Qed.

Lemma parse_menu_inv_branch_comment fuel hmenu key cmd text uosc w :
  parse_inv w → (hmenu < length (menus w))%nat → next_id w + 1 < UINT_MOD →
  (len (entry_name text) =? 0)%nat = false →
  (len (entry_rest text) =? 0)%nat = false →
  (len (entry_comment text) =? 0)%nat = false →
  parse_step_ok w (run (parse_menu fuel hmenu key cmd text uosc) w) 1.
Proof.
  intros Hinv Hh Hw1 Hname Hrest Hcomment.
  rewrite (parse_menu_branch_comment _ _ _ _ _ _ Hname Hrest Hcomment).
  munfold.
  destruct (append_submenu_inv hmenu (escape_title (entry_name text)) w
              Hinv Hh Hw1) as (Hi & Hn & Hl & _).
  destruct (append_submenu hmenu (escape_title (entry_name text)) w)
    as [[sub id] w1]. cbn [fst snd] in *. by split.
Qed.

Lemma parse_step_ok_weaken w w' n m :
  (n ≤ m)%nat → parse_step_ok w w' n → parse_step_ok w w' m.
Proof. intros Hnm (Hi & Hn & Hl). split; [done|]. split; [lia|done]. Qed.

(** [parse_menu] keeps the invariants, takes no more identifiers than the
    text has characters, and never removes a menu. *)
Lemma parse_menu_inv fuel hmenu key cmd text uosc w :
  parse_inv w → (hmenu < length (menus w))%nat →
  next_id w + Z.of_nat (len text) < UINT_MOD →
  parse_step_ok w (run (parse_menu fuel hmenu key cmd text uosc) w) (len text).
Proof.
  revert hmenu text w. induction fuel as [|fuel IH];
    intros hmenu text w Hinv Hh Hw;
    pose proof (pinv_counter _ Hinv) as H0;
    pose proof (len_entry_name_le text) as Hlen;
    (destruct (len (entry_name text) =? 0)%nat eqn:Hname;
     [rewrite (parse_menu_empty _ _ _ _ _ _ Hname); cbn;
      split; [done|split; [lia|done]]|]);
    apply Nat.eqb_neq in Hname as Hname';
    assert (Hw1 : next_id w + 1 < UINT_MOD) by lia;
    assert (H1 : (1 ≤ len text)%nat) by lia;
    (destruct (len (entry_rest text) =? 0)%nat eqn:Hrest;
     [apply (parse_step_ok_weaken _ _ 1); [done|];
      destruct (is_seprarator (entry_name text) uosc) eqn:Hsep;
      [by apply parse_menu_inv_separator|];
      destruct (bstr_eatstart0 (entry_comment text) MENU_PREFIX_DYN)
        as [c|] eqn:Hdyn;
      [by eapply parse_menu_inv_dyn|by apply parse_menu_inv_leaf]
     |]);
    (destruct (len (entry_comment text) =? 0)%nat eqn:Hcomment;
     [|apply (parse_step_ok_weaken _ _ 1); [done|];
       by apply parse_menu_inv_branch_comment]).
  - (* out of fuel *)
    rewrite (parse_menu_out_of_fuel _ _ _ _ _ Hname Hrest Hcomment). munfold.
    destruct (append_submenu_inv hmenu (escape_title (entry_name text)) w
                Hinv Hh Hw1) as (Hi & Hn & Hl & _).
    destruct (append_submenu hmenu (escape_title (entry_name text)) w)
      as [[sub id] w1]. cbn [fst snd] in *.
    split; [done|]. split; [lia|done].
  - (* descent *)
    rewrite (parse_menu_descend _ _ _ _ _ _ Hname Hrest Hcomment). munfold.
    destruct (append_submenu_inv hmenu (escape_title (entry_name text)) w
                Hinv Hh Hw1) as (Hi & Hn & Hl & Hsub & _).
    destruct (append_submenu hmenu (escape_title (entry_name text)) w)
      as [[sub id] w1]. cbn [fst snd] in *.
    assert (Hlt : (len (entry_rest text) < len text)%nat)
      by (apply len_entry_rest_lt; lia).
    destruct (IH sub (entry_rest text) w1 Hi Hsub) as (Hi2 & Hn2 & Hl2); [lia|].
    unfold run in *. split; [done|]. split; lia.
Qed.

End ParserKeepsInvariants.

(* ===================================================================== *)
(** * [load_menu] establishes the invariants; the fuel is enough *)
(* ===================================================================== *)

Section LoadMenu.

Lemma parse_step_ok_refl w n : parse_inv w → parse_step_ok w w n.
Proof. intros H. split; [done|]. split; [lia|done]. Qed.

Lemma parse_step_ok_trans w1 w2 w3 n m :
  parse_step_ok w1 w2 n → parse_step_ok w2 w3 m →
  parse_step_ok w1 w3 (n + m).
Proof.
  intros (_ & Hn1 & Hl1) (Hi & Hn2 & Hl2). split; [done|]. split; lia.
Qed.

Lemma load_line_inv hmenu uosc line w :
  parse_inv w → (hmenu < length (menus w))%nat →
  next_id w + Z.of_nat (len line) < UINT_MOD →
  parse_step_ok w (run (load_line hmenu uosc line) w) (len line).
Proof.
  intros Hinv Hh Hw. unfold load_line.
  destruct (line_fields uosc line) as [[key cmd]|] eqn:Hf;
    [|by apply parse_step_ok_refl].
  destruct (split_menu cmd uosc) as [[left_ right_]|] eqn:Hs;
    [|by apply parse_step_ok_refl].
  pose proof (len_line_fields_le _ _ _ _ Hf).
  pose proof (len_split_menu_le _ _ _ _ Hs).
  apply (parse_step_ok_weaken _ _ (len right_)); [lia|].
  apply parse_menu_inv; try done. lia.
Qed.

Lemma load_loop_inv fuel hmenu uosc data w :
  parse_inv w → (hmenu < length (menus w))%nat →
  next_id w + Z.of_nat (len data) < UINT_MOD →
  parse_step_ok w (run (load_loop fuel hmenu uosc data) w) (len data).
Proof.
  revert data w. induction fuel as [|fuel IH]; intros data w Hinv Hh Hw;
    [by apply parse_step_ok_refl|].
  cbn [load_loop]. destruct (0 <? len data)%nat;
    [|by apply parse_step_ok_refl].
  pose proof (len_getline data) as Hlen.
  destruct (bstr_getline data) as [line rest]. cbn [fst snd] in Hlen.
  munfold.
  pose proof (load_line_inv hmenu uosc line w Hinv Hh) as H1.
  unfold run in H1.
  destruct (load_line hmenu uosc line w) as [[] w1]. cbn [snd] in H1.
  destruct H1 as (Hi1 & Hn1 & Hl1); [lia|].
  rewrite <- Hlen. apply (parse_step_ok_trans w w1); [by split|].
  apply IH; [done|lia|lia].
Qed.

(** The world [load_menu] starts from: the root menu, empty. *)
Lemma parse_inv_root :
  parse_inv {| menus := [[]]; next_id := WM_USER + 100; dyn_menus := [] |}.
Proof.
  assert (Hnone : ∀ loc, item_at [[]] loc = None).
  { intros [[|h] p]; cbn; [apply lookup_nil|done]. }
  split; unfold ids_below, ids_unique; cbn [menus next_id dyn_menus];
    try (intros; rewrite Hnone in *; done); [done|constructor].
Qed.

Theorem load_menu_parse_inv uosc file :
  WM_USER + 100 + Z.of_nat (len (bstr0 file)) < UINT_MOD →
  parse_inv (run (load_menu uosc file) world0)
  ∧ (load_menu uosc file world0).1 = 0%nat
  ∧ (0 < length (menus (run (load_menu uosc file) world0)))%nat.
Proof.
  intros Hw. unfold load_menu, world0, CreatePopupMenu. munfold.
  cbn [menus next_id dyn_menus length app].
  pose proof (load_loop_inv (len (bstr0 file)) 0%nat uosc (bstr0 file)
                _ parse_inv_root) as H.
  unfold run in H.
  destruct (load_loop _ _ _ _ _) as [[] w1]. cbn [fst snd] in *.
  destruct H as (Hi & _ & Hl); [cbn; lia|done|].
  split; [done|]. split; [done|]. cbn in Hl. lia.
Qed.

(** Every loaded menu satisfies the invariants a rebuild pass needs. *)
Theorem load_menu_pass_inv uosc file :
  WM_USER + 100 + Z.of_nat (len (bstr0 file)) < UINT_MOD →
  pass_inv (run (load_menu uosc file) world0).
Proof. intros Hw. by apply parse_inv_pass_inv, load_menu_parse_inv. Qed.



End LoadMenu.

(* ===================================================================== *)
(** * The depth of the search *)
(* ===================================================================== *)

Section SearchDepth.

(** Handles grow along the nesting: a submenu was made after the menu that
    holds the row opening it. *)
Definition ranked (ms : store) : Prop :=
  ∀ loc it s, item_at ms loc = Some it → item_submenu it = Some s →
              (loc.1 < s)%nat.

Lemma scan_items_ext search1 search2 h id items pos fallback :
  Forall (λ it, ∀ s, item_submenu it = Some s → search1 s = search2 s) items →
  scan_items search1 h id items pos fallback
  = scan_items search2 h id items pos fallback.
Proof.
  intros H. revert pos fallback.
  induction H as [|it items Hit _ IH]; intros pos fallback; [done|].
  cbn [scan_items]. destruct (item_submenu it) as [s|]; [|by rewrite IH].
  rewrite (Hit s eq_refl). destruct (search2 s); [done|apply IH].
Qed.

(** In a ranked store the search from [h] descends through fewer menus
    than there are handles from [h] on. *)
Lemma find_item_fuel ms h id fuel1 fuel2 :
  ranked ms → (length ms - h ≤ fuel1)%nat → (length ms - h ≤ fuel2)%nat →
  find_item fuel1 ms h id = find_item fuel2 ms h id.
Proof.
  intros Hr. revert fuel2 h.
  induction fuel1 as [|fuel1 IH]; intros fuel2 h H1 H2.
  - destruct fuel2 as [|fuel2]; [done|]. cbn [find_item].
    by rewrite (proj2 (lookup_ge_None ms h)) by lia.
  - destruct fuel2 as [|fuel2]; cbn [find_item].
    + by rewrite (proj2 (lookup_ge_None ms h)) by lia.
    + apply scan_items_ext, Forall_lookup. intros p it Hp s Hs.
      assert (Hit : item_at ms (h, p) = Some it) by (by rewrite item_at_lookup).
      pose proof (Hr _ _ _ Hit Hs) as Hlt. cbn [fst] in Hlt.
      apply IH; lia.
Qed.

(** The fuel of [find_by_command] is enough: more fuel finds the same. *)
Theorem find_by_command_fuel ms h id fuel :
  ranked ms → (length ms ≤ fuel)%nat →
  find_item fuel ms h id = find_by_command ms h id.
Proof. intros Hr Hf. apply find_item_fuel; [done|lia..]. Qed.

Lemma parse_inv_ranked w : parse_inv w → ranked (menus w).
Proof. intros Hinv loc it s Hit Hs. by apply (pinv_subs _ Hinv loc it s). Qed.

(** Every loaded menu is ranked. *)
Theorem load_menu_ranked uosc file :
  WM_USER + 100 + Z.of_nat (len (bstr0 file)) < UINT_MOD →
  ranked (menus (run (load_menu uosc file) world0)).
Proof. intros Hw. by apply parse_inv_ranked, load_menu_parse_inv. Qed.

Lemma state_changed_ranked ms ms' :
  state_changed ms ms' → ranked ms → ranked ms'.
Proof.
  intros Hst Hr loc it' s Hit' Hs.
  destruct (state_changed_item_at _ _ _ _ Hst Hit')
    as (it & Hit & _ & _ & _ & Hsub & _).
  apply (Hr loc it); congruence.
Qed.

Lemma number_leaf id rows :
  Forall leaf_row rows → Forall leaf_row (number id rows).
Proof.
  intros H. revert id. induction H as [|r rows Hr _ IH]; intros id;
    cbn [number]; by constructor.
Qed.

(** A rebuild keeps the store ranked: the rows it makes open no submenu. *)
Lemma rebuilt_ranked ctx e w :
  (dyn_hmenu e < length (menus w))%nat →
  ranked (menus w) → ranked (menus (rebuilt ctx e w)).
Proof.
  intros Hh Hr. rewrite (rebuilt_eq ctx e w Hh). cbn [menus].
  eapply state_changed_ranked; [apply EnableMenuItem_state_changed|].
  intros [h p] it s. rewrite item_at_lookup.
  destruct (decide (h = dyn_hmenu e)) as [->|Hne].
  - rewrite list_lookup_insert_eq by done. cbn. intros Hit Hs.
    pose proof (number_leaf (next_id w) _
                  (rows_of_leaf (dyn_update e) (ctx_state ctx))) as Hl.
    rewrite Forall_lookup in Hl. specialize (Hl _ _ Hit).
    unfold leaf_row in Hl. congruence.
  - rewrite list_lookup_insert_ne by done. rewrite <- item_at_lookup.
    apply Hr.
Qed.

Lemma dyn_menu_loop_ranked ctx entries w :
  Forall (λ e, dyn_hmenu e < length (menus w))%nat entries →
  ranked (menus w) →
  ranked (menus (run (dyn_menu_loop ctx entries) w)).
Proof.
  revert w. induction entries as [|e entries IH]; intros w He Hr; [done|].
  apply Forall_cons in He as [He Hes].
  rewrite (dyn_menu_loop_cons _ _ _ _ He). apply IH.
  - eapply Forall_impl; [exact Hes|]. intros e' He'.
    change (dyn_hmenu e' < length (menus (rebuilt ctx e w)))%nat.
    rewrite (rebuilt_eq ctx e w He). cbn [menus].
    by rewrite EnableMenuItem_length, length_insert.
  - by apply rebuilt_ranked.
Qed.

(** Every pass of [dyn_menu_update] keeps the store ranked, so the fuel
    of the search stays enough from one opening of the menu to the next. *)
Theorem dyn_menu_update_ranked ctx w :
  pass_inv w → ranked (menus w) →
  ranked (menus (run (dyn_menu_update ctx) w)).
Proof.
  intros Hinv Hr. unfold dyn_menu_update, run.
  apply dyn_menu_loop_ranked; [|done].
  eapply Forall_impl; [apply (inv_entries _ Hinv)|]. by intros e [He _].
Qed.

End SearchDepth.

(* ===================================================================== *)
(** * Instances on loaded menus *)
(* ===================================================================== *)

Section Instances.

Definition audio_menu : world :=
  run (load_menu false (Some "a #menu: Tracks #@tracks/audio")) world0.

Definition two_track_ctx : plugin_ctx :=
  {| ctx_hmenu := 0%nat; ctx_state := two_track_state; ctx_uosc := false |}.

Lemma audio_menu_inv : pass_inv audio_menu.
Proof. apply load_menu_pass_inv. vm_compute. reflexivity. Defined.

Lemma rebuild_leaves_no_residue_witness :
  let w2 := run (dyn_menu_update two_track_ctx)
              (run (dyn_menu_update (example_ctx false)) audio_menu) in
  menus w2 !! 1%nat
  = Some (number (WM_USER + 101) (rows_of audio_track two_track_state)).
Proof.
  intros w2.
  pose proof (rebuild_leaves_no_residue (example_ctx false) two_track_ctx
                audio_menu []
                {| dyn_hmenu := 1; dyn_id := WM_USER + 100;
                   dyn_update := audio_track |} []
                audio_menu_inv) as H.
  destruct H as [H _]; [vm_compute; reflexivity|reflexivity|constructor|].
  exact H.
Defined.

Definition subtitles_menu : world :=
  run (load_menu false (Some "b #menu: Subtitles #@tracks/sub")) world0.

Lemma subtitles_menu_inv : pass_inv subtitles_menu.
Proof. apply load_menu_pass_inv. vm_compute. reflexivity. Defined.

Lemma parent_enabled_iff_rows_witness :
  let w' := run (dyn_menu_update (example_ctx false)) subtitles_menu in
  is_enabled (submenu_item (WM_USER + 100) "Subtitles" 1) = true
  ↔ 0 < GetMenuItemCount (menus w') 1.
Proof.
  intros w'.
  pose proof (parent_enabled_iff_rows (example_ctx false) subtitles_menu
                subtitles_menu_inv) as H.
  destruct H as [H _]; [vm_compute; reflexivity|].
  apply (H {| dyn_hmenu := 1; dyn_id := WM_USER + 100;
              dyn_update := sub_track |} (0%nat, 0%nat)).
  - vm_compute. constructor.
  - vm_compute. reflexivity.
  - vm_compute. reflexivity.
Defined.

End Instances.

(* ===================================================================== *)
(** * Registration by keyword *)
(* ===================================================================== *)

Section Registration.

(** A pass changes the number of rows of the submenus of the registry
    only. *)
Lemma dyn_menu_loop_count ctx entries w h :
  Forall (λ e, (dyn_hmenu e < length (menus w))%nat ∧ dyn_hmenu e ≠ h) entries →
  GetMenuItemCount (menus (run (dyn_menu_loop ctx entries) w)) h
  = GetMenuItemCount (menus w) h.
Proof.
  revert w. induction entries as [|e entries IH]; intros w He; [done|].
  apply Forall_cons in He as [[Hh Hne] Hes].
  rewrite (dyn_menu_loop_cons _ _ _ _ Hh).
  assert (Hl : length (menus (rebuilt ctx e w)) = length (menus w)).
  { rewrite (rebuilt_eq ctx e w Hh). cbn [menus].
    by rewrite EnableMenuItem_length, length_insert. }
  rewrite IH.
  - rewrite (rebuilt_eq ctx e w Hh). cbn [menus].
    rewrite (state_changed_count _ _ _ (EnableMenuItem_state_changed _ _ _ _)).
    unfold GetMenuItemCount. by rewrite list_lookup_insert_ne.
  - eapply Forall_impl; [exact Hes|]. intros e' [? ?].
    split; [by rewrite Hl|done].
Qed.

End Registration.

(* ===================================================================== *)
(** * [escape_title] on every title *)
(* ===================================================================== *)

Section EscapeRuns.

(** [squeeze in_run s]: the text [s] in which every run of separators (the
    character ['&'], and a NUL) is replaced by one ["&&"]; a run that is
    under way when [in_run] holds is dropped. *)
Fixpoint squeeze (in_run : bool) (s : string) : string :=
  match s with
  | EmptyString => EmptyString
  | String c s' =>
      if strchr "&" c then
        if in_run then squeeze true s'
        else String "&" (String "&" (squeeze true s'))
      else String c (squeeze false s')
  end.

Lemma squeeze_token s :
  squeeze false s
  = (bstr_splice0 s (bstrcspn s "&")
     ++ squeeze false (bstr_cut s (bstrcspn s "&")))%string.
Proof.
  induction s as [|c s IH]; [done|]. cbn [bstrcspn].
  destruct (strchr "&" c) eqn:Hc; [done|].
  cbn [bstr_splice0 bstr_cut squeeze]. rewrite Hc. cbn. by rewrite <- IH.
Qed.

Lemma squeeze_skip s : squeeze true s = squeeze false (skip_seps s "&").
Proof.
  induction s as [|c s IH]; [done|]. cbn [squeeze skip_seps].
  destruct (strchr "&" c) eqn:Hc; [done|]. cbn [squeeze]. by rewrite Hc.
Qed.

Lemma cut_cspn_at_separator s sep :
  at_separator sep (bstr_cut s (bstrcspn s sep)).
Proof.
  induction s as [|c s IH]; [by left|]. cbn [bstrcspn].
  destruct (strchr sep c) eqn:Hc; [|done]. right. by exists c, s.
Qed.

Lemma escape_loop_squeeze fuel escaped left_ rest :
  (len rest ≤ fuel)%nat → at_separator "&" rest →
  escape_loop fuel escaped left_ rest
  = (escaped ++ left_ ++ squeeze false rest)%string.
Proof.
  revert escaped left_ rest.
  induction fuel as [|fuel IH]; intros escaped left_ rest Hf Hsep.
  - destruct rest; [|cbn in Hf; lia]. cbn. by rewrite append_empty_r.
  - cbn [escape_loop].
    destruct Hsep as [->|(c & t & -> & Hc)]; [cbn; by rewrite append_empty_r|].
    change (0 <? len (String c t))%nat with true. cbv iota.
    unfold bstr_split. cbn [skip_seps squeeze]. rewrite Hc.
    pose proof (len_skip_seps_le t "&") as H1.
    pose proof (len_cut_le (skip_seps t "&") (bstrcspn (skip_seps t "&") "&"))
      as H2.
    rewrite IH; [|unfold len in *; cbn in Hf; lia|apply cut_cspn_at_separator].
    rewrite squeeze_skip, (squeeze_token (skip_seps t "&")), !append_assoc3.
    reflexivity.
Qed.

(** X2.  [escape_title], for every title: the separators the title starts with
    are dropped, and every later run of separators becomes one ["&&"],
    however long the run is. *)
Theorem escape_title_squeezes title : escape_title title = squeeze true title.
Proof.
  unfold escape_title, bstr_split.
  pose proof (len_skip_seps_le title "&") as H1.
  pose proof (len_cut_le (skip_seps title "&")
                (bstrcspn (skip_seps title "&") "&")) as H2.
  rewrite escape_loop_squeeze; [|lia|apply cut_cspn_at_separator].
  by rewrite squeeze_skip, (squeeze_token (skip_seps title "&")).
Qed.

(** An instance of [escape_title_isolated]. *)
Lemma escape_title_isolated_witness :
  escape_title "Save & Quit" = "Save && Quit".
Proof.
  transitivity (double_ampersands "Save & Quit"); [|reflexivity].
  apply (escape_title_isolated "Save & Quit"); reflexivity.
Defined.

End EscapeRuns.

(* ===================================================================== *)
(** * Submenus by title: [find_submenu] and [append_submenu] *)
(* ===================================================================== *)

Section Submenus.

(** The test of [find_submenu] on one row: a text that is not empty, a
    submenu, and the text is [name]. *)
Definition accepts (name : string) (it : MENUITEM) : bool :=
  match item_text it, item_submenu it with
  | Some text, Some _ => negb (String.length text =? 0)%nat && String.eqb text name
  | _, _ => false
  end.

Lemma find_submenu_in_cons it items name :
  find_submenu_in (it :: items) name
  = if accepts name it
    then (λ sub, (sub, item_id it)) <$> item_submenu it
    else find_submenu_in items name.
Proof.
  cbn [find_submenu_in]. unfold accepts.
  destruct (item_text it) as [text|]; [|done].
  destruct (item_submenu it) as [sub|]; [|done].
  by destruct (_ && _).
Qed.

Lemma accepts_spec name it :
  accepts name it = true
  ↔ item_text it = Some name ∧ name ≠ "" ∧ is_Some (item_submenu it).
Proof.
  unfold accepts. destruct (item_text it) as [text|], (item_submenu it) as [sub|];
    try (split; [done|]; intros (? & ? & [? ?]); done).
  rewrite andb_true_iff, negb_true_iff, Nat.eqb_neq, String.eqb_eq. split.
  - intros [Hlen ->]. split; [done|]. split; [|eauto].
    intros ->. by apply Hlen.
  - intros ([= ->] & Hne & _). split; [|done]. by destruct name.
Qed.

Lemma find_submenu_in_first items name sub id :
  find_submenu_in items name = Some (sub, id)
  ↔ ∃ p it, items !! p = Some it ∧ accepts name it = true
            ∧ item_submenu it = Some sub ∧ item_id it = id
            ∧ ∀ q it', (q < p)%nat → items !! q = Some it' →
                       accepts name it' = false.
Proof.
  induction items as [|x items IH].
  - split; [done|]. by intros (p & it & Hp & _).
  - rewrite find_submenu_in_cons. destruct (accepts name x) eqn:Hx.
    + split.
      * destruct (item_submenu x) as [s|] eqn:Hs; [|done]. intros [= <- <-].
        exists 0%nat, x. repeat split; try done. intros q it' Hq. lia.
      * intros (p & it & Hp & Hacc & Hsub & Hid & Hfirst).
        destruct p as [|p].
        -- injection Hp as <-. by rewrite Hsub, <- Hid.
        -- rewrite (Hfirst 0%nat x) in Hx; [done|lia|done].
    + rewrite IH. split.
      * intros (p & it & Hp & Hacc & Hsub & Hid & Hfirst).
        exists (S p), it. repeat split; try done.
        intros [|q] it' Hq Hit'; [by injection Hit' as <-|].
        apply (Hfirst q); [lia|done].
      * intros (p & it & Hp & Hacc & Hsub & Hid & Hfirst).
        destruct p as [|p]; [injection Hp as <-; congruence|].
        exists p, it. repeat split; try done.
        intros q it' Hq Hit'. apply (Hfirst (S q)); [lia|done].
Qed.

(** X3.  [find_submenu] returns the submenu and the identifier of the first
    row of [hmenu] that has the title [name] and opens a submenu, and
    nothing else: a row without a submenu, an empty title and a handle
    that is no menu are never a match. *)
Theorem find_submenu_first_match hmenu name w sub id :
  find_submenu hmenu name w = (Some (sub, id), w)
  ↔ ∃ items p it,
      menus w !! hmenu = Some items ∧ items !! p = Some it
      ∧ item_text it = Some name ∧ name ≠ ""
      ∧ item_submenu it = Some sub ∧ item_id it = id
      ∧ ∀ q it', (q < p)%nat → items !! q = Some it' →
                 ¬ (item_text it' = Some name ∧ is_Some (item_submenu it')).
Proof.
  unfold find_submenu. munfold. split.
  - intros [= H]. apply find_submenu_in_first in H
      as (p & it & Hp & Hacc & Hsub & Hid & Hfirst).
    destruct (menus w !! hmenu) as [items|]; [|cbn in Hp; done].
    apply accepts_spec in Hacc as (Htext & Hne & _).
    exists items, p, it. repeat split; try done.
    intros q it' Hq Hit' [Ht Hs].
    assert (accepts name it' = true) by (by apply accepts_spec).
    rewrite (Hfirst q it' Hq Hit') in *. done.
  - intros (items & p & it & Hm & Hp & Htext & Hne & Hsub & Hid & Hfirst).
    rewrite Hm. cbn [default from_option]. unfold Datatypes.id.
    f_equal. apply find_submenu_in_first. exists p, it.
    repeat split; try done.
    + apply accepts_spec. rewrite Hsub. eauto.
    + intros q it' Hq Hit'. destruct (accepts name it') eqn:Hacc; [|done].
      apply accepts_spec in Hacc as (Ht & _ & Hs).
      destruct (Hfirst q it' Hq Hit'). done.
Qed.

Lemma find_submenu_in_snoc items title id sub :
  find_submenu_in items title = None → title ≠ "" →
  find_submenu_in (items ++ [submenu_item id title sub])%list title
  = Some (sub, id).
Proof.
  intros Hnone Hne. induction items as [|x items IH].
  - cbn [app]. rewrite find_submenu_in_cons.
    replace (accepts title (submenu_item id title sub)) with true; [done|].
    symmetry. apply accepts_spec. cbn. eauto.
  - cbn [app]. rewrite find_submenu_in_cons in Hnone |- *.
    destruct (accepts title x) eqn:Hx; [|auto].
    apply accepts_spec in Hx as (_ & _ & [s Hs]). by rewrite Hs in Hnone.
Qed.

Lemma find_submenu_in_untitled items : find_submenu_in items "" = None.
Proof.
  induction items as [|x items IH]; [done|]. rewrite find_submenu_in_cons.
  destruct (accepts "" x) eqn:Hx; [|done].
  by apply accepts_spec in Hx as (_ & ? & _).
Qed.

(** X4.  [append_submenu] is idempotent for a title that is not empty: the
    second call finds the submenu the first call found or made, returns
    the same handle and identifier, and changes nothing (no menu, no row,
    no identifier taken). *)
Theorem append_submenu_idempotent hmenu title w items :
  menus w !! hmenu = Some items → title ≠ "" →
  let r := append_submenu hmenu title w in
  append_submenu hmenu title r.2 = r.
Proof.
  intros Hm Hne r. subst r.
  destruct (find_submenu_in items title) as [[sub id]|] eqn:Hf.
  - rewrite (append_submenu_found _ _ _ _ _ _ Hm Hf). cbn [snd].
    by rewrite (append_submenu_found _ _ _ _ _ _ Hm Hf).
  - rewrite (append_submenu_new _ _ _ _ Hm Hf). cbn [snd].
    assert (Hh : (hmenu < length (menus w))%nat) by (by eapply lookup_lt_Some).
    erewrite append_submenu_found; [|apply list_lookup_insert_eq;
      rewrite length_app; cbn; lia|by apply find_submenu_in_snoc].
    reflexivity.
Qed.

Lemma append_submenu_idempotent_witness :
  let w := run (load_menu false (Some "k quit #menu: File > Quit")) world0 in
  append_submenu 0%nat "File" (append_submenu 0%nat "File" w).2
  = append_submenu 0%nat "File" w.
Proof.
  intros w.
  apply (append_submenu_idempotent 0%nat "File" w
           [submenu_item (WM_USER + 100) "File" 1] eq_refl).
  discriminate.
Defined.

(** X5.  A submenu with an empty title is never found again: [find_submenu]
    skips the rows whose text is empty, so every call of [append_submenu]
    with the empty title makes a new menu and a new row. *)
Theorem append_submenu_untitled hmenu w items :
  menus w !! hmenu = Some items →
  append_submenu hmenu "" w
  = ((length (menus w), to_int (next_id w)), with_submenu hmenu items "" w).
Proof.
  intros Hm. apply append_submenu_new; [done|apply find_submenu_in_untitled].
Qed.

Lemma append_submenu_untitled_witness :
  let w := run (load_menu false (Some "k quit #menu: & > Quit")) world0 in
  length (menus w) = 2%nat
  ∧ (append_submenu 0%nat (escape_title "&") w).1.1 = 2%nat.
Proof.
  intros w. split; [reflexivity|].
  change (escape_title "&") with "".
  by rewrite (append_submenu_untitled 0%nat w
                [submenu_item (WM_USER + 100) "" 1] eq_refl).
Defined.

End Submenus.

(* ===================================================================== *)
(** * [handle_menu]: which command an identifier dispatches *)
(* ===================================================================== *)

Section HandleMenu.

(** X6.  [handle_menu] passes to [mp_command_async] only a command that some
    row of the store binds under the identifier it was called with: for an
    identifier that no row carries, and for a row without a command (a
    separator, a row that opens a submenu), nothing is dispatched. *)
Theorem handle_menu_sound ctx id w cmd :
  handle_menu ctx id w = Some cmd →
  ∃ loc it, item_at (menus w) loc = Some it
            ∧ item_id it = id ∧ item_data it = Some cmd.
Proof.
  unfold handle_menu, GetMenuItemInfo_by_command, find_by_command.
  destruct (find_item _ _ _ _) as [loc|] eqn:Hf; [|done]. cbn.
  destruct (find_item_sound _ _ _ _ _ Hf) as (it & Hit & Hid).
  rewrite Hit. cbn. intros Hdata. by exists loc, it.
Qed.

Lemma handle_menu_sound_witness :
  let w := run (load_menu false (Some "k show-text hi #menu: Greet")) world0 in
  ∃ loc it, item_at (menus w) loc = Some it
            ∧ item_id it = WM_USER + 100
            ∧ item_data it = Some "show-text hi #menu: Greet".
Proof.
  intros w.
  apply (handle_menu_sound (example_ctx false) (WM_USER + 100) w).
  reflexivity.
Defined.

(** The menu [h'] lies below the menu [h]: a chain of rows, each opening
    the submenu that holds the next, leads from [h] to [h']. *)
Inductive reachable (ms : store) : HMENU → HMENU → Prop :=
  | reach_here h : reachable ms h h
  | reach_step h p it s h' :
      item_at ms (h, p) = Some it → item_submenu it = Some s →
      reachable ms s h' → reachable ms h h'.

Lemma scan_items_fallback search h id items pos loc :
  is_Some (scan_items search h id items pos (Some loc)).
Proof.
  revert pos loc. induction items as [|x items IH]; intros pos loc;
    cbn [scan_items]; [eauto|].
  destruct (item_submenu x) as [s|].
  - destruct (search s); [eauto|]. destruct (item_id x =? id); apply IH.
  - destruct (item_id x =? id); [eauto|apply IH].
Qed.

(** The scan finds something as soon as one row carries the identifier,
    or opens a submenu in which the descent finds something. *)
Lemma scan_items_hit search h id items pos fallback q x :
  items !! q = Some x →
  item_id x = id ∨ (∃ s, item_submenu x = Some s ∧ is_Some (search s)) →
  is_Some (scan_items search h id items pos fallback).
Proof.
  revert q pos fallback.
  induction items as [|y items IH]; intros q pos fallback Hq Hhit; [done|].
  cbn [scan_items]. destruct q as [|q].
  - injection Hq as ->. destruct (item_submenu x) as [s|] eqn:Hs.
    + destruct (search s) eqn:Hsearch; [eauto|].
      destruct Hhit as [->|(s' & [= <-] & Hsome)].
      * rewrite Z.eqb_refl. apply scan_items_fallback.
      * rewrite Hsearch in Hsome. by destruct Hsome.
    + destruct Hhit as [->|(s' & ? & _)]; [|done].
      rewrite Z.eqb_refl. eauto.
  - destruct (item_submenu y) as [s|].
    + destruct (search s); [eauto|]. by apply (IH q).
    + destruct (item_id y =? id); [eauto|]. by apply (IH q).
Qed.

Lemma find_item_reaches ms root h p it :
  ranked ms → reachable ms root h → item_at ms (h, p) = Some it →
  ∀ fuel, (length ms - root ≤ fuel)%nat →
          is_Some (find_item fuel ms root (item_id it)).
Proof.
  intros Hr Hreach Hit. induction Hreach as [h|h p0 it0 s h' H0 Hs _ IH];
    intros fuel Hf.
  - assert (Hh : (h < length ms)%nat).
    { rewrite item_at_lookup in Hit. destruct (ms !! h) eqn:E;
        [by eapply lookup_lt_Some|cbn in Hit; done]. }
    destruct fuel as [|fuel]; [lia|]. cbn [find_item].
    rewrite item_at_lookup in Hit.
    eapply scan_items_hit; [exact Hit|by left].
  - assert (Hh : (h < length ms)%nat).
    { rewrite item_at_lookup in H0. destruct (ms !! h) eqn:E;
        [by eapply lookup_lt_Some|cbn in H0; done]. }
    pose proof (Hr _ _ _ H0 Hs) as Hlt. cbn [fst] in Hlt.
    destruct fuel as [|fuel]; [lia|]. cbn [find_item].
    rewrite item_at_lookup in H0.
    eapply scan_items_hit; [exact H0|]. right. exists s. split; [done|].
    apply IH; [done|lia].
Qed.

(** In a store with unique identifiers, the search by command identifier
    ends at the row that carries it, wherever below the root it lies. *)
Lemma find_by_command_unique ms root h p it :
  ids_unique ms → ranked ms → reachable ms root h →
  item_at ms (h, p) = Some it →
  find_by_command ms root (item_id it) = Some (h, p).
Proof.
  intros Hu Hr Hreach Hit. unfold find_by_command.
  destruct (find_item_reaches ms root h p it Hr Hreach Hit (length ms))
    as [loc Hf]; [lia|].
  rewrite Hf. f_equal.
  destruct (find_item_sound _ _ _ _ _ Hf) as (x & Hx & Hid).
  by apply (Hu loc (h, p) x it).
Qed.

Lemma dispatch_unique ctx w h p it :
  ids_unique (menus w) → ranked (menus w) →
  reachable (menus w) (ctx_hmenu ctx) h →
  item_at (menus w) (h, p) = Some it →
  handle_menu ctx (item_id it) w = item_data it.
Proof.
  intros Hu Hr Hreach Hit. unfold handle_menu, GetMenuItemInfo_by_command.
  rewrite (find_by_command_unique _ _ _ _ _ Hu Hr Hreach Hit). cbn.
  by rewrite Hit.
Qed.

(** X7.  Activating a row dispatches the command of that very row: when the
    identifiers of the store are unique and handles grow along the
    nesting, [handle_menu], called with the identifier of a row that lies
    anywhere below the root menu, passes on the command this row binds,
    and nothing when the row binds none. *)
Theorem handle_menu_dispatches ctx w h p it :
  ids_unique (menus w) → ranked (menus w) →
  reachable (menus w) (ctx_hmenu ctx) h →
  item_at (menus w) (h, p) = Some it →
  handle_menu ctx (item_id it) w = item_data it.
Proof. apply dispatch_unique. Qed.

End HandleMenu.

(* ===================================================================== *)
(** * The actions of the tree builder *)
(* ===================================================================== *)

Section Building.

(** What [load_menu] does to the program state, one action at a time: a
    row is appended under the identifier of the counter ([append_menu]),
    a row is appended and then grayed through its identifier (a leaf
    without a command), a submenu is made with the row that opens it
    ([append_submenu]), an entry is added to the registry
    ([add_dyn_menu]).  The counter does not wrap around in an action. *)
Inductive build_step : world → world → Prop :=
  | build_row w hmenu items it :
      menus w !! hmenu = Some items → item_id it = next_id w →
      item_submenu it = None → next_id w + 1 < UINT_MOD →
      build_step w (appended hmenu items it w)
  | build_row_gray w hmenu items it flags :
      menus w !! hmenu = Some items → item_id it = next_id w →
      item_submenu it = None → next_id w + 1 < UINT_MOD →
      let w1 := appended hmenu items it w in
      build_step w
        (set_menus (EnableMenuItem (menus w1) hmenu (next_id w) flags) w1)
  | build_submenu w hmenu items title :
      menus w !! hmenu = Some items → next_id w + 1 < UINT_MOD →
      build_step w (with_submenu hmenu items title w)
  | build_register w sub id u :
      build_step w (registered sub id u w).

Definition built : world → world → Prop := rtc build_step.

Lemma to_int_positive x :
  0 ≤ x < UINT_MOD → 0 < to_int x → to_int x = x.
Proof.
  intros Hx. unfold to_int. rewrite (to_uint_small x Hx).
  destruct (x <? 2 ^ 31); [done|]. unfold UINT_MOD in *. lia.
Qed.

Lemma append_submenu_built hmenu title w items :
  menus w !! hmenu = Some items → next_id w + 1 < UINT_MOD →
  built w (append_submenu hmenu title w).2.
Proof.
  intros Hm Hw. destruct (find_submenu_in items title) as [[sub id]|] eqn:Hf.
  - rewrite (append_submenu_found _ _ _ _ _ _ Hm Hf). apply rtc_refl.
  - rewrite (append_submenu_new _ _ _ _ Hm Hf). apply rtc_once.
    by constructor.
Qed.

(** [parse_menu] is a sequence of actions of the builder. *)
Lemma parse_menu_built fuel hmenu key cmd text uosc w :
  parse_inv w → (hmenu < length (menus w))%nat →
  next_id w + Z.of_nat (len text) < UINT_MOD →
  built w (run (parse_menu fuel hmenu key cmd text uosc) w).
Proof.
  revert hmenu text w. induction fuel as [|fuel IH];
    intros hmenu text w Hinv Hh Hw;
    pose proof (pinv_counter _ Hinv) as H0;
    pose proof (len_entry_name_le text) as Hlen;
    destruct (lookup_lt_is_Some_2 _ _ Hh) as [items Hm];
    (destruct (len (entry_name text) =? 0)%nat eqn:Hname;
     [rewrite (parse_menu_empty _ _ _ _ _ _ Hname); apply rtc_refl|]);
    apply Nat.eqb_neq in Hname as Hname';
    assert (Hw1 : next_id w + 1 < UINT_MOD) by lia;
    (destruct (len (entry_rest text) =? 0)%nat eqn:Hrest;
     [destruct (is_seprarator (entry_name text) uosc) eqn:Hsep;
      [rewrite (parse_menu_separator_world _ hmenu key cmd text uosc w
                  items Hrest Hsep Hm); apply rtc_once; by constructor|];
      destruct (bstr_eatstart0 (entry_comment text) MENU_PREFIX_DYN)
        as [c|] eqn:Hdyn;
      [rewrite (parse_menu_dyn _ _ _ _ _ _ _ Hname Hrest Hsep Hdyn); munfold;
       pose proof (append_submenu_built hmenu (escape_title (entry_name text))
                     w items Hm Hw1) as Hb;
       destruct (append_submenu hmenu (escape_title (entry_name text)) w)
         as [[sub id] w1]; cbn [fst snd] in *;
       destruct ((0 <? id) && (0 <? len c)%nat); [|exact Hb];
       destruct (add_dyn_menu_cases sub id (dyn_keyword c) w1)
         as [->|[u ->]]; cbn [snd]; [exact Hb|];
       eapply rtc_r; [exact Hb|constructor]
      |rewrite (parse_menu_leaf _ _ _ _ _ _ Hname Hrest Hsep Hdyn); munfold;
       rewrite (append_menu_spec _ _ _ _ _ _ _ _ _ Hm), new_item_row;
       destruct (0 <? to_int (next_id w)) eqn:Hpos; cbn [andb];
       [destruct ((len cmd =? 0)%nat || bstr_startswith0 cmd "#")|];
       cbn [snd]; apply rtc_once;
       [rewrite to_int_positive
          by (first [apply Z.ltb_lt; exact Hpos|unfold UINT_MOD in *; lia]);
        by apply (build_row_gray w hmenu items
                    (command_item (next_id w) 0
                       (format_title (entry_name text) key) cmd))
       |by constructor|by constructor]]
     |]);
    (destruct (len (entry_comment text) =? 0)%nat eqn:Hcomment;
     [|rewrite (parse_menu_branch_comment _ _ _ _ _ _ Hname Hrest Hcomment);
       munfold;
       pose proof (append_submenu_built hmenu (escape_title (entry_name text))
                     w items Hm Hw1) as Hb;
       by destruct (append_submenu hmenu (escape_title (entry_name text)) w)
         as [[sub id] w1]]).
  - rewrite (parse_menu_out_of_fuel _ _ _ _ _ Hname Hrest Hcomment). munfold.
    pose proof (append_submenu_built hmenu (escape_title (entry_name text))
                  w items Hm Hw1) as Hb.
    by destruct (append_submenu hmenu (escape_title (entry_name text)) w)
      as [[sub id] w1].
  - rewrite (parse_menu_descend _ _ _ _ _ _ Hname Hrest Hcomment). munfold.
    pose proof (append_submenu_built hmenu (escape_title (entry_name text))
                  w items Hm Hw1) as Hb.
    destruct (append_submenu_inv hmenu (escape_title (entry_name text)) w
                Hinv Hh Hw1) as (Hi & Hn & Hl & Hsub & _).
    destruct (append_submenu hmenu (escape_title (entry_name text)) w)
      as [[sub id] w1]. cbn [fst snd] in *.
    assert (Hlt : (len (entry_rest text) < len text)%nat)
      by (apply len_entry_rest_lt; lia).
    eapply rtc_trans; [exact Hb|].
    apply (IH sub (entry_rest text) w1 Hi Hsub). lia.
Qed.

Lemma load_line_built hmenu uosc line w :
  parse_inv w → (hmenu < length (menus w))%nat →
  next_id w + Z.of_nat (len line) < UINT_MOD →
  built w (run (load_line hmenu uosc line) w).
Proof.
  intros Hinv Hh Hw. unfold load_line.
  destruct (line_fields uosc line) as [[key cmd]|] eqn:Hf; [|apply rtc_refl].
  destruct (split_menu cmd uosc) as [[left_ right_]|] eqn:Hs; [|apply rtc_refl].
  pose proof (len_line_fields_le _ _ _ _ Hf).
  pose proof (len_split_menu_le _ _ _ _ Hs).
  apply parse_menu_built; try done. lia.
Qed.

Lemma load_loop_built fuel hmenu uosc data w :
  parse_inv w → (hmenu < length (menus w))%nat →
  next_id w + Z.of_nat (len data) < UINT_MOD →
  built w (run (load_loop fuel hmenu uosc data) w).
Proof.
  revert data w. induction fuel as [|fuel IH]; intros data w Hinv Hh Hw;
    [apply rtc_refl|].
  cbn [load_loop]. destruct (0 <? len data)%nat; [|apply rtc_refl].
  pose proof (len_getline data) as Hlen.
  destruct (bstr_getline data) as [line rest]. cbn [fst snd] in Hlen.
  munfold.
  pose proof (load_line_inv hmenu uosc line w Hinv Hh) as H1.
  pose proof (load_line_built hmenu uosc line w Hinv Hh) as H2.
  unfold run in H1, H2.
  destruct (load_line hmenu uosc line w) as [[] w1]. cbn [snd] in H1, H2.
  destruct H1 as (Hi1 & Hn1 & Hl1); [lia|].
  eapply rtc_trans; [apply H2; lia|]. apply IH; [done|lia|lia].
Qed.

(** The world in which the loop of [load_menu] starts: the root menu,
    empty, under the handle 0. *)
Definition root_world : world :=
  {| menus := [[]]; next_id := WM_USER + 100; dyn_menus := [] |}.

Lemma run_load_menu uosc file :
  load_menu uosc file world0
  = (0%nat, run (load_loop (len (bstr0 file)) 0%nat uosc (bstr0 file))
                root_world).
Proof.
  unfold load_menu, world0, CreatePopupMenu, root_world, run. munfold.
  cbn [menus next_id dyn_menus length app].
  by destruct (load_loop _ _ _ _ _) as [[] w1].
Qed.

(** What a sequence of actions leaves of the world it started from, and
    what it adds. *)
Record extends (w w' : world) : Prop := {
  ext_counter : next_id w ≤ next_id w';
  ext_menus : (length (menus w) ≤ length (menus w'))%nat;
  ext_kept : ∀ loc it,
    item_at (menus w) loc = Some it → item_at (menus w') loc = Some it;
  ext_new : ∀ loc it,
    item_at (menus w') loc = Some it →
    item_at (menus w) loc = Some it ∨ next_id w ≤ item_id it < next_id w';
  ext_registry : ∃ new, dyn_menus w' = (dyn_menus w ++ new)%list;
  ext_opened : ∀ h,
    (length (menus w) ≤ h < length (menus w'))%nat →
    ∃ h0 p it, item_at (menus w') (h0, p) = Some it
               ∧ item_submenu it = Some h ∧ (h0 < h)%nat
}.

Lemma extends_refl w : extends w w.
Proof.
  split; try done; [by left|by exists []; rewrite app_nil_r|lia].
Qed.

Lemma extends_trans w1 w2 w3 : extends w1 w2 → extends w2 w3 → extends w1 w3.
Proof.
  intros [Hc1 Hm1 Hk1 Hn1 [new1 Hr1] Ho1] [Hc2 Hm2 Hk2 Hn2 [new2 Hr2] Ho2].
  split.
  - lia.
  - lia.
  - auto.
  - intros loc it Hit. destruct (Hn2 _ _ Hit) as [H|H]; [|right; lia].
    destruct (Hn1 _ _ H) as [H'|H']; [by left|right; lia].
  - exists (new1 ++ new2)%list. by rewrite Hr2, Hr1, app_assoc.
  - intros h Hh. destruct (decide (h < length (menus w2))%nat) as [Hlt|Hge].
    + destruct (Ho1 h) as (h0 & p & it & Hit & Hs & Hlt0); [lia|].
      exists h0, p, it. auto.
    + apply Ho2. lia.
Qed.

Lemma extends_by_extends w ms' loc0 it :
  extends_by (menus w) ms' loc0 it → item_id it = next_id w →
  next_id w + 1 < UINT_MOD → 0 ≤ next_id w →
  (∀ h, (length (menus w) ≤ h < length ms')%nat →
        ∃ h0 p x, item_at ms' (h0, p) = Some x
                  ∧ item_submenu x = Some h ∧ (h0 < h)%nat) →
  extends w {| menus := ms'; next_id := to_uint (next_id w + 1);
               dyn_menus := dyn_menus w |}.
Proof.
  intros (Hlen & Hold & Hnew) Hid Hw H0 Hopen.
  assert (Hn : to_uint (next_id w + 1) = next_id w + 1)
    by (apply to_uint_small; lia).
  split; cbn [menus next_id dyn_menus]; rewrite ?Hn; try done.
  - lia.
  - intros loc x Hx. destruct (Hnew _ _ Hx) as [?|[-> ->]]; [by left|].
    right. lia.
  - exists []. by rewrite app_nil_r.
Qed.

Lemma ids_below_extends_by w ms' loc0 it :
  ids_below w → extends_by (menus w) ms' loc0 it → item_id it = next_id w →
  next_id w + 1 < UINT_MOD → 0 ≤ next_id w →
  ids_below {| menus := ms'; next_id := to_uint (next_id w + 1);
               dyn_menus := dyn_menus w |}.
Proof.
  intros Hb (_ & _ & Hnew) Hid Hw H0 loc x. cbn [menus next_id].
  rewrite to_uint_small by lia. intros Hx.
  destruct (Hnew _ _ Hx) as [Hx'|[_ ->]]; [|lia].
  specialize (Hb _ _ Hx'). lia.
Qed.

(** Graying the row just appended, through its identifier, touches no
    row that was there before. *)
Lemma gray_appended ms ms1 id flags root loc0 it :
  (∀ loc x, item_at ms loc = Some x → item_id x < id) →
  extends_by ms ms1 loc0 it → item_id it = id →
  extends_by ms (EnableMenuItem ms1 root id flags) loc0
    (if decide (find_by_command ms1 root id = Some loc0)
     then set_state (enable_bits flags) it else it).
Proof.
  intros Hb (Hlen & Hold & Hnew) Hid.
  assert (Hold_id : ∀ loc x, item_at ms loc = Some x →
                             find_by_command ms1 root id ≠ Some loc).
  { intros loc x Hx Hf.
    destruct (find_item_sound _ _ _ _ _ Hf) as (y & Hy & Hyid).
    rewrite (Hold _ _ Hx) in Hy. injection Hy as <-.
    specialize (Hb _ _ Hx). lia. }
  split; [by rewrite EnableMenuItem_length|]. split.
  - intros loc x Hx. rewrite EnableMenuItem_item_at, (Hold _ _ Hx).
    rewrite decide_False by (by eapply Hold_id). done.
  - intros loc x'. rewrite EnableMenuItem_item_at.
    destruct (item_at ms1 loc) as [x|] eqn:Hx; [|done]. cbn.
    intros [= <-]. destruct (Hnew _ _ Hx) as [Hx'|[-> ->]].
    + left. rewrite decide_False by (by eapply Hold_id). done.
    + right. split; [done|]. by destruct (decide _).
Qed.

Lemma build_step_extends w w' :
  ids_below w → 0 ≤ next_id w → build_step w w' →
  extends w w' ∧ ids_below w' ∧ 0 ≤ next_id w'.
Proof.
  intros Hb H0 Hstep.
  destruct Hstep as [w hmenu items it Hm Hid Hleaf Hw
                    |w hmenu items it flags Hm Hid Hleaf Hw w1
                    |w hmenu items title Hm Hw
                    |w sub id u].
  - pose proof (appended_extends _ _ _ it Hm) as He.
    assert (Hlen : length (<[hmenu := (items ++ [it])%list]> (menus w))
                   = length (menus w)) by apply length_insert.
    split; [|split].
    + apply (extends_by_extends w _ (hmenu, length items) it); try done.
      intros h Hh. lia.
    + by apply (ids_below_extends_by w _ (hmenu, length items) it).
    + cbn. rewrite to_uint_small; lia.
  - pose proof (appended_extends _ _ _ it Hm) as He.
    pose proof (gray_appended (menus w) (menus w1) (next_id w) flags hmenu
                  _ it (λ loc x Hx, proj2 (Hb loc x Hx)) He Hid) as Hg.
    set (it' := if decide _ then _ else it) in Hg.
    assert (Hid' : item_id it' = next_id w)
      by (unfold it'; by destruct (decide _)).
    assert (Hlen : length (EnableMenuItem (menus w1) hmenu (next_id w) flags)
                   = length (menus w))
      by (rewrite EnableMenuItem_length; apply length_insert).
    split; [|split].
    + apply (extends_by_extends w _ (hmenu, length items) it'); try done.
      intros h Hh. cbn [set_menus menus] in Hh. lia.
    + by apply (ids_below_extends_by w _ (hmenu, length items) it').
    + cbn. rewrite to_uint_small; lia.
  - pose proof (with_submenu_extends _ _ _
                  (submenu_item (next_id w) title (length (menus w))) Hm) as He.
    assert (Hh : (hmenu < length (menus w))%nat) by (by eapply lookup_lt_Some).
    split; [|split].
    + apply (extends_by_extends w _ (hmenu, length items)
               (submenu_item (next_id w) title (length (menus w)))); try done.
      intros h. rewrite length_insert, length_app. cbn [length]. intros Hlt.
      exists hmenu, (length items),
        (submenu_item (next_id w) title (length (menus w))).
      split; [|split; [cbn; f_equal; lia|lia]].
      rewrite item_at_lookup, list_lookup_insert_eq
        by (rewrite length_app; lia).
      cbn. by apply list_lookup_middle.
    + by apply (ids_below_extends_by w _ (hmenu, length items)
                  (submenu_item (next_id w) title (length (menus w)))).
    + cbn. rewrite to_uint_small; lia.
  - split; [|done]. split; cbn [registered menus next_id dyn_menus];
      try done; [by left|eauto|lia].
Qed.

Lemma built_extends w w' :
  ids_below w → 0 ≤ next_id w → built w w' →
  extends w w' ∧ ids_below w' ∧ 0 ≤ next_id w'.
Proof.
  intros Hb H0 Hbuilt. induction Hbuilt as [w|w w1 w' Hstep _ IH].
  - split; [apply extends_refl|done].
  - destruct (build_step_extends w w1 Hb H0 Hstep) as (He & Hb1 & H1).
    destruct (IH Hb1 H1) as (He' & Hb' & H').
    split; [by eapply extends_trans|done].
Qed.

End Building.

(* ===================================================================== *)
(** * The menus [load_menu] builds *)
(* ===================================================================== *)

Section LoadedMenus.

Lemma load_menu_built uosc file :
  WM_USER + 100 + Z.of_nat (len (bstr0 file)) < UINT_MOD →
  built root_world (run (load_menu uosc file) world0).
Proof.
  intros Hw. unfold run at 1. rewrite run_load_menu. cbn [snd].
  apply load_loop_built; [apply parse_inv_root|cbn; lia|done].
Qed.

Lemma root_world_below : ids_below root_world.
Proof.
  intros [[|h] p] it; cbn; [by rewrite lookup_nil|done].
Qed.

(** X8.  In every menu [load_menu] builds the identifiers are unique, a row
    that opens a submenu opens a menu of the store that was made after the
    menu holding the row and that no other row opens, and every entry of
    the registry belongs to a row: the row carries the identifier of the
    entry and opens its submenu.  The root menu has the handle 0. *)
Theorem load_menu_well_formed uosc file :
  WM_USER + 100 + Z.of_nat (len (bstr0 file)) < UINT_MOD →
  let r := load_menu uosc file world0 in
  r.1 = 0%nat
  ∧ is_Some (menus r.2 !! 0%nat)
  ∧ (∀ loc1 loc2 it1 it2,
       item_at (menus r.2) loc1 = Some it1 →
       item_at (menus r.2) loc2 = Some it2 →
       item_id it1 = item_id it2 → loc1 = loc2)
  ∧ (∀ loc it s,
       item_at (menus r.2) loc = Some it → item_submenu it = Some s →
       (loc.1 < s < length (menus r.2))%nat)
  ∧ (∀ loc1 loc2 it1 it2 s,
       item_at (menus r.2) loc1 = Some it1 →
       item_at (menus r.2) loc2 = Some it2 →
       item_submenu it1 = Some s → item_submenu it2 = Some s → loc1 = loc2)
  ∧ (∀ e, e ∈ dyn_menus r.2 →
       ∃ loc it, item_at (menus r.2) loc = Some it
                 ∧ item_id it = dyn_id e
                 ∧ item_submenu it = Some (dyn_hmenu e)).
Proof.
  intros Hw r. destruct (load_menu_parse_inv uosc file Hw) as (Hinv & Hr & Hl).
  fold r in Hr. change (run (load_menu uosc file) world0) with r.2 in Hinv, Hl.
  destruct Hinv as [H0 Hb Hu Hs Hsu He].
  split; [done|]. split; [by apply lookup_lt_is_Some_2|].
  split; [exact Hu|]. split; [exact Hs|]. split; [exact Hsu|].
  by apply Forall_forall.
Qed.

Lemma load_menu_well_formed_witness :
  let r := load_menu false (Some "k quit #menu: File > Quit") world0 in
  r.1 = 0%nat ∧ is_Some (menus r.2 !! 0%nat).
Proof.
  intros r.
  destruct (load_menu_well_formed false (Some "k quit #menu: File > Quit"))
    as (H1 & H2 & _); [reflexivity|]. by split.
Defined.

(** X9.  The identifiers of a loaded menu: every row carries an identifier
    from [WM_USER + 100] on and below the counter, and the counter has
    moved by at most one identifier for each character of the file. *)
Theorem load_menu_identifiers uosc file :
  WM_USER + 100 + Z.of_nat (len (bstr0 file)) < UINT_MOD →
  let w := run (load_menu uosc file) world0 in
  WM_USER + 100 ≤ next_id w ≤ WM_USER + 100 + Z.of_nat (len (bstr0 file))
  ∧ ∀ loc it, item_at (menus w) loc = Some it →
              WM_USER + 100 ≤ item_id it < next_id w.
Proof.
  intros Hw w.
  destruct (built_extends root_world w root_world_below) as (He & Hb & H0);
    [done|by apply load_menu_built|].
  split.
  - split; [apply (ext_counter _ _ He)|].
    pose proof (load_loop_inv (len (bstr0 file)) 0%nat uosc (bstr0 file)
                  root_world parse_inv_root) as (_ & Hn & _);
      [cbn; lia|done|].
    subst w. unfold run at 1. rewrite run_load_menu. cbn [snd].
    apply Hn.
  - intros loc it Hit. destruct (ext_new _ _ He loc it Hit) as [Hroot|H]; [|done].
    destruct loc as [[|h] p]; cbn in Hroot; [by rewrite lookup_nil in Hroot|done].
Qed.

Lemma load_menu_identifiers_witness :
  let w := run (load_menu false (Some "k quit #menu: File > Quit")) world0 in
  WM_USER + 100 ≤ next_id w ≤ WM_USER + 100 + 25.
Proof.
  intros w.
  destruct (load_menu_identifiers false (Some "k quit #menu: File > Quit"))
    as [H _]; [reflexivity|exact H].
Defined.

Lemma reachable_snoc ms a b p it s :
  reachable ms a b → item_at ms (b, p) = Some it → item_submenu it = Some s →
  reachable ms a s.
Proof.
  intros Hab Hit Hs. induction Hab as [h|h p0 it0 s0 h' H0 Hs0 _ IH].
  - eapply reach_step; [exact Hit|exact Hs|constructor].
  - eapply reach_step; [exact H0|exact Hs0|by apply IH].
Qed.

(** When every menu but the root is opened by a row of a menu with a
    smaller handle, every menu lies below the root. *)
Lemma opened_reachable ms :
  (∀ h, (1 ≤ h < length ms)%nat →
        ∃ h0 p it, item_at ms (h0, p) = Some it
                   ∧ item_submenu it = Some h ∧ (h0 < h)%nat) →
  ∀ h, (h < length ms)%nat → reachable ms 0%nat h.
Proof.
  intros Hopen h. induction (lt_wf h) as [h _ IH]. intros Hh.
  destruct h as [|h]; [constructor|].
  destruct (Hopen (S h)) as (h0 & p & it & Hit & Hs & Hlt); [lia|].
  eapply reachable_snoc; [apply (IH h0); lia|exact Hit|exact Hs].
Qed.

Lemma item_at_valid ms h p it : item_at ms (h, p) = Some it → (h < length ms)%nat.
Proof.
  rewrite item_at_lookup. destruct (ms !! h) eqn:E;
    [intros _; by eapply lookup_lt_Some|cbn; by rewrite lookup_nil].
Qed.

(** X10.  Every row of a loaded menu is dispatched correctly: [handle_menu],
    called on the root [load_menu] returned with the identifier of any row
    of the store, passes on the command bound to this row (the whole
    command field of its line), and nothing for a separator or for a row
    that opens a submenu. *)
Theorem load_menu_dispatch uosc file ctx loc it :
  WM_USER + 100 + Z.of_nat (len (bstr0 file)) < UINT_MOD →
  let r := load_menu uosc file world0 in
  ctx_hmenu ctx = r.1 →
  item_at (menus r.2) loc = Some it →
  handle_menu ctx (item_id it) r.2 = item_data it.
Proof.
  intros Hw r Hroot Hit. destruct loc as [h p].
  destruct (load_menu_parse_inv uosc file Hw) as (Hinv & Hr & Hl).
  change (run (load_menu uosc file) world0) with r.2 in Hinv, Hl.
  fold r in Hr. rewrite Hr in Hroot.
  destruct (built_extends root_world r.2 root_world_below) as (He & _);
    [done|by apply load_menu_built|].
  apply (dispatch_unique ctx r.2 h p it); try done.
  - apply (pinv_unique _ Hinv).
  - by apply parse_inv_ranked.
  - rewrite Hroot. apply opened_reachable.
    + intros h' Hh'. apply (ext_opened _ _ He). cbn. lia.
    + by eapply item_at_valid.
Qed.

Lemma load_menu_dispatch_witness :
  let r := load_menu false (Some "k quit #menu: File > Quit") world0 in
  handle_menu (example_ctx false) (WM_USER + 101) r.2
  = Some "quit #menu: File > Quit".
Proof.
  intros r.
  apply (load_menu_dispatch false (Some "k quit #menu: File > Quit")
           (example_ctx false) (1%nat, 0%nat)
           (command_item (WM_USER + 101) 0 (format_title "Quit" "k")
              "quit #menu: File > Quit"));
    reflexivity.
Defined.

(** A witness of [handle_menu_dispatches]: the leaf of a nested entry. *)
Lemma handle_menu_dispatches_witness :
  let w := run (load_menu false (Some "k quit #menu: File > Quit")) world0 in
  handle_menu (example_ctx false) (WM_USER + 101) w
  = Some "quit #menu: File > Quit".
Proof.
  intros w.
  apply (handle_menu_dispatches (example_ctx false) w 1%nat 0%nat
           (command_item (WM_USER + 101) 0 (format_title "Quit" "k")
              "quit #menu: File > Quit")).
  - apply (inv_unique _ (load_menu_pass_inv false
                           (Some "k quit #menu: File > Quit") eq_refl)).
  - apply (load_menu_ranked false (Some "k quit #menu: File > Quit") eq_refl).
  - eapply (reach_step _ 0%nat 0%nat
              (submenu_item (WM_USER + 100) "File" 1) 1%nat);
      [reflexivity|reflexivity|constructor].
  - reflexivity.
Defined.

(** X11.  A line of the configuration only adds to the menu: the rows that
    earlier lines made stay where and as they are, every row the line
    makes takes an identifier the counter held at that time, the registry
    is extended at its end, and a menu the line makes is opened by a row
    of a menu with a smaller handle. *)
Theorem load_line_extends hmenu uosc line w :
  parse_inv w → (hmenu < length (menus w))%nat →
  next_id w + Z.of_nat (len line) < UINT_MOD →
  extends w (run (load_line hmenu uosc line) w).
Proof.
  intros Hinv Hh Hw.
  destruct (built_extends w (run (load_line hmenu uosc line) w)) as [He _];
    [apply (pinv_below _ Hinv)|apply (pinv_counter _ Hinv)
    |by apply load_line_built|done].
Qed.

Lemma load_line_extends_witness :
  let w := run (load_menu false (Some "k quit #menu: File > Quit")) world0 in
  extends w (run (load_line 0%nat false "o open #menu: File > Open") w).
Proof.
  intros w. apply load_line_extends.
  - apply (load_menu_parse_inv false (Some "k quit #menu: File > Quit")).
    reflexivity.
  - change (0 < 2)%nat. lia.
  - reflexivity.
Defined.

End LoadedMenus.

(* ===================================================================== *)
(** * What a rebuild pass leaves alone *)
(* ===================================================================== *)

Section StaticRows.

Lemma rebuilt_length ctx e w :
  (dyn_hmenu e < length (menus w))%nat →
  length (menus (rebuilt ctx e w)) = length (menus w).
Proof.
  intros Hh. rewrite (rebuilt_eq ctx e w Hh). cbn [menus].
  by rewrite EnableMenuItem_length, length_insert.
Qed.

Lemma rebuilt_static ctx e w h p it :
  (dyn_hmenu e < length (menus w))%nat →
  dyn_hmenu e ≠ h → dyn_id e ≠ item_id it →
  item_at (menus w) (h, p) = Some it →
  item_at (menus (rebuilt ctx e w)) (h, p) = Some it.
Proof.
  intros Hh Hne Hid Hit. rewrite (rebuilt_eq ctx e w Hh). cbn [menus].
  set (ms1 := <[dyn_hmenu e := _]> (menus w)).
  assert (H1 : item_at ms1 (h, p) = Some it).
  { rewrite item_at_lookup in Hit |- *. unfold ms1.
    by rewrite list_lookup_insert_ne. }
  rewrite EnableMenuItem_item_at, H1. cbn.
  destruct (decide _) as [Hf|]; [|done]. exfalso.
  destruct (find_item_sound _ _ _ _ _ Hf) as (x & Hx & Hxid).
  rewrite H1 in Hx. injection Hx as <-. done.
Qed.

Lemma dyn_menu_loop_static ctx entries w h p it :
  Forall (λ e, dyn_hmenu e < length (menus w))%nat entries →
  Forall (λ e, dyn_hmenu e ≠ h ∧ dyn_id e ≠ item_id it) entries →
  item_at (menus w) (h, p) = Some it →
  item_at (menus (run (dyn_menu_loop ctx entries) w)) (h, p) = Some it.
Proof.
  revert w. induction entries as [|e entries IH]; intros w Hv Hne Hit; [done|].
  apply Forall_cons in Hv as [Hv Hvs]. apply Forall_cons in Hne as [[Hh Hid] Hnes].
  rewrite (dyn_menu_loop_cons _ _ _ _ Hv). apply IH; [|done|].
  - eapply Forall_impl; [exact Hvs|]. intros e' He'.
    change (dyn_hmenu e' < length (menus (rebuilt ctx e w)))%nat.
    by rewrite rebuilt_length.
  - by apply rebuilt_static.
Qed.

(** X12.  A rebuild pass leaves the static part of the menu alone: a row that
    lies in no dynamic submenu and whose identifier is no registry
    entry's is, after [dyn_menu_update], still at its place with its
    text, command, state and identifier. *)
Theorem dyn_menu_update_static ctx w h p it :
  Forall (λ e, dyn_hmenu e < length (menus w))%nat (dyn_menus w) →
  (∀ e, e ∈ dyn_menus w → dyn_hmenu e ≠ h ∧ dyn_id e ≠ item_id it) →
  item_at (menus w) (h, p) = Some it →
  item_at (menus (run (dyn_menu_update ctx) w)) (h, p) = Some it.
Proof.
  intros Hv Hne Hit. rewrite dyn_menu_update_loop.
  apply dyn_menu_loop_static; [done|by apply Forall_forall|done].
Qed.

Definition quit_and_audio : string :=
  ("k quit #menu: Quit" ++ String LF "a #menu: Audio #@tracks/audio")%string.

Lemma dyn_menu_update_static_witness :
  let w := run (load_menu false (Some quit_and_audio)) world0 in
  item_at (menus (run (dyn_menu_update two_track_ctx) w)) (0%nat, 0%nat)
  = Some (command_item (WM_USER + 100) 0 (format_title "Quit" "k")
            "quit #menu: Quit").
Proof.
  intros w.
  assert (Hd : dyn_menus w = [{| dyn_hmenu := 1; dyn_id := WM_USER + 101;
                                  dyn_update := audio_track |}])
    by reflexivity.
  apply dyn_menu_update_static.
  - rewrite Hd. repeat constructor.
  - rewrite Hd. intros e ->%list_elem_of_singleton. by split.
  - reflexivity.
Defined.

(** X13.  One pass keeps what [load_menu] established: while the counter does
    not wrap around, the registry and the number of menus are unchanged,
    the identifiers of the rows stay unique and below the counter, and
    the counter has moved by the number of rows the updaters made. *)
Theorem dyn_menu_update_invariants ctx w :
  pass_inv w →
  next_id w + demand (ctx_state ctx) (dyn_menus w) < UINT_MOD →
  let w' := run (dyn_menu_update ctx) w in
  pass_inv w'
  ∧ dyn_menus w' = dyn_menus w
  ∧ length (menus w') = length (menus w)
  ∧ next_id w' = next_id w + demand (ctx_state ctx) (dyn_menus w).
Proof.
  intros Hinv Hw w'.
  destruct (pass_preserves_inv ctx w Hinv Hw) as (H1 & H2 & H3 & H4).
  split; [exact H1|]. split; [exact H3|]. split; [exact H4|exact H2].
Qed.

Lemma dyn_menu_update_invariants_witness :
  let w := run (load_menu false (Some quit_and_audio)) world0 in
  let w' := run (dyn_menu_update two_track_ctx) w in
  pass_inv w' ∧ dyn_menus w' = dyn_menus w.
Proof.
  intros w w'.
  destruct (dyn_menu_update_invariants two_track_ctx w) as (H1 & H2 & _).
  - apply (load_menu_pass_inv false (Some quit_and_audio)). reflexivity.
  - reflexivity.
  - by split.
Defined.

End StaticRows.

(* ===================================================================== *)
(** * The rows of a track menu *)
(* ===================================================================== *)

Section TrackMenu.

Lemma track_item_rows_filter type prop pos entries :
  track_item_rows type prop pos entries
  = track_item_row type prop pos
      <$> filter (λ e, track_type e = type) entries.
Proof.
  induction entries as [|e entries IH]; [done|].
  cbn [track_item_rows]. rewrite filter_cons.
  destruct (String.eqb_spec (track_type e) type) as [Heq|Hne].
  - rewrite decide_True by done. cbn. by rewrite IH.
  - by rewrite decide_False.
Qed.

(** Numbering changes the identifiers only. *)
Lemma number_lookup_some id rows i x :
  rows !! i = Some x → ∃ id', number id rows !! i = Some (set_id id' x).
Proof.
  revert id i. induction rows as [|r rows IH]; intros id i; [done|].
  destruct i as [|i]; cbn [number].
  - intros [= ->]. by exists id.
  - apply IH.
Qed.

Lemma is_enabled_set_id id it : is_enabled (set_id id it) = is_enabled it.
Proof. done. Qed.

Lemma track_item_row_marks type prop pos e :
  is_checked (track_item_row type prop pos e) = track_selected e
  ∧ is_enabled (track_item_row type prop pos e)
    = negb (String.eqb type "sub" && track_selected e
            && negb (pos =? track_id e)).
Proof.
  unfold track_item_row.
  destruct (String.eqb type "sub"), (track_selected e),
    (pos =? track_id e); by split.
Qed.

(** X14.  [update_track_menu] appends, after the rows the menu holds, one row
    for each track of the kind [type], in the order of the list, and then
    the row "Off"; with no track of this kind (or without a list) it
    appends nothing, not even "Off".  The row of a track is bound to
    "set <prop> <id>" and is checked when the track is selected; it is
    disabled only in a subtitle menu, for a selected track other than the
    one at [pos] (the track the other subtitle slot shows).  "Off" is
    bound to "set <prop> no" and checked when [pos] is negative. *)
Theorem update_track_menu_spec state item type prop pos w items :
  menus w !! dyn_hmenu item = Some items →
  let tracks := filter (λ e, track_type e = type)
                  (default [] (track_list state)) in
  let w' := run (update_track_menu state item type prop pos) w in
  ∃ new,
    menus w' !! dyn_hmenu item = Some (items ++ new)%list
    ∧ (tracks = [] → new = [])
    ∧ (tracks ≠ [] →
       length new = S (length tracks)
       ∧ (∀ i e, tracks !! i = Some e →
            ∃ r, new !! i = Some r
                 ∧ item_text r = Some (format_title (bstr0 (track_title e))
                                         (bstr0 (track_lang e)))
                 ∧ item_data r
                   = Some ("set " ++ prop ++ " " ++ fmt_d (track_id e))%string
                 ∧ is_checked r = track_selected e
                 ∧ is_enabled r
                   = negb (String.eqb type "sub" && track_selected e
                           && negb (pos =? track_id e)))
       ∧ (∃ r, new !! length tracks = Some r
               ∧ item_text r = Some "Off"
               ∧ item_data r = Some ("set " ++ prop ++ " no")%string
               ∧ is_checked r = (pos <? 0)
               ∧ is_enabled r = true)).
Proof.
  intros Hm tracks w'. subst w'. unfold run.
  rewrite (update_track_menu_rows _ _ _ _ _ _ _ Hm). cbn [snd].
  set (rows := track_rows type prop pos (default [] (track_list state))).
  exists (number (next_id w) rows).
  split; [unfold append_rows; cbn [menus];
          by rewrite list_lookup_alter_eq, Hm|].
  assert (Hrows : rows = match tracks with
                         | [] => []
                         | _ => ((track_item_row type prop pos <$> tracks)
                                 ++ [off_row prop pos])%list
                         end).
  { unfold rows, track_rows. rewrite track_item_rows_filter. fold tracks.
    by destruct tracks. }
  split.
  - intros Ht. by rewrite Hrows, Ht.
  - intros Ht.
    assert (Hrows' : rows = ((track_item_row type prop pos <$> tracks)
                             ++ [off_row prop pos])%list)
      by (rewrite Hrows; by destruct tracks).
    split; [|split].
    + rewrite length_number, Hrows', length_app, length_fmap. cbn. lia.
    + intros i e He.
      assert (Hi : rows !! i = Some (track_item_row type prop pos e)).
      { rewrite Hrows'. apply lookup_app_l_Some.
        by rewrite list_lookup_fmap, He. }
      destruct (number_lookup_some (next_id w) _ _ _ Hi) as [id' Hr].
      exists (set_id id' (track_item_row type prop pos e)).
      split; [done|]. split; [done|]. split; [done|].
      rewrite is_checked_set_id, is_enabled_set_id.
      apply track_item_row_marks.
    + assert (Hi : rows !! length tracks = Some (off_row prop pos)).
      { rewrite Hrows'. rewrite lookup_app_r by (by rewrite length_fmap).
        by rewrite length_fmap, Nat.sub_diag. }
      destruct (number_lookup_some (next_id w) _ _ _ Hi) as [id' Hr].
      exists (set_id id' (off_row prop pos)).
      split; [done|]. split; [done|]. split; [done|].
      rewrite is_checked_set_id, is_enabled_set_id. unfold off_row.
      by destruct (pos <? 0).
Qed.

Lemma update_track_menu_spec_witness :
  let w := run (load_menu false (Some "a #menu: Audio #@tracks/audio")) world0 in
  let item := {| dyn_hmenu := 1; dyn_id := WM_USER + 100;
                 dyn_update := audio_track |} in
  ∃ new,
    menus (run (update_track_menu two_track_state item "audio" "aid" 1) w)
      !! 1%nat = Some new.
Proof.
  intros w item.
  destruct (update_track_menu_spec two_track_state item "audio" "aid" 1 w []
              eq_refl) as (new & Hnew & _).
  by exists new.
Defined.

End TrackMenu.

(* ===================================================================== *)
(** * Leaf items without a command *)
(* ===================================================================== *)

Section GrayedLeaf.

Lemma split_menu_nonempty cmd uosc r :
  split_menu cmd uosc = Some r → (len cmd =? 0)%nat = false.
Proof. unfold split_menu. by destruct (len cmd =? 0)%nat. Qed.

End GrayedLeaf.

(* ===================================================================== *)
(** * The loops end on their input *)
(* ===================================================================== *)

Section Termination.


End Termination.

(* ===================================================================== *)
(** * The rows of the chapter, edition and audio device menus *)
(* ===================================================================== *)

Section RadioMenus.

(** Two rows with the same text and the same command. *)
Definition same_label (a b : MENUITEM) : Prop :=
  item_text b = item_text a ∧ item_data b = item_data a.

Lemma radio_rows_label n check rows :
  Forall2 same_label rows (radio_rows n check rows).
Proof.
  unfold radio_rows. destruct (0 <=? check);
    [|apply Forall_Forall2_diag, Forall_forall; by intros].
  apply Forall2_same_length_lookup. split; [by rewrite length_imap|].
  intros i a b Ha Hb. rewrite list_lookup_imap, Ha in Hb. injection Hb as <-.
  unfold radio_row.
  repeat match goal with |- context [if ?c then _ else _] => destruct c end;
    by split.
Qed.

Lemma number_label id rows : Forall2 same_label rows (number id rows).
Proof.
  revert id. induction rows as [|r rows IH]; intros id; cbn [number];
    constructor; [by split|apply IH].
Qed.

Lemma same_label_trans a b c : same_label a b → same_label b c → same_label a c.
Proof. intros [H1 H2] [H3 H4]. split; congruence. Qed.

Lemma rows_label {A} (row : A → MENUITEM) entries n check id :
  Forall2 (λ e r, same_label (row e) r) entries
    (number id (radio_rows n check (row <$> entries))).
Proof.
  change (Forall2 (same_label ∘ row) entries
            (number id (radio_rows n check (row <$> entries)))).
  apply Forall2_fmap_l.
  eapply Forall2_trans; [|apply radio_rows_label|apply number_label].
  intros a b c. apply same_label_trans.
Qed.

(** X17.  The updaters of the chapter, edition and audio device menus make one
    row for each entry of the list, in its order.  A chapter row shows the
    title and the time stamp and seeks to the chapter's time; an edition
    row sets the edition by its id; an audio device row shows the
    description of the device — its name when the description is missing
    or empty — and sets the device by its name. *)
Theorem radio_menu_rows state item w :
  menus w !! dyn_hmenu item = Some [] →
  let rows := default [] (menus (run (call_update state item) w)
                            !! dyn_hmenu item) in
  (dyn_update item = chapters →
     Forall2 (λ e r,
       item_text r = Some (format_title (bstr0 (chapter_title e))
                             (chapter_stamp (chapter_time e)))
       ∧ item_data r
         = Some ("seek " ++ fmt_f (chapter_time e) ++ " absolute")%string)
       (default [] (chapter_list state)) rows)
  ∧ (dyn_update item = editions →
     Forall2 (λ e r,
       item_text r = Some (escape_title (bstr0 (edition_title e)))
       ∧ item_data r = Some ("set edition " ++ fmt_d (edition_id e))%string)
       (default [] (edition_list state)) rows)
  ∧ (dyn_update item = audio_devices →
     Forall2 (λ e r,
       item_text r
       = Some (escape_title
                 (match device_desc e with
                  | Some desc => if decide (desc = "") then device_name e
                                 else desc
                  | None => device_name e
                  end))
       ∧ item_data r = Some ("set audio-device " ++ device_name e)%string)
       (default [] (audio_device_list state)) rows).
Proof.
  intros Hm rows. subst rows. unfold run.
  rewrite (call_update_rows _ _ _ Hm). cbn [snd]. unfold append_rows.
  cbn [menus]. rewrite list_lookup_alter_eq, Hm. cbn [fmap option_fmap
    option_map default from_option app]. unfold Datatypes.id.
  split; [|split]; intros Hu; rewrite Hu; cbn [rows_of];
    (eapply Forall2_impl; [apply rows_label|]); intros e r [Ht Hd];
    rewrite Ht, Hd; split; try done.
  cbn. unfold audio_device_title. destruct (device_desc e) as [desc|]; [|done].
  destruct desc; done.
Qed.

Lemma radio_menu_rows_witness :
  let w := run (load_menu false (Some "c #menu: Chapters #@chapters")) world0 in
  let item := {| dyn_hmenu := 1; dyn_id := WM_USER + 100;
                 dyn_update := chapters |} in
  length (default [] (menus (run (call_update (ctx_state (example_ctx false))
                                    item) w) !! 1%nat))
  = length (default [] (chapter_list (ctx_state (example_ctx false)))).
Proof.
  intros w item.
  destruct (radio_menu_rows (ctx_state (example_ctx false)) item w eq_refl)
    as [H _].
  symmetry. exact (Forall2_length _ _ _ (H eq_refl)).
Defined.

End RadioMenus.

(* ===================================================================== *)
(** * A configuration without menu markers *)
(* ===================================================================== *)

Section NoMarker.

(** The token [tok] occurs nowhere in [s], as [bstr_find] sees it. *)
Definition lacks (tok s : string) : Prop := bstr_find s tok = None.

Lemma lacks_cons tok c s :
  lacks tok (String c s)
  ↔ bstr_startswith (String c s) tok = false ∧ lacks tok s.
Proof.
  unfold lacks. cbn [bstr_find].
  destruct (bstr_startswith (String c s) tok).
  - split; [done|by intros [? _]].
  - destruct (bstr_find s tok); cbn; split; try done; by intros [_ ?].
Qed.

Lemma lacks_cut tok s n : lacks tok s → lacks tok (bstr_cut s n).
Proof.
  revert s. induction n as [|n IH]; intros s Hs; [by destruct s|].
  destruct s as [|c s]; [done|]. cbn [bstr_cut].
  apply IH. by apply lacks_cons in Hs as [_ ?].
Qed.

Lemma startswith_splice s n tok :
  bstr_startswith (bstr_splice0 s n) tok = true → bstr_startswith s tok = true.
Proof.
  revert s n. induction tok as [|t tok IH]; intros s n; [by destruct s|].
  destruct n as [|n], s as [|c s]; cbn; try done.
  rewrite !andb_true_iff. intros [? ?]. split; [done|]. by eapply IH.
Qed.

Lemma lacks_splice tok s n : lacks tok s → lacks tok (bstr_splice0 s n).
Proof.
  revert n. induction s as [|c s IH]; intros n Hs; [by destruct n|].
  destruct n as [|n]; [done|]. cbn [bstr_splice0].
  apply lacks_cons in Hs as [Hst Hs]. apply lacks_cons. split; [|by apply IH].
  destruct (bstr_startswith (String c (bstr_splice0 s n)) tok) eqn:E; [|done].
  apply (startswith_splice (String c s) (S n)) in E. congruence.
Qed.

Lemma lacks_lstrip tok s : lacks tok s → lacks tok (bstr_lstrip s).
Proof.
  induction s as [|c s IH]; [done|]. intros Hs. cbn [bstr_lstrip].
  destruct (mp_isspace c); [|done]. apply IH.
  by apply lacks_cons in Hs as [_ ?].
Qed.

Lemma lacks_skip_seps tok s sep : lacks tok s → lacks tok (skip_seps s sep).
Proof.
  induction s as [|c s IH]; [done|]. intros Hs. cbn [skip_seps].
  destruct (strchr sep c); [|done]. apply IH.
  by apply lacks_cons in Hs as [_ ?].
Qed.

Lemma rstrip_splice s : bstr_rstrip s = bstr_splice0 s (len (bstr_rstrip s)).
Proof.
  induction s as [|c s IH]; [done|]. cbn [bstr_rstrip].
  destruct (bstr_rstrip s) as [|d r] eqn:E.
  - destruct (mp_isspace c); [done|]. cbn. by destruct s.
  - change (len (String c (String d r))) with (S (len (String d r))).
    cbn [bstr_splice0]. by rewrite <- IH.
Qed.

Lemma lacks_strip tok s : lacks tok s → lacks tok (bstr_strip s).
Proof.
  intros Hs. unfold bstr_strip. rewrite rstrip_splice.
  by apply lacks_splice, lacks_lstrip.
Qed.

Lemma lacks_line_fields tok uosc line key cmd :
  line_fields uosc line = Some (key, cmd) → lacks tok line → lacks tok cmd.
Proof.
  unfold line_fields. intros H Hl.
  assert (H1 : lacks tok (bstr_lstrip (bstr_strip_linebreaks line))).
  { apply lacks_lstrip. unfold bstr_strip_linebreaks.
    repeat destruct (bstr_endswith _ _); try done; by apply lacks_splice. }
  set (l := bstr_lstrip (bstr_strip_linebreaks line)) in *.
  destruct (len l =? 0)%nat; [done|].
  destruct (bstr_eatstart0 l "#") as [l'|] eqn:He.
  - destruct uosc; [|done]. injection H as _ <-. apply lacks_strip.
    unfold bstr_eatstart0 in He. destruct (bstr_startswith l "#"); [|done].
    injection He as <-. by apply lacks_cut.
  - unfold bstr_split in H. injection H as _ <-.
    by apply lacks_strip, lacks_cut, lacks_skip_seps.
Qed.

Lemma split_menu_lacks cmd uosc :
  lacks MENU_PREFIX cmd → uosc = false ∨ lacks MENU_PREFIX_UOSC cmd →
  split_menu cmd uosc = None.
Proof.
  unfold lacks, split_menu, bstr_split_tok. intros H1 H2.
  destruct (len cmd =? 0)%nat; [done|]. rewrite H1.
  destruct H2 as [->|H2]; [done|]. rewrite H2. by destruct uosc.
Qed.

Lemma load_loop_lacks fuel hmenu uosc data w :
  lacks MENU_PREFIX data → uosc = false ∨ lacks MENU_PREFIX_UOSC data →
  load_loop fuel hmenu uosc data w = (tt, w).
Proof.
  revert data w. induction fuel as [|fuel IH]; intros data w H1 H2; [done|].
  cbn [load_loop]. destruct (0 <? len data)%nat; [|done].
  unfold bstr_getline.
  set (pos := match bstrchr data LF with Some p => p | None => len data end).
  munfold.
  assert (Hline : load_line hmenu uosc (bstr_splice0 data (pos + 1)) w = (tt, w)).
  { unfold load_line.
    destruct (line_fields uosc _) as [[key cmd]|] eqn:Hf; [|done].
    rewrite split_menu_lacks; [done| |].
    - eapply lacks_line_fields; [exact Hf|]. by apply lacks_splice.
    - destruct H2 as [->|H2]; [by left|right].
      eapply lacks_line_fields; [exact Hf|]. by apply lacks_splice. }
  rewrite Hline. apply IH; [by apply lacks_cut|].
  destruct H2 as [->|H2]; [by left|right; by apply lacks_cut].
Qed.

(** X18.  A configuration in which the menu marker occurs nowhere — a file that
    could not be read and an empty file among them — yields the empty
    root menu: no row, no submenu, no registry entry, no identifier
    taken.  In the compatibility mode this needs the second marker, [#!],
    to be absent as well. *)
Theorem load_menu_without_marker uosc file :
  bstr_find (bstr0 file) MENU_PREFIX = None →
  uosc = false ∨ bstr_find (bstr0 file) MENU_PREFIX_UOSC = None →
  load_menu uosc file world0 = (0%nat, root_world).
Proof.
  intros H1 H2. rewrite run_load_menu. unfold run.
  by rewrite load_loop_lacks.
Qed.

Lemma load_menu_without_marker_witness :
  load_menu false (Some "k quit # menu: Quit") world0 = (0%nat, root_world).
Proof.
  apply load_menu_without_marker; [reflexivity|by left].
Defined.

End NoMarker.

(* ===================================================================== *)
(** * Dispatch after a rebuild *)
(* ===================================================================== *)

Section DispatchAfterRebuild.

(** X19.  After a rebuild pass the rows still dispatch their own commands: for
    a world that satisfies the invariants of a loaded menu, and while the
    counter does not wrap around, [handle_menu] called with the
    identifier of a row below the root of the rebuilt menu — a row an
    updater has just made, or a static one — passes on the command of
    that row. *)
Theorem rebuilt_menu_dispatch ctx w h p it :
  pass_inv w → ranked (menus w) →
  next_id w + demand (ctx_state ctx) (dyn_menus w) < UINT_MOD →
  let w' := run (dyn_menu_update ctx) w in
  reachable (menus w') (ctx_hmenu ctx) h →
  item_at (menus w') (h, p) = Some it →
  handle_menu ctx (item_id it) w' = item_data it.
Proof.
  intros Hinv Hr Hw w' Hreach Hit.
  destruct (pass_preserves_inv ctx w Hinv Hw) as (Hinv' & _).
  apply (dispatch_unique ctx w' h p it); try done.
  - apply (inv_unique _ Hinv').
  - by apply dyn_menu_update_ranked.
Qed.

Lemma rebuilt_menu_dispatch_witness :
  let w := run (load_menu false (Some "b #menu: Subtitles #@tracks/sub"))
               world0 in
  handle_menu (example_ctx false) (WM_USER + 102)
    (run (dyn_menu_update (example_ctx false)) w)
  = Some "set sid no".
Proof.
  intros w.
  apply (rebuilt_menu_dispatch (example_ctx false) w 1%nat 1%nat
           (command_item (WM_USER + 102) MFS_UNCHECKED "Off" "set sid no")).
  - apply (load_menu_pass_inv false (Some "b #menu: Subtitles #@tracks/sub")).
    reflexivity.
  - apply (load_menu_ranked false (Some "b #menu: Subtitles #@tracks/sub")).
    reflexivity.
  - reflexivity.
  - eapply (reach_step _ 0%nat 0%nat
              (submenu_item (WM_USER + 100) "Subtitles" 1) 1%nat);
      [reflexivity|reflexivity|constructor].
  - reflexivity.
Defined.

End DispatchAfterRebuild.

(* ===================================================================== *)
(** * [format_title]: the name and the key *)
(* ===================================================================== *)

Section FormatTitle.

Lemma double_ampersands_app a b :
  double_ampersands (a ++ b) = (double_ampersands a ++ double_ampersands b)%string.
Proof.
  induction a as [|c a IH]; [done|]. cbn [append double_ampersands].
  destruct (Ascii.eqb c "&"); cbn; by rewrite IH.
Qed.

Lemma startswith_app_cons c a b :
  bstr_startswith (String c a ++ b) "&" = bstr_startswith (String c a) "&".
Proof. cbn [append]. by rewrite !startswith_ampersand. Qed.

Lemma isolated_app a b :
  isolated a = true → isolated b = true → bstr_startswith b "&" = false →
  isolated (a ++ b) = true.
Proof.
  intros Ha Hb Hst. induction a as [|c a IH]; [done|].
  cbn [append isolated] in *.
  apply andb_prop in Ha as [[Hnul Hamp]%andb_prop Ha].
  rewrite Hnul, (IH Ha), andb_true_r. cbn [andb].
  destruct a as [|d a]; [|by rewrite startswith_app_cons].
  cbn [append]. by rewrite Hst, andb_false_r.
Qed.

(** X20.  On a name and a key in which every ['&'] stands alone, the name not
    starting with one, [format_title] gives the name and, after a
    tabulator, the key, every ['&'] doubled in both; a key that is empty
    or the placeholder ["_"] is left out, tabulator included. *)
Theorem format_title_isolated name key :
  isolated name = true → bstr_startswith name "&" = false →
  isolated key = true →
  format_title name key
  = if decide (key = "" ∨ key = "_") then double_ampersands name
    else (double_ampersands name ++ String TAB (double_ampersands key))%string.
Proof.
  intros Hn Hst Hk. unfold format_title, bstr_equals0.
  destruct key as [|c key];
    [rewrite decide_True by auto; by apply escape_title_doubles|].
  change (0 <? len (String c key))%nat with true. cbn [andb].
  destruct (String.eqb_spec (String c key) "_") as [->|Hne]; cbn [negb].
  - rewrite decide_True by auto. by apply escape_title_doubles.
  - rewrite decide_False by (intros [?|?]; done).
    set (tail := (String TAB "" ++ String c key)%string).
    assert (Hi : isolated tail = true)
      by (unfold tail; cbn [append isolated] in *; by rewrite Hk).
    assert (Ht : bstr_startswith tail "&" = false) by done.
    rewrite escape_title_doubles.
    + by rewrite double_ampersands_app.
    + destruct name as [|d name]; [done|]. by rewrite startswith_app_cons.
    + by apply isolated_app.
Qed.

Lemma format_title_isolated_witness :
  format_title "Save & Quit" "Ctrl+&" = ("Save && Quit" ++ String TAB "Ctrl+&&")%string.
Proof.
  etransitivity; [apply format_title_isolated; reflexivity|reflexivity].
Defined.

End FormatTitle.

(* ===================================================================== *)
(** * The leaf entry of an annotation *)
(* ===================================================================== *)

Section Descent.

(** The descent of [parse_menu] along the path of [text], without what
    it does at the leaf entry: the submenus of the path are made or
    found, and the result is the menu and the text of the leaf entry; no
    leaf entry is reached when a name is empty or when a name that is
    followed by a path carries a comment.  [fuel] bounds the depth as in
    [parse_menu]. *)
Fixpoint descent (fuel : nat) (hmenu : HMENU) (text : bstr)
  : M (option (HMENU * bstr)) :=
  if (len (entry_name text) =? 0)%nat then mret None
  else if (len (entry_rest text) =? 0)%nat then mret (Some (hmenu, text))
  else
    '(submenu, _) ← append_submenu hmenu (escape_title (entry_name text));
    if (len (entry_comment text) =? 0)%nat then
      match fuel with
      | O => mret None
      | S fuel' => descent fuel' submenu (entry_rest text)
      end
    else mret None.

(** At a leaf entry the fuel of [parse_menu] plays no part. *)
Lemma parse_menu_leaf_level fuel1 fuel2 hmenu key cmd text uosc :
  (len (entry_name text) =? 0)%nat = false →
  (len (entry_rest text) =? 0)%nat = true →
  parse_menu fuel1 hmenu key cmd text uosc
  = parse_menu fuel2 hmenu key cmd text uosc.
Proof.
  intros Hname Hrest.
  destruct (is_seprarator (entry_name text) uosc) eqn:Hsep;
    [by rewrite !(parse_menu_separator _ _ _ _ _ _ Hrest Hsep)|].
  destruct (bstr_eatstart0 (entry_comment text) MENU_PREFIX_DYN)
    as [c|] eqn:Hdyn.
  - by rewrite !(parse_menu_dyn _ _ _ _ _ _ _ Hname Hrest Hsep Hdyn).
  - by rewrite !(parse_menu_leaf _ _ _ _ _ _ Hname Hrest Hsep Hdyn).
Qed.

(** [parse_menu] is the descent followed by the work at the leaf entry,
    and it does nothing more when the descent reaches none. *)
Lemma parse_menu_descent fuel hmenu key cmd text uosc w :
  parse_menu fuel hmenu key cmd text uosc w
  = match descent fuel hmenu text w with
    | (Some (h, t), w1) => parse_menu 0 h key cmd t uosc w1
    | (None, w1) => (tt, w1)
    end.
Proof.
  revert hmenu text w. induction fuel as [|fuel IH]; intros hmenu text w;
    cbn [descent];
    (destruct (len (entry_name text) =? 0)%nat eqn:Hname;
     [by rewrite (parse_menu_empty _ _ _ _ _ _ Hname)|]);
    (destruct (len (entry_rest text) =? 0)%nat eqn:Hrest;
     [munfold;
      exact (f_equal (λ f, f w)
               (parse_menu_leaf_level _ 0%nat _ _ _ _ _ Hname Hrest))|]);
    (destruct (len (entry_comment text) =? 0)%nat eqn:Hcomment;
     [|rewrite (parse_menu_branch_comment _ _ _ _ _ _ Hname Hrest Hcomment);
       munfold;
       by destruct (append_submenu hmenu (escape_title (entry_name text)) w)
         as [[sub id] w1]]).
  - rewrite (parse_menu_out_of_fuel _ _ _ _ _ Hname Hrest Hcomment). munfold.
    by destruct (append_submenu hmenu (escape_title (entry_name text)) w)
      as [[sub id] w1].
  - rewrite (parse_menu_descend _ _ _ _ _ _ Hname Hrest Hcomment). munfold.
    destruct (append_submenu hmenu (escape_title (entry_name text)) w)
      as [[sub id] w1]. apply IH.
Qed.

(** What the descent reaches is a leaf entry. *)
Lemma descent_leaf fuel hmenu text w h t w1 :
  descent fuel hmenu text w = (Some (h, t), w1) →
  (len (entry_name t) =? 0)%nat = false
  ∧ (len (entry_rest t) =? 0)%nat = true.
Proof.
  revert hmenu text w. induction fuel as [|fuel IH]; intros hmenu text w;
    cbn [descent];
    (destruct (len (entry_name text) =? 0)%nat eqn:Hname; [done|]);
    (destruct (len (entry_rest text) =? 0)%nat eqn:Hrest;
     [by intros [= <- <- <-]|]);
    munfold;
    destruct (append_submenu hmenu (escape_title (entry_name text)) w)
      as [[sub id] w2];
    destruct (len (entry_comment text) =? 0)%nat; try done.
  apply IH.
Qed.

Lemma append_submenu_registry hmenu title w :
  dyn_menus (append_submenu hmenu title w).2 = dyn_menus w.
Proof.
  unfold append_submenu, find_submenu. munfold.
  destruct (find_submenu_in _ _) as [[sub id]|]; [done|].
  unfold CreatePopupMenu, append_menu. cbn [menus next_id dyn_menus].
  by destruct (InsertMenuItemW _ _ _).
Qed.

(** The descent does not touch the registry. *)
Lemma descent_registry fuel hmenu text w leaf w1 :
  descent fuel hmenu text w = (leaf, w1) → dyn_menus w1 = dyn_menus w.
Proof.
  revert hmenu text w. induction fuel as [|fuel IH]; intros hmenu text w;
    cbn [descent];
    (destruct (len (entry_name text) =? 0)%nat eqn:Hname;
     [by intros [= <- <-]|]);
    (destruct (len (entry_rest text) =? 0)%nat eqn:Hrest;
     [by intros [= <- <-]|]);
    munfold;
    pose proof (append_submenu_registry hmenu (escape_title (entry_name text))
                  w) as Hreg;
    destruct (append_submenu hmenu (escape_title (entry_name text)) w)
      as [[sub id] w2]; cbn [snd] in Hreg;
    destruct (len (entry_comment text) =? 0)%nat;
    try (intros [= <- <-]; exact Hreg).
  intros H. by rewrite (IH _ _ _ H).
Qed.

Lemma reachable_mono ms ms' a b :
  (∀ loc it, item_at ms loc = Some it → item_at ms' loc = Some it) →
  reachable ms a b → reachable ms' a b.
Proof.
  intros Hk Hab. induction Hab as [h|h p it s h' Hit Hs _ IH]; [constructor|].
  eapply reach_step; [by apply Hk|exact Hs|exact IH].
Qed.

(** The row that opens the submenu [append_submenu] returns lies in the
    menu the function was called on. *)
Lemma append_submenu_opener hmenu title w items :
  menus w !! hmenu = Some items →
  let r := append_submenu hmenu title w in
  ∃ p it, item_at (menus r.2) (hmenu, p) = Some it
          ∧ item_submenu it = Some r.1.1.
Proof.
  intros Hm r. subst r.
  destruct (find_submenu_in items title) as [[sub id]|] eqn:Hf.
  - rewrite (append_submenu_found _ _ _ _ _ _ Hm Hf). cbn [fst snd].
    destruct (find_submenu_in_item _ _ _ _ Hf) as (p & it & Hp & Hsub & _).
    exists p, it. split; [|done]. by rewrite item_at_lookup, Hm.
  - rewrite (append_submenu_new _ _ _ _ Hm Hf). cbn [fst snd with_submenu menus].
    assert (Hh : (hmenu < length (menus w))%nat) by (by eapply lookup_lt_Some).
    exists (length items), (submenu_item (next_id w) title (length (menus w))).
    split; [|done].
    rewrite item_at_lookup, list_lookup_insert_eq by (rewrite length_app; lia).
    cbn. by apply list_lookup_middle.
Qed.

(** The descent keeps the invariants of [load_menu]; the menu of the leaf
    entry exists and lies below every menu the descent started below,
    and the text left to read has shrunk by at least the identifiers
    taken. *)
Lemma descent_inv fuel hmenu text w leaf w1 :
  parse_inv w → (hmenu < length (menus w))%nat →
  next_id w + Z.of_nat (len text) < UINT_MOD →
  descent fuel hmenu text w = (leaf, w1) →
  parse_inv w1
  ∧ ∀ h t, leaf = Some (h, t) →
      (h < length (menus w1))%nat
      ∧ next_id w1 + Z.of_nat (len t) ≤ next_id w + Z.of_nat (len text)
      ∧ ∀ root, reachable (menus w) root hmenu → reachable (menus w1) root h.
Proof.
  revert hmenu text w. induction fuel as [|fuel IH];
    intros hmenu text w Hinv Hh Hw; cbn [descent];
    pose proof (len_entry_name_le text) as Hlen;
    (destruct (len (entry_name text) =? 0)%nat eqn:Hname;
     [intros [= <- <-]; by split|]);
    apply Nat.eqb_neq in Hname as Hname';
    (destruct (len (entry_rest text) =? 0)%nat eqn:Hrest;
     [intros [= <- <-]; split; [done|]; intros h t [= <- <-];
      split; [done|]; split; [lia|done]|]);
    munfold;
    assert (Hw1 : next_id w + 1 < UINT_MOD) by lia;
    destruct (lookup_lt_is_Some_2 _ _ Hh) as [items Hm];
    destruct (append_submenu_inv hmenu (escape_title (entry_name text)) w
                Hinv Hh Hw1) as (Hi & Hn & Hl & Hsub & _);
    pose proof (append_submenu_built hmenu (escape_title (entry_name text))
                  w items Hm Hw1) as Hb;
    pose proof (append_submenu_opener hmenu (escape_title (entry_name text))
                  w items Hm) as (p & it & Hit & Hits);
    destruct (append_submenu hmenu (escape_title (entry_name text)) w)
      as [[sub id] w2]; cbn [fst snd] in *;
    destruct (len (entry_comment text) =? 0)%nat;
    try (intros [= <- <-]; by split).
  assert (Hlt : (len (entry_rest text) < len text)%nat)
    by (apply len_entry_rest_lt; lia).
  intros Hd.
  assert (Hw2 : next_id w2 + Z.of_nat (len (entry_rest text)) < UINT_MOD) by lia.
  destruct (IH sub (entry_rest text) w2 Hi Hsub Hw2 Hd) as [Hi1 Hleaf].
  split; [done|]. intros h t ->.
  destruct (Hleaf h t eq_refl) as (Hh1 & Hn1 & Hreach).
  split; [done|]. split; [lia|]. intros root Hroot. apply Hreach.
  destruct (built_extends w w2 (pinv_below _ Hinv) (pinv_counter _ Hinv) Hb)
    as [He _].
  eapply reachable_snoc; [|exact Hit|exact Hits].
  eapply reachable_mono; [apply (ext_kept _ _ He)|exact Hroot].
Qed.

End Descent.

(* ===================================================================== *)
(** * The provider keyword of a tagged submenu *)
(* ===================================================================== *)

Section KeywordOfTag.

(** The characters that end a keyword: ['#'], and a NUL. *)
Definition is_hash (c : ascii) : bool := Ascii.eqb c "#" || Ascii.eqb c NUL.

(** The keyword as one reads it off the text after the marker [#@]: the
    ['#'] the text starts with are skipped, what follows is cut at the
    next ['#'], and white space is dropped on the right. *)
Fixpoint drop_hashes (s : string) : string :=
  match s with
  | EmptyString => EmptyString
  | String c s' => if is_hash c then drop_hashes s' else s
  end.

Fixpoint until_hash (s : string) : string :=
  match s with
  | EmptyString => EmptyString
  | String c s' => if is_hash c then EmptyString else String c (until_hash s')
  end.

Definition keyword_of_tag (c : string) : string :=
  bstr_rstrip (until_hash (drop_hashes c)).

Lemma strchr_hash c : strchr "#" c = is_hash c.
Proof. unfold strchr, is_hash. cbn [mem]. by rewrite orb_false_r, orb_comm. Qed.

Lemma skip_seps_hash s : skip_seps s "#" = drop_hashes s.
Proof.
  induction s as [|c s IH]; [done|]. cbn [skip_seps drop_hashes].
  rewrite strchr_hash. by destruct (is_hash c).
Qed.

Lemma splice_cspn_hash s : bstr_splice0 s (bstrcspn s "#") = until_hash s.
Proof.
  induction s as [|c s IH]; [done|]. cbn [bstrcspn until_hash].
  rewrite strchr_hash. destruct (is_hash c); [done|]. cbn. by rewrite IH.
Qed.

(** The keyword [parse_menu] computes is the keyword of the tag. *)
Lemma dyn_keyword_of_tag c : dyn_keyword c = keyword_of_tag c.
Proof.
  unfold dyn_keyword, keyword_of_tag, bstr_split. cbn [fst].
  by rewrite skip_seps_hash, splice_cspn_hash.
Qed.

Lemma keyword_in_table_nonempty c :
  keyword_of_tag c ∈ dyn_providers.*1 → (0 <? len c)%nat = true.
Proof.
  destruct c; [|done]. cbn. rewrite !elem_of_cons, elem_of_nil.
  intros H. repeat destruct H as [H|H]; done.
Qed.

(** What [parse_menu] does at a leaf entry tagged with [#@]. *)
Lemma parse_menu_tagged fuel hmenu key cmd text uosc w h t w1 c :
  descent fuel hmenu text w = (Some (h, t), w1) →
  is_seprarator (entry_name t) uosc = false →
  bstr_eatstart0 (entry_comment t) MENU_PREFIX_DYN = Some c →
  let r := append_submenu h (escape_title (entry_name t)) w1 in
  run (parse_menu fuel hmenu key cmd text uosc) w
  = if (0 <? r.1.2) && (0 <? len c)%nat
    then (add_dyn_menu r.1.1 r.1.2 (keyword_of_tag c) r.2).2
    else r.2.
Proof.
  intros Hd Hsep Hc r. destruct (descent_leaf _ _ _ _ _ _ _ Hd) as [Hname Hrest].
  unfold run. rewrite parse_menu_descent, Hd.
  rewrite (parse_menu_dyn _ _ _ _ _ _ _ Hname Hrest Hsep Hc). munfold.
  fold r. destruct r as [[sub id] w2]. cbn [fst snd].
  rewrite dyn_keyword_of_tag.
  destruct ((0 <? id) && (0 <? len c)%nat); [|done].
  by destruct (add_dyn_menu sub id (keyword_of_tag c) w2).
Qed.

Lemma parse_menu_tagged_known fuel hmenu key cmd text uosc w h t w1 c u :
  descent fuel hmenu text w = (Some (h, t), w1) →
  is_seprarator (entry_name t) uosc = false →
  bstr_eatstart0 (entry_comment t) MENU_PREFIX_DYN = Some c →
  let r := append_submenu h (escape_title (entry_name t)) w1 in
  (keyword_of_tag c, u) ∈ dyn_providers → 0 < r.1.2 →
  run (parse_menu fuel hmenu key cmd text uosc) w
  = registered r.1.1 r.1.2 u r.2.
Proof.
  intros Hd Hsep Hc r Hkw Hid.
  rewrite (parse_menu_tagged _ _ _ _ _ _ _ _ _ _ _ Hd Hsep Hc). fold r.
  apply Z.ltb_lt in Hid. rewrite Hid.
  rewrite keyword_in_table_nonempty
    by (apply list_elem_of_fmap; by exists (keyword_of_tag c, u)).
  cbn [andb]. by rewrite (add_dyn_menu_known _ _ _ _ _ Hkw).
Qed.

Lemma parse_menu_tagged_unknown fuel hmenu key cmd text uosc w h t w1 c :
  descent fuel hmenu text w = (Some (h, t), w1) →
  is_seprarator (entry_name t) uosc = false →
  bstr_eatstart0 (entry_comment t) MENU_PREFIX_DYN = Some c →
  let r := append_submenu h (escape_title (entry_name t)) w1 in
  keyword_of_tag c ∉ dyn_providers.*1 ∨ r.1.2 ≤ 0 →
  run (parse_menu fuel hmenu key cmd text uosc) w = r.2.
Proof.
  intros Hd Hsep Hc r Hno.
  rewrite (parse_menu_tagged _ _ _ _ _ _ _ _ _ _ _ Hd Hsep Hc). fold r.
  destruct (Z.ltb_spec 0 r.1.2) as [Hid|Hid]; [|done].
  destruct ((0 <? len c)%nat); [|done]. cbn [andb].
  destruct Hno as [Hk|Hle]; [|lia].
  unfold add_dyn_menu. by rewrite (add_dyn_menu_from_unknown _ _ _ _ _ Hk).
Qed.

(** C1, amended.  For an annotation whose leaf entry, not a separator,
    carries a comment that starts with [#@]: the submenu of the entry is
    made or found, and the provider keyword is the text after the marker
    with the ['#'] it starts with skipped, cut at the next ['#'], white
    space dropped on its right only.  The submenu is registered exactly
    when this keyword is one of the table and the identifier of the row
    that opens the submenu is positive as an [int]; otherwise the
    submenu is all the entry leaves.  So white space or a ['#'] comment
    after a keyword of the table does not prevent the registration, a
    ['#'] right after the marker is skipped, and white space between the
    marker and the keyword does prevent the registration.  The line
    [b #menu: Subtitles #@tracks/sub] registers the updater of the
    subtitle tracks (as does [#@#tracks/sub]), and with one selected
    subtitle track "English" of id 5 and sid = 5 the rebuilt submenu has
    the checked row "English" and the unchecked row "Off" bound to
    "set sid no". *)
Theorem dyn_keyword_registration fuel hmenu key cmd text uosc w h t w1 c :
  descent fuel hmenu text w = (Some (h, t), w1) →
  is_seprarator (entry_name t) uosc = false →
  bstr_eatstart0 (entry_comment t) MENU_PREFIX_DYN = Some c →
  let w' := run (parse_menu fuel hmenu key cmd text uosc) w in
  let r := append_submenu h (escape_title (entry_name t)) w1 in
  let kw := keyword_of_tag c in
  (∀ u, (kw, u) ∈ dyn_providers → 0 < r.1.2 →
        w' = registered r.1.1 r.1.2 u r.2)
  ∧ (kw ∉ dyn_providers.*1 ∨ r.1.2 ≤ 0 → w' = r.2)
  ∧ (∀ k ws tail,
       k ∈ dyn_providers.*1 → all_space ws = true → at_separator "#" tail →
       c = (k ++ ws ++ tail)%string → kw = k)
  ∧ (∀ c', c = String "#" c' → kw = keyword_of_tag c')
  ∧ (∀ sp c', c = String sp c' → mp_isspace sp = true →
              kw ∉ dyn_providers.*1)
  ∧ (∀ compat,
       let w0 := run (load_menu compat (Some "b #menu: Subtitles #@tracks/sub"))
                     world0 in
       dyn_menus w0 = [{| dyn_hmenu := 1; dyn_id := WM_USER + 100;
                          dyn_update := sub_track |}]
       ∧ dyn_menus (run (load_menu compat
                           (Some "b #menu: Subtitles #@#tracks/sub")) world0)
         = dyn_menus w0
       ∧ menus (run (dyn_menu_update (example_ctx compat)) w0)
         = [[submenu_item (WM_USER + 100) "Subtitles" 1];
            [command_item (WM_USER + 101) MFS_CHECKED "English" "set sid 5";
             command_item (WM_USER + 102) MFS_UNCHECKED "Off" "set sid no"]]).
Proof.
  intros Hd Hsep Hc w' r kw.
  split; [|split; [|split; [|split; [|split]]]].
  - intros u Hkw Hid. by eapply parse_menu_tagged_known.
  - intros Hno. by eapply parse_menu_tagged_unknown.
  - intros k ws tail Hk Hws Ht ->. subst kw. rewrite <- dyn_keyword_of_tag.
    apply list_elem_of_fmap in Hk as [[k' u] [-> Hk]].
    by apply (dyn_keyword_provider _ u).
  - by intros c' ->.
  - intros sp c' -> Hsp. subst kw. rewrite <- dyn_keyword_of_tag.
    by apply dyn_keyword_leading_space.
  - intros []; (split; [|split]); vm_compute; reflexivity.
Qed.

Lemma dyn_keyword_registration_witness :
  let w := run (load_menu true None) world0 in
  let w' := run (parse_menu 25 0%nat "b" "#menu: Video > Subs #@tracks/sub"
                   "Video > Subs #@tracks/sub" true) w in
  dyn_menus w' = [{| dyn_hmenu := 2; dyn_id := WM_USER + 101;
                     dyn_update := sub_track |}].
Proof.
  intros w w'.
  destruct (dyn_keyword_registration 25 0%nat "b"
              "#menu: Video > Subs #@tracks/sub" "Video > Subs #@tracks/sub"
              true w 1%nat "> Subs #@tracks/sub"
              (append_submenu 0%nat "Video" w).2 "tracks/sub"
              eq_refl eq_refl eq_refl) as [H _].
  cbv zeta in H. fold w' in H. rewrite (H sub_track); [reflexivity| |reflexivity].
  change (keyword_of_tag "tracks/sub") with "tracks/sub".
  unfold dyn_providers. rewrite !elem_of_cons. auto.
Defined.

(** C5 as the specification states it fails: none of the seven names of
    the specification is a keyword of the table, so a submenu tagged with
    one of them is not registered; the keywords of the table are others. *)
Lemma claimed_keywords_counterexample :
  Forall (λ kw,
      dyn_menus (run (load_menu false (Some ("v #menu: Video #@" ++ kw)%string))
                     world0) = [])
    ["video-track"; "audio-track"; "subtitle-track-primary";
     "subtitle-track-secondary"; "chapter-list"; "edition-list";
     "audio-device-list"]
  ∧ dyn_menus (run (load_menu false (Some "v #menu: Video #@tracks/video"))
                   world0)
    = [{| dyn_hmenu := 1; dyn_id := WM_USER + 100; dyn_update := video_track |}].
Proof. split; [repeat constructor|reflexivity]. Qed.

(** C5, amended.  The submenu of a leaf entry tagged with [#@] (the entry
    not being a separator) is registered exactly when its provider
    keyword is one of [tracks/video], [tracks/audio], [tracks/sub],
    [tracks/sub-secondary], [chapters], [editions], [audio-devices] and
    the identifier of the row that opens the submenu is positive as an
    [int]: one entry is then added at the end of the registry, for this
    submenu and this identifier, with the updater of the keyword.  For
    any other keyword the entry only makes (or finds) the submenu: the
    registry is unchanged, a submenu that was made is empty, and a menu
    that no entry of the registry refers to keeps its number of rows in
    every rebuild pass. *)
Theorem registration_by_keyword fuel hmenu key cmd text uosc w h t w1 c :
  descent fuel hmenu text w = (Some (h, t), w1) →
  is_seprarator (entry_name t) uosc = false →
  bstr_eatstart0 (entry_comment t) MENU_PREFIX_DYN = Some c →
  let w' := run (parse_menu fuel hmenu key cmd text uosc) w in
  let r := append_submenu h (escape_title (entry_name t)) w1 in
  let kw := dyn_keyword c in
  (∀ u,
     (kw, u) ∈ [ ("tracks/video", video_track); ("tracks/audio", audio_track);
                 ("tracks/sub", sub_track);
                 ("tracks/sub-secondary", sub_track2);
                 ("chapters", chapters); ("editions", editions);
                 ("audio-devices", audio_devices) ] →
     0 < r.1.2 →
     menus w' = menus r.2
     ∧ dyn_menus w'
       = (dyn_menus w ++ [{| dyn_hmenu := r.1.1; dyn_id := to_uint r.1.2;
                             dyn_update := u |}])%list)
  ∧ (kw ∉ ["tracks/video"; "tracks/audio"; "tracks/sub";
           "tracks/sub-secondary"; "chapters"; "editions"; "audio-devices"]
     ∨ r.1.2 ≤ 0 →
     w' = r.2 ∧ dyn_menus w' = dyn_menus w)
  ∧ (∀ items,
       menus w1 !! h = Some items →
       find_submenu_in items (escape_title (entry_name t)) = None →
       r.1.1 = length (menus w1) ∧ menus w' !! r.1.1 = Some [])
  ∧ (∀ ctx w0 h0,
       Forall (λ e, (dyn_hmenu e < length (menus w0))%nat ∧ dyn_hmenu e ≠ h0)
         (dyn_menus w0) →
       GetMenuItemCount (menus (run (dyn_menu_update ctx) w0)) h0
       = GetMenuItemCount (menus w0) h0).
Proof.
  intros Hd Hsep Hc w' r kw.
  assert (Hreg : dyn_menus r.2 = dyn_menus w).
  { subst r. rewrite append_submenu_registry.
    by eapply descent_registry. }
  assert (Hmenus : menus w' = menus r.2).
  { subst w'. rewrite (parse_menu_tagged _ _ _ _ _ _ _ _ _ _ _ Hd Hsep Hc).
    fold r. destruct (_ && _); [|done].
    destruct (add_dyn_menu_cases r.1.1 r.1.2 (keyword_of_tag c) r.2)
      as [->|[u ->]]; done. }
  split; [|split; [|split]].
  - intros u Hkw Hid. split; [done|].
    subst w' kw. rewrite dyn_keyword_of_tag in Hkw.
    rewrite (parse_menu_tagged_known _ _ _ _ _ _ _ _ _ _ _ u Hd Hsep Hc Hkw Hid).
    cbn [registered dyn_menus]. fold r. by rewrite Hreg.
  - intros Hno. subst w' kw. rewrite dyn_keyword_of_tag in Hno.
    rewrite (parse_menu_tagged_unknown _ _ _ _ _ _ _ _ _ _ _ Hd Hsep Hc Hno).
    by split.
  - intros items Hm Hf. rewrite Hmenus. subst r.
    rewrite (append_submenu_new _ _ _ _ Hm Hf). cbn [fst snd with_submenu menus].
    split; [done|].
    assert (Hh : (h < length (menus w1))%nat) by (by eapply lookup_lt_Some).
    rewrite list_lookup_insert_ne by lia.
    by rewrite lookup_app_r, Nat.sub_diag.
  - intros ctx w0 h0 He. rewrite dyn_menu_update_loop.
    by apply dyn_menu_loop_count.
Qed.

Lemma registration_by_keyword_witness :
  let w := run (load_menu false None) world0 in
  let w' := run (parse_menu 26 0%nat "v" "#menu: Video > Tracks #@tracks/video"
                   "Video > Tracks #@tracks/video" false) w in
  dyn_menus w' = [{| dyn_hmenu := 2; dyn_id := WM_USER + 101;
                     dyn_update := video_track |}].
Proof.
  intros w w'.
  destruct (registration_by_keyword 26 0%nat "v"
              "#menu: Video > Tracks #@tracks/video"
              "Video > Tracks #@tracks/video" false w 1%nat
              "> Tracks #@tracks/video"
              (append_submenu 0%nat "Video" w).2 "tracks/video"
              eq_refl eq_refl eq_refl) as [H _].
  cbv zeta in H. fold w' in H.
  destruct (H video_track) as [_ Hr]; [|reflexivity|exact Hr].
  change (dyn_keyword "tracks/video") with "tracks/video".
  rewrite !elem_of_cons. auto.
Defined.

End KeywordOfTag.

(* ===================================================================== *)
(** * Leaf items along a path *)
(* ===================================================================== *)

Section LeafItems.

(** The row [parse_menu] makes at a leaf entry that is neither a
    separator nor tagged with [#@]. *)
Lemma leaf_entry_row ctx fuel h key cmd t uosc w1 items :
  (len (entry_name t) =? 0)%nat = false →
  (len (entry_rest t) =? 0)%nat = true →
  is_seprarator (entry_name t) uosc = false →
  bstr_eatstart0 (entry_comment t) MENU_PREFIX_DYN = None →
  menus w1 !! h = Some items →
  let w' := run (parse_menu fuel h key cmd t uosc) w1 in
  (∃ items' it,
     menus w' !! h = Some (items' ++ [it])%list
     ∧ length items' = length items
     ∧ item_id it = next_id w1
     ∧ item_text it = Some (format_title (entry_name t) key)
     ∧ item_submenu it = None
     ∧ item_data it = Some cmd)
  ∧ (h = ctx_hmenu ctx → fresh_counter w1 →
     handle_menu ctx (next_id w1) w' = Some cmd).
Proof.
  intros Hname Hrest Hsep Hdyn Hm w'.
  destruct (parse_menu_leaf_world fuel h key cmd t uosc w1 items
              Hname Hrest Hsep Hdyn Hm) as ([Hlen Hst] & _ & _).
  fold w' in Hlen, Hst.
  set (new := command_item (next_id w1) 0
                (format_title (entry_name t) key) cmd) in *.
  cbn [appended menus] in Hlen, Hst.
  assert (Hlt : (h < length (menus w1))%nat) by (by eapply lookup_lt_Some).
  assert (H1 : <[h := (items ++ [new])%list]> (menus w1) !! h
               = Some (items ++ [new])%list)
    by (by apply list_lookup_insert_eq).
  assert (Hrows : ∃ items' it,
            menus w' !! h = Some (items' ++ [it])%list
            ∧ length items' = length items ∧ same_but_state new it).
  { specialize (Hst h). rewrite H1 in Hst. cbn in Hst.
    destruct (menus w' !! h) as [rows|] eqn:Hr.
    - cbn in Hst. apply Forall2_app_inv_l in Hst
        as (items' & last' & Hi & Hl & ->).
      apply Forall2_cons_inv_l in Hl as (it & nil' & Hit & Hnil & ->).
      apply Forall2_nil_inv_l in Hnil as ->.
      exists items', it. split; [done|].
      split; [symmetry; by eapply Forall2_length|done].
    - apply lookup_ge_None in Hr. rewrite Hlen, length_insert in Hr. lia. }
  destruct Hrows as (items' & it & Hr & Hl & Hid & _ & Htext & Hsub & Hdata).
  split.
  - exists items', it. repeat split; try done; by symmetry.
  - intros -> Hfresh. unfold handle_menu, GetMenuItemInfo_by_command.
    rewrite (state_changed_find _ _ _ _ (conj Hlen Hst)).
    rewrite (find_appended _ _ _ new (next_id w1) Hm eq_refl eq_refl Hfresh).
    cbn. rewrite item_at_lookup, Hr. cbn [default from_option].
    unfold Datatypes.id. rewrite <- Hl, list_lookup_middle by done.
    cbn. by symmetry.
Qed.

Lemma run_load_line hmenu uosc line w key cmd left_ right_ :
  line_fields uosc line = Some (key, cmd) →
  split_menu cmd uosc = Some (left_, right_) →
  run (load_line hmenu uosc line) w
  = run (parse_menu (len right_) hmenu key cmd right_ uosc) w.
Proof. intros Hf Hs. unfold run, load_line. by rewrite Hf, Hs. Qed.

Lemma run_parse_menu_descent fuel hmenu key cmd text uosc w h t w1 :
  descent fuel hmenu text w = (Some (h, t), w1) →
  run (parse_menu fuel hmenu key cmd text uosc) w
  = run (parse_menu 0 h key cmd t uosc) w1.
Proof. intros Hd. unfold run. by rewrite parse_menu_descent, Hd. Qed.

(** C10.  For every configuration line that yields a leaf item — at the
    end of whatever path of submenus its annotation names — with the key
    and the command field [cmd] the loop of [load_menu] extracts from
    the line: the row appended to the menu of the leaf entry is bound to
    the whole of [cmd], and the command field still contains the menu
    marker and what follows it.  Activating the item dispatches exactly
    [cmd]: when the leaf lies in the root menu and the identifier is
    fresh, and, for a leaf at any depth, when the world the line is
    read in satisfies the invariants of [load_menu] and the menu the
    line is added to lies below the root. *)
Theorem leaf_binds_command_field ctx hmenu uosc line w key cmd
    left_ right_ h t w1 items :
  line_fields uosc line = Some (key, cmd) →
  split_menu cmd uosc = Some (left_, right_) →
  descent (len right_) hmenu right_ w = (Some (h, t), w1) →
  is_seprarator (entry_name t) uosc = false →
  bstr_eatstart0 (entry_comment t) MENU_PREFIX_DYN = None →
  menus w1 !! h = Some items →
  let w' := run (load_line hmenu uosc line) w in
  (∃ items' it,
     menus w' !! h = Some (items' ++ [it])%list
     ∧ length items' = length items
     ∧ item_id it = next_id w1
     ∧ item_text it = Some (format_title (entry_name t) key)
     ∧ item_data it = Some cmd)
  ∧ (is_Some (bstr_find cmd MENU_PREFIX)
     ∨ is_Some (bstr_find cmd MENU_PREFIX_UOSC))
  ∧ (h = ctx_hmenu ctx → fresh_counter w1 →
     handle_menu ctx (next_id w1) w' = Some cmd)
  ∧ (parse_inv w → (hmenu < length (menus w))%nat →
     next_id w + Z.of_nat (len line) < UINT_MOD →
     reachable (menus w) (ctx_hmenu ctx) hmenu →
     handle_menu ctx (next_id w1) w' = Some cmd).
Proof.
  intros Hfields Hsplit Hd Hsep Hdyn Hm w'.
  destruct (descent_leaf _ _ _ _ _ _ _ Hd) as [Hname Hrest].
  assert (Hw' : w' = run (parse_menu 0 h key cmd t uosc) w1).
  { subst w'. rewrite (run_load_line _ _ _ _ _ _ _ _ Hfields Hsplit).
    by apply run_parse_menu_descent. }
  destruct (leaf_entry_row ctx 0 h key cmd t uosc w1 items
              Hname Hrest Hsep Hdyn Hm) as [Hrow Hroot].
  rewrite <- Hw' in Hrow, Hroot.
  split; [|split; [|split]].
  - destruct Hrow as (items' & it & H1 & H2 & H3 & H4 & _ & H5).
    by exists items', it.
  - by eapply split_menu_marker.
  - exact Hroot.
  - intros Hinv Hh Hw Hreach.
    pose proof (len_line_fields_le _ _ _ _ Hfields) as Hl1.
    pose proof (len_split_menu_le _ _ _ _ Hsplit) as Hl2.
    assert (Hw0 : next_id w + Z.of_nat (len right_) < UINT_MOD) by lia.
    destruct (descent_inv _ _ _ _ _ _ Hinv Hh Hw0 Hd) as [Hinv1 Hleaf].
    destruct (Hleaf h t eq_refl) as (Hh1 & Hn1 & Hreach1).
    assert (Hbudget : next_id w1 + Z.of_nat (len t) < UINT_MOD) by lia.
    destruct (parse_menu_inv 0 h key cmd t uosc w1 Hinv1 Hh1 Hbudget)
      as (Hinv' & _).
    pose proof (parse_menu_built 0 h key cmd t uosc w1 Hinv1 Hh1 Hbudget)
      as Hbuilt.
    rewrite <- Hw' in Hinv', Hbuilt.
    destruct (built_extends w1 w' (pinv_below _ Hinv1)
                (pinv_counter _ Hinv1) Hbuilt) as [He _].
    destruct Hrow as (items' & it & Hr & Hlen & Hid & _ & _ & Hdata).
    rewrite <- Hid, <- Hdata.
    apply (dispatch_unique ctx w' h (length items') it).
    + apply (pinv_unique _ Hinv').
    + by apply parse_inv_ranked.
    + eapply reachable_mono; [apply (ext_kept _ _ He)|by apply Hreach1].
    + rewrite item_at_lookup, Hr. cbn. by apply list_lookup_middle.
Qed.

Lemma leaf_binds_command_field_witness :
  let w := run (load_menu false None) world0 in
  let w' := run (load_line 0%nat false "k quit #menu: File > Quit") w in
  (∃ items' it,
     menus w' !! 1%nat = Some (items' ++ [it])%list
     ∧ length items' = 0%nat
     ∧ item_id it = WM_USER + 101
     ∧ item_text it = Some (format_title "Quit" "k")
     ∧ item_data it = Some "quit #menu: File > Quit")
  ∧ handle_menu (example_ctx false) (WM_USER + 101) w'
    = Some "quit #menu: File > Quit".
Proof.
  intros w w'.
  destruct (leaf_binds_command_field (example_ctx false) 0%nat false
              "k quit #menu: File > Quit" w "k"
              "quit #menu: File > Quit" "quit" "File > Quit"
              1%nat "> Quit" (append_submenu 0%nat "File" w).2 []
              eq_refl eq_refl eq_refl eq_refl eq_refl eq_refl)
    as (H1 & _ & _ & H4).
  split; [exact H1|].
  apply H4; [apply parse_inv_root|change (0 < 1)%nat; lia|reflexivity
            |constructor].
Defined.

(** X15.  A leaf item — at the end of whatever path its annotation names
    — is inserted grayed exactly when its line binds no command, the
    command field starting with ['#'] (the menu marker itself), and the
    identifier the row took is positive as an [int]; every other leaf is
    enabled.  (From the identifier [2^31] on the test [id > 0] of
    [parse_menu] fails and no leaf is grayed any more.)  The row is the
    last of its menu, carries the identifier of the counter and is bound
    to the command field. *)
Theorem leaf_grayed_without_command hmenu uosc line w key cmd
    left_ right_ h t w1 :
  line_fields uosc line = Some (key, cmd) →
  split_menu cmd uosc = Some (left_, right_) →
  descent (len right_) hmenu right_ w = (Some (h, t), w1) →
  is_seprarator (entry_name t) uosc = false →
  bstr_eatstart0 (entry_comment t) MENU_PREFIX_DYN = None →
  parse_inv w → (hmenu < length (menus w))%nat →
  next_id w + Z.of_nat (len line) < UINT_MOD →
  ∃ items it,
    menus w1 !! h = Some items
    ∧ menus (run (load_line hmenu uosc line) w) !! h
      = Some (items ++ [it])%list
    ∧ item_id it = next_id w1
    ∧ item_data it = Some cmd
    ∧ is_enabled it
      = negb ((0 <? to_int (next_id w1)) && bstr_startswith0 cmd "#").
Proof.
  intros Hfields Hsplit Hd Hsep Hdyn Hinv Hh Hw.
  destruct (descent_leaf _ _ _ _ _ _ _ Hd) as [Hname Hrest].
  pose proof (len_line_fields_le _ _ _ _ Hfields) as Hl1.
  pose proof (len_split_menu_le _ _ _ _ Hsplit) as Hl2.
  assert (Hw0 : next_id w + Z.of_nat (len right_) < UINT_MOD) by lia.
  destruct (descent_inv _ _ _ _ _ _ Hinv Hh Hw0 Hd) as [Hinv1 Hleaf].
  destruct (Hleaf h t eq_refl) as (Hh1 & Hn1 & _).
  pose proof (pinv_counter _ Hinv1) as H0.
  pose proof (pinv_below _ Hinv1) as Hb.
  destruct (lookup_lt_is_Some_2 _ _ Hh1) as [items Hm].
  rewrite (run_load_line _ _ _ _ _ _ _ _ Hfields Hsplit).
  rewrite (run_parse_menu_descent _ _ _ _ _ _ _ _ _ _ Hd). unfold run.
  rewrite (parse_menu_leaf _ _ _ _ _ _ Hname Hrest Hsep Hdyn). munfold.
  rewrite (append_menu_spec _ _ _ _ _ _ _ _ _ Hm), new_item_row.
  rewrite (split_menu_nonempty _ _ _ Hsplit). cbn [orb].
  set (it := command_item (next_id w1) 0
               (format_title (entry_name t) key) cmd).
  exists items.
  destruct ((0 <? to_int (next_id w1)) && bstr_startswith0 cmd "#") eqn:Hc;
    cbn [snd].
  - apply andb_prop in Hc as [Hpos _]. apply Z.ltb_lt in Hpos.
    rewrite (to_int_positive (next_id w1)) by (first [done|lia]).
    exists (set_state (enable_bits (Z.lor MF_BYCOMMAND MF_GRAYED)) it).
    split; [done|]. split; [|done]. cbn [set_menus menus appended].
    unfold EnableMenuItem.
    rewrite (find_appended _ _ _ it (next_id w1) Hm eq_refl eq_refl).
    + rewrite list_lookup_alter_eq, list_lookup_insert_eq by done. cbn.
      f_equal. rewrite <- (Nat.add_0_r (length items)).
      by rewrite alter_app_r.
    + intros loc x Hx. specialize (Hb _ _ Hx). lia.
  - exists it. split; [done|]. split; [|done]. cbn [appended menus].
    by apply list_lookup_insert_eq.
Qed.

Lemma leaf_grayed_without_command_witness :
  let w := run (load_menu false None) world0 in
  ∃ items it,
    menus (append_submenu 0%nat "File" w).2 !! 1%nat = Some items
    ∧ menus (run (load_line 0%nat false "k #menu: File > Unbound") w) !! 1%nat
      = Some (items ++ [it])%list
    ∧ item_id it = WM_USER + 101
    ∧ item_data it = Some "#menu: File > Unbound"
    ∧ is_enabled it = false.
Proof.
  intros w.
  apply (leaf_grayed_without_command 0%nat false "k #menu: File > Unbound" w
           "k" "#menu: File > Unbound" "" "File > Unbound" 1%nat "> Unbound"
           (append_submenu 0%nat "File" w).2);
    try reflexivity.
  - apply parse_inv_root.
  - change (0 < 1)%nat. lia.
Defined.

End LeafItems.

(* ===================================================================== *)
(** * A parent row shared by two slots *)
(* ===================================================================== *)

Section SharedParent.

(** C3 as the specification states it fails for a slot that shares its
    submenu with a slot registered later: the chapter slot reads no
    chapter list and makes no row, yet its parent row is enabled after
    the pass, because the audio slot filled the submenu they share. *)
Lemma shared_parent_counterexample :
  let w := run (load_menu false
                  (Some ("a #menu: X #@chapters" ++ String LF
                         "b #menu: X #@tracks/audio")%string)) world0 in
  let w' := run (dyn_menu_update two_track_ctx) w in
  dyn_menus w = [ {| dyn_hmenu := 1; dyn_id := WM_USER + 100;
                     dyn_update := chapters |};
                  {| dyn_hmenu := 1; dyn_id := WM_USER + 100;
                     dyn_update := audio_track |} ]
  ∧ snapshot_absent chapters (ctx_state two_track_ctx)
  ∧ rows_of chapters (ctx_state two_track_ctx) = []
  ∧ find_by_command (menus w') (ctx_hmenu two_track_ctx) (WM_USER + 100)
    = Some (0%nat, 0%nat)
  ∧ is_enabled <$> item_at (menus w') (0%nat, 0%nat) = Some true
  ∧ GetMenuItemCount (menus w') 1 = 2.
Proof.
  split; [vm_compute; reflexivity|].
  split; [by left|].
  split; [reflexivity|].
  split; [vm_compute; reflexivity|].
  split; vm_compute; reflexivity.
Qed.

End SharedParent.
